(** * plateausnetwork/fs: the path type, file access, directory walk and
    recursive copy of [path.go], over a model of the operating system.

  The Go sources are embedded shallowly.  Pure string functions of the Go
  standard library ([strings], [path/filepath]) are Rocq functions on
  [string]; code that talks to the operating system is a program in a small
  monad of system calls ([prog]), run against a handler.  One handler,
  [model_os], is an in-memory POSIX-like tree of directories and regular
  files. *)

From Stdlib Require Import List String Ascii ZArith Bool Lia Arith Permutation.
Import ListNotations.
Open Scope string_scope.

Set Implicit Arguments.

(* ================================================================= *)
(** ** Go strings *)

Module GoString.

(** [os.IsPathSeparator] on Unix. *)
Definition is_sep (c : ascii) : bool := Ascii.eqb c "/"%char.

(** [strings.Split(s, "/")]: never the empty list. *)
Fixpoint split (s : string) : list string :=
  match s with
  | EmptyString => [""]
  | String c s' =>
      if is_sep c then "" :: split s'
      else match split s' with
           | [] => [String c ""]
           | x :: r => String c x :: r
           end
  end.

(** [s[n:]] *)
Fixpoint drop (n : nat) (s : string) : string :=
  match n, s with
  | O, _ => s
  | S n', String _ s' => drop n' s'
  | S _, EmptyString => ""
  end.

(** [strings.Replace(s, old, new, 1)]: the first occurrence of [old] in [s]
    (searching from the left) is replaced; an empty [old] matches at the
    beginning of [s]. *)
Fixpoint Replace1 (s old new : string) : string :=
  if String.prefix old s then new ++ drop (String.length old) s
  else match s with
       | EmptyString => ""
       | String c s' => String c (Replace1 s' old new)
       end.

(** A white-space rune of [unicode.IsSpace] at the head of a UTF-8 string:
    the number of bytes it occupies, or 0 when the head is no white space. *)
Definition space_width (s : string) : nat :=
  match s with
  | String c r =>
      let n := nat_of_ascii c in
      if (n =? 9) || (n =? 10) || (n =? 11) || (n =? 12) || (n =? 13)
         || (n =? 32) then 1
      else match r with
      | String c1 r1 =>
          let n1 := nat_of_ascii c1 in
          if (n =? 194) && ((n1 =? 133) || (n1 =? 160)) then 2
          else match r1 with
          | String c2 _ =>
              let n2 := nat_of_ascii c2 in
              if (n =? 225) && (n1 =? 154) && (n2 =? 128) then 3
              else if (n =? 226) && (n1 =? 128)
                      && (((128 <=? n2) && (n2 <=? 138))
                          || (n2 =? 168) || (n2 =? 169) || (n2 =? 175)) then 3
              else if (n =? 226) && (n1 =? 129) && (n2 =? 159) then 3
              else if (n =? 227) && (n1 =? 128) && (n2 =? 128) then 3
              else 0
          | EmptyString => 0
          end
      | EmptyString => 0
      end
  | EmptyString => 0
  end%nat.

(** [strings.TrimLeftFunc(s, unicode.IsSpace)] *)
Fixpoint trim_left (fuel : nat) (s : string) : string :=
  match fuel with
  | O => s
  | S fuel' =>
      match space_width s with
      | O => s
      | w => trim_left fuel' (drop w s)
      end
  end.

Fixpoint rev (s : string) : string :=
  match s with
  | EmptyString => ""
  | String c s' => rev s' ++ String c ""
  end.

(** A white-space rune at the end of the string, read backwards. *)
Definition space_width_last (r : string) : nat :=
  (* [r] is the reversed string: its head is the last byte. *)
  match r with
  | String c r0 =>
      let n := nat_of_ascii c in
      if (n =? 9) || (n =? 10) || (n =? 11) || (n =? 12) || (n =? 13)
         || (n =? 32) then 1
      else match r0 with
      | String c1 r1 =>
          if space_width (String c1 (String c "")) =? 2 then 2
          else match r1 with
          | String c2 _ =>
              if space_width (String c2 (String c1 (String c ""))) =? 3 then 3
              else 0
          | EmptyString => 0
          end
      | EmptyString => 0
      end
  | EmptyString => 0
  end%nat.

Fixpoint trim_left_rev (fuel : nat) (r : string) : string :=
  match fuel with
  | O => r
  | S fuel' =>
      match space_width_last r with
      | O => r
      | w => trim_left_rev fuel' (drop w r)
      end
  end.

(** [strings.TrimSpace] *)
Definition TrimSpace (s : string) : string :=
  let l := trim_left (String.length s) s in
  rev (trim_left_rev (String.length l) (rev l)).

End GoString.

(* ================================================================= *)
(** ** Go's [path/filepath] on Unix *)

Module filepath.
Import GoString.

Definition isRooted (s : string) : bool :=
  match s with
  | String c _ => is_sep c
  | EmptyString => false
  end.

(** One path element processed by [Clean]; [out] is the stack of elements
    kept so far, the last one first. *)
Definition clean_step (rooted : bool) (out : list string) (c : string)
  : list string :=
  if (c =? "") || (c =? ".") then out
  else if c =? ".." then
    match out with
    | top :: rest => if top =? ".." then c :: out else rest
    | [] => if rooted then [] else [c]
    end
  else c :: out.

Definition clean_elems (s : string) : list string :=
  List.rev (fold_left (clean_step (isRooted s)) (split s) []).

Definition render (rooted : bool) (l : list string) : string :=
  let body := String.concat "/" l in
  if rooted then "/" ++ body
  else if body =? "" then "." else body.

(** [filepath.Clean]: the shortest path name equivalent to [s] by purely
    lexical processing (multiple separators, [.] elements, inner [..]
    elements and [..] elements that begin a rooted path are dropped; the
    empty string becomes [.]). *)
Definition Clean (s : string) : string :=
  if s =? "" then "." else render (isRooted s) (clean_elems s).

(** [filepath.Join] of two elements: empty elements are ignored, the
    result is cleaned; all empty gives the empty string. *)
Definition Join (a b : string) : string :=
  if a =? "" then (if b =? "" then "" else Clean b)
  else Clean (a ++ "/" ++ b).

(** [path[:i+1]] where [i] is the index of the last separator. *)
Fixpoint upto_last_sep (s : string) : string :=
  match s with
  | EmptyString => ""
  | String c s' =>
      let r := upto_last_sep s' in
      if is_sep c then String c r
      else if r =? "" then "" else String c r
  end.

(** [filepath.Dir] *)
Definition Dir (s : string) : string := Clean (upto_last_sep s).

Fixpoint trim_trailing_seps (s : string) : string :=
  match s with
  | EmptyString => ""
  | String c s' =>
      let r := trim_trailing_seps s' in
      if (r =? "") && is_sep c then "" else String c r
  end.

(** [filepath.Base] *)
Definition Base (s : string) : string :=
  if s =? "" then "."
  else
    let b := last (split (trim_trailing_seps s)) "" in
    if b =? "" then "/" else b.

End filepath.

Import GoString filepath.

(* ================================================================= *)
(** ** Values of the Go runtime and of package [os] *)

(** [syscall.Errno], the values the development names. *)
Inductive Errno := ENOENT | ENOTDIR | EISDIR | EEXIST | EACCES | EBADF | EIO.

(** Go [error] values: the package's own sentinels ([errors.go]),
    [filepath.SkipDir], and [*os.PathError].  A nil [error] is [None]. *)
Inductive error :=
| ErrDirDoesNotExist
| ErrFileDoesNotExist
| ErrNotFound
| ErrPathIsEmpty
| ErrPathIsDirectory
| ErrPathIsDirectoryDestFile
| ErrOneDirectoryOtherFile
| ErrFilesNotEquals
| SkipDir
| PathError (op : string) (path : string) (errno : Errno).

Inductive result (A : Type) :=
| Ok (a : A)
| Err (e : error).
Arguments Ok {A} a.
Arguments Err {A} e.

(** [os.IsNotExist] *)
Definition os_IsNotExist (err : error) : bool :=
  match err with
  | PathError _ _ ENOENT => true
  | _ => false
  end.

Definition is_SkipDir (err : error) : bool :=
  match err with
  | SkipDir => true
  | _ => false
  end.

(** [os.FileMode]: a 32-bit word, permission bits below, type bits above. *)
Definition FileMode := Z.

Definition ModeDir : FileMode := Z.shiftl 1 31.
Definition ModeSymlink : FileMode := Z.shiftl 1 27.
Definition ModeDevice : FileMode := Z.shiftl 1 26.
Definition ModeNamedPipe : FileMode := Z.shiftl 1 25.
Definition ModeSocket : FileMode := Z.shiftl 1 24.
Definition ModeCharDevice : FileMode := Z.shiftl 1 21.
Definition ModeIrregular : FileMode := Z.shiftl 1 19.
Definition ModeType : FileMode :=
  Z.lor ModeDir (Z.lor ModeSymlink (Z.lor ModeNamedPipe (Z.lor ModeSocket
    (Z.lor ModeDevice (Z.lor ModeCharDevice ModeIrregular))))).
Definition ModePerm : FileMode := 511%Z. (* 0777 *)

Definition Mode_IsDir (m : FileMode) : bool := negb (Z.land m ModeDir =? 0)%Z.
Definition Mode_IsRegular (m : FileMode) : bool := (Z.land m ModeType =? 0)%Z.

(** [os.FileInfo], as far as the package looks at it. *)
Record FileInfo := { Mode : FileMode }.

Definition IsDir (info : FileInfo) : bool := Mode_IsDir (Mode info).

Definition O_RDONLY : Z := 0%Z.
Definition O_WRONLY : Z := 1%Z.
Definition O_RDWR : Z := 2%Z.
Definition O_CREATE : Z := 64%Z.
Definition O_TRUNC : Z := 512%Z.
Definition O_APPEND : Z := 1024%Z.

(** [*os.File]: the name it was opened under, the place of the file in the
    tree of the model, the open flags. *)
Record File := { f_name : string; f_node : list string; f_flag : Z }.

(* ================================================================= *)
(** ** Programs over the operating system *)

(** The functions of [os], [io] and [path/filepath] that reach the operating
    system, with the type of what each returns. *)
Inductive syscall : Type -> Type :=
| os_Stat (name : string) : syscall (result FileInfo)
| os_Lstat (name : string) : syscall (result FileInfo)
| os_OpenFile (name : string) (flag : Z) (perm : FileMode) : syscall (result File)
| os_MkdirAll (path : string) (perm : FileMode) : syscall (option error)
| readDirNames (dirname : string) : syscall (result (list string))
| io_Copy (dst src : File) : syscall (option error)
| File_Close (f : File) : syscall (option error).

Inductive failure := OutOfFuel | NilDereference.

Inductive prog (A : Type) : Type :=
| Ret (a : A)
| Call (R : Type) (c : syscall R) (k : R -> prog A)
| Fail (f : failure).
Arguments Ret {A} a.
Arguments Call {A R} c k.
Arguments Fail {A} f.

Fixpoint bind {A B : Type} (m : prog A) (f : A -> prog B) : prog B :=
  match m with
  | Ret a => f a
  | Call c k => Call c (fun r => bind (k r) f)
  | Fail e => Fail e
  end.

Definition call {R : Type} (c : syscall R) : prog R := Call c Ret.

Declare Scope prog_scope.
Delimit Scope prog_scope with prog.
Notation "x <- m ;; k" := (bind m (fun x => k))
  (at level 61, m at next level, right associativity) : prog_scope.
Notation "' pat <- m ;; k" := (bind m (fun x => match x with pat => k end))
  (at level 61, pat pattern, m at next level, right associativity) : prog_scope.
Open Scope prog_scope.

(** What the operating system answers, and how it changes. *)
Definition handler (St : Type) : Type := forall R : Type, syscall R -> St -> R * St.

Inductive event := Ev (R : Type) (c : syscall R).
Arguments Ev {R} c.

Record outcome (St A : Type) := {
  value : A + failure;
  final : St;
  calls : list event
}.

Fixpoint run {St A : Type} (h : handler St) (m : prog A) (s : St) : outcome St A :=
  match m with
  | Ret a => {| value := inl a; final := s; calls := [] |}
  | Fail f => {| value := inr f; final := s; calls := [] |}
  | Call c k =>
      let (r, s') := h _ c s in
      let o := run h (k r) s' in
      {| value := value o; final := final o; calls := Ev c :: calls o |}
  end.

(* ================================================================= *)
(** ** [filepath.Walk] (Go 1.13 and later)

    A visitor that keeps state between calls (a Go closure over a variable)
    takes that state as [acc] and returns the new one.  The recursion of
    [walk] on the depth of the tree is bounded by [fuel]. *)

Section FilepathWalk.
Variable A : Type.

Definition WalkFunc : Type :=
  string -> option FileInfo -> option error -> A -> prog (option error * A).

Variable walkFn : WalkFunc.

(** The loop over the names of one directory, [rec] being [walk]. *)
Fixpoint walk_names (rec : string -> FileInfo -> A -> prog (option error * A))
  (path : string) (names : list string) (acc : A) : prog (option error * A) :=
  match names with
  | [] => Ret (None, acc)
  | name :: rest =>
      let filename := Join path name in
      r <- call (os_Lstat filename) ;;
      match r with
      | Err err =>
          '(e, acc) <- walkFn filename None (Some err) acc ;;
          match e with
          | Some e' =>
              if negb (is_SkipDir e') then Ret (Some e', acc)
              else walk_names rec path rest acc
          | None => walk_names rec path rest acc
          end
      | Ok fileInfo =>
          '(e, acc) <- rec filename fileInfo acc ;;
          match e with
          | Some e' =>
              if negb (IsDir fileInfo) || negb (is_SkipDir e')
              then Ret (Some e', acc)
              else walk_names rec path rest acc
          | None => walk_names rec path rest acc
          end
      end
  end.

Fixpoint walk (fuel : nat) (path : string) (info : FileInfo) (acc : A)
  : prog (option error * A) :=
  match fuel with
  | O => Fail OutOfFuel
  | S fuel' =>
      if negb (IsDir info) then walkFn path (Some info) None acc
      else
        r <- call (readDirNames path) ;;
        let err := match r with Ok _ => None | Err e => Some e end in
        '(err1, acc) <- walkFn path (Some info) err acc ;;
        match r, err1 with
        | Ok names, None => walk_names (walk fuel') path names acc
        | _, _ => Ret (err1, acc)
        end
  end.

Definition filepath_Walk (fuel : nat) (root : string) (acc : A)
  : prog (option error * A) :=
  r <- call (os_Lstat root) ;;
  '(err, acc) <- match r with
                 | Err err => walkFn root None (Some err) acc
                 | Ok info => walk fuel root info acc
                 end ;;
  match err with
  | Some SkipDir => Ret (None, acc)
  | _ => Ret (err, acc)
  end.

End FilepathWalk.

(* ================================================================= *)
(** ** Package [fs]: [path.go] and the helpers of [fs.go] it uses *)

Module fs.

(** [type Path string] *)
Definition Path := string.

Inductive WalkType := WalkBoth | WalkFiles | WalkDirs.

Definition WalkType_eqb (a b : WalkType) : bool :=
  match a, b with
  | WalkBoth, WalkBoth | WalkFiles, WalkFiles | WalkDirs, WalkDirs => true
  | _, _ => false
  end.

Definition defaultFileMode : FileMode := 420%Z. (* 0644 *)
Definition defaultDirMode : FileMode := 493%Z.  (* 0755 *)

Definition openFileFlag : Z := O_RDONLY.
Definition createFileFlag : Z := Z.lor O_WRONLY (Z.lor O_CREATE O_TRUNC).
Definition appendFileFlag : Z := Z.lor O_WRONLY (Z.lor O_CREATE O_APPEND).

Definition Info (p : Path) : prog (option FileInfo) :=
  r <- call (os_Stat p) ;;
  match r with
  | Ok info => Ret (Some info)
  | Err _ => Ret None
  end.

Definition Exists (p : Path) : prog bool :=
  info <- Info p ;;
  Ret (match info with Some _ => true | None => false end).

Definition FileExists (p : Path) : prog bool :=
  info <- Info p ;;
  match info with
  | Some info => Ret (Mode_IsRegular (Mode info))
  | None => Ret false
  end.

Definition DirExists (p : Path) : prog bool :=
  info <- Info p ;;
  match info with
  | Some info => Ret (IsDir info)
  | None => Ret false
  end.

Definition Empty (p : Path) : bool := TrimSpace p =? "".

Definition Basename (p : Path) : string := Base p.

Definition Parent (p : Path) : Path := Dir p.

Definition Clean (p : Path) : Path := filepath.Clean p.

Definition Join (p : Path) (other : string) : Path := filepath.Join p other.

(** [fs.go] *)
Definition Dirname (path : string) : string := Parent path.

Definition MkdirAll (p : Path) : prog (option error) :=
  e <- call (os_MkdirAll p defaultDirMode) ;;
  match e with
  | Some err => Ret (Some err)
  | None => Ret None
  end.

Definition open (p : Path) (flag : Z) (mode : FileMode) : prog (result File) :=
  if Empty p then Ret (Err ErrPathIsEmpty)
  else
    d <- DirExists p ;;
    if d then Ret (Err ErrPathIsDirectory)
    else
      r <- call (os_OpenFile p flag mode) ;;
      match r with
      | Err err =>
          if negb (os_IsNotExist err) then Ret (Err err)
          else
            e <- MkdirAll (Parent (Clean p)) ;;
            match e with
            | Some err => Ret (Err err)
            | None => call (os_OpenFile p flag mode)
            end
      | Ok file => Ret (Ok file)
      end.

Definition Open (p : Path) : prog (result File) :=
  b <- FileExists p ;;
  if negb b then Ret (Err ErrFileDoesNotExist)
  else open p openFileFlag defaultFileMode.

Definition Create (p : Path) : prog (result File) :=
  open p createFileFlag defaultFileMode.

Definition Append (p : Path) : prog (result File) :=
  r <- open p appendFileFlag defaultFileMode ;;
  match r with
  | Err err => Ret (Err err)
  | Ok file => Ret (Ok file)
  end.

Section Walk.
Variable A : Type.

(** The function literal [Walk] hands to [filepath.Walk]. *)
Definition Walk_func (p : Path) (walkType : WalkType)
  (walker : Path -> bool -> A -> prog (option error * A)) : WalkFunc A :=
  fun path info err acc =>
    match err with
    | Some e => Ret (Some e, acc)
    | None =>
        if path =? p then Ret (None, acc)
        else
          let skipper := if Dirname path =? p then None else Some SkipDir in
          match info with
          | None => Fail NilDereference
          | Some info =>
              if IsDir info && WalkType_eqb walkType WalkFiles
              then Ret (skipper, acc)
              else if negb (IsDir info) && WalkType_eqb walkType WalkDirs
              then Ret (skipper, acc)
              else walker path (IsDir info) acc
          end
    end.

Definition Walk (fuel : nat) (p : Path) (walkType : WalkType)
  (walker : Path -> bool -> A -> prog (option error * A)) (acc : A)
  : prog (option error * A) :=
  d <- DirExists p ;;
  if negb d then Ret (Some ErrDirDoesNotExist, acc)
  else filepath_Walk (Walk_func p walkType walker) fuel p acc.

End Walk.

Definition copyFiles (src dest : Path) : prog (option error) :=
  info <- Info src ;;
  match info with
  | None => Ret (Some ErrFileDoesNotExist)
  | Some info =>
      r <- open src openFileFlag 256%Z ;; (* 0400 *)
      match r with
      | Err err => Ret (Some err)
      | Ok srcFile =>
          r' <- open dest createFileFlag (Mode info) ;;
          match r' with
          | Err err =>
              _ <- call (File_Close srcFile) ;;
              Ret (Some err)
          | Ok destFile =>
              err <- call (io_Copy destFile srcFile) ;;
              _ <- call (File_Close destFile) ;;
              _ <- call (File_Close srcFile) ;;
              match err with
              | Some err => Ret (Some err)
              | None => Ret None
              end
          end
      end
  end.

(** The visitor of [copyDirs]; it keeps no state. *)
Definition copyDirs_walker (src dest : Path) (path : Path) (isDirectory : bool)
  (acc : unit) : prog (option error * unit) :=
  let newDest : Path := Replace1 path src dest in
  if isDirectory then
    e <- MkdirAll newDest ;;
    match e with
    | Some err => Ret (Some err, acc)
    | None => Ret (None, acc)
    end
  else
    e <- copyFiles path newDest ;;
    match e with
    | Some err => Ret (Some err, acc)
    | None => Ret (None, acc)
    end.

Definition copyDirs (fuel : nat) (src dest : Path) : prog (option error) :=
  d <- DirExists dest ;;
  e <- (if negb d then MkdirAll dest else Ret None) ;;
  match e with
  | Some err => Ret (Some err)
  | None =>
      '(err, _) <- Walk fuel src WalkBoth (copyDirs_walker src dest) tt ;;
      Ret err
  end.

Definition copy (fuel : nat) (src dest : Path) : prog (option error) :=
  e <- Exists src ;;
  if negb e then Ret (Some ErrNotFound)
  else
    f <- FileExists src ;;
    if f then
      d <- DirExists dest ;;
      if d then copyFiles src (Join dest (Basename src))
      else copyFiles src dest
    else
      f' <- FileExists dest ;;
      if f' then Ret (Some ErrPathIsDirectoryDestFile)
      else copyDirs fuel src dest.

Definition CopyTo (fuel : nat) (p dest : Path) : prog (option error) :=
  copy fuel p dest.

(** The visitor of [Count]: [count++] on a [uint64]. *)
Definition Count_walker (path : Path) (isDirectory : bool) (count : Z)
  : prog (option error * Z) :=
  Ret (None, ((count + 1) mod 2 ^ 64)%Z).

Definition Count (fuel : nat) (p : Path) (walkType : WalkType) : prog Z :=
  d <- DirExists p ;;
  if negb d then Ret 0%Z
  else
    '(_, count) <- Walk fuel p walkType Count_walker 0%Z ;;
    Ret count.

End fs.

(* ================================================================= *)
(** ** A model of the operating system

    The file system is a tree of directories and regular files (no symbolic
    links, no other file types, no permission checks, umask 0); a process
    has a current directory.  Path names are resolved element by element as
    POSIX does: every element but the last must name an existing directory,
    [..] of the root is the root. *)

Module Model.
Local Open Scope list_scope.

Set Warnings "-register-all".
Inductive node :=
| Reg (perm : FileMode) (data : string)
| Dir (perm : FileMode) (entries : list (string * node)).

Record world := { tree : node; cwd : list string }.

Fixpoint find_entry (x : string) (es : list (string * node)) : option node :=
  match es with
  | [] => None
  | (y, c) :: r => if y =? x then Some c else find_entry x r
  end.

(** The node at an address, a list of names read from the root. *)
Fixpoint lookup (t : node) (a : list string) : option node :=
  match a with
  | [] => Some t
  | x :: a' =>
      match t with
      | Dir _ es =>
          match find_entry x es with
          | Some c => lookup c a'
          | None => None
          end
      | Reg _ _ => None
      end
  end.

Fixpoint put_entry (x : string) (f : option node -> option node)
  (es : list (string * node)) : list (string * node) :=
  match es with
  | [] => match f None with
          | Some n => [(x, n)]
          | None => []
          end
  | (y, c) :: r =>
      if y =? x then
        match f (Some c) with
        | Some n => (y, n) :: r
        | None => (y, c) :: r
        end
      else (y, c) :: put_entry x f r
  end.

(** Put node [n] at address [a]; the parent of [a] must be a directory. *)
Fixpoint set_at (a : list string) (n : node) (t : node) : node :=
  match a with
  | [] => n
  | x :: a' =>
      match t with
      | Dir m es =>
          Dir m (put_entry x (fun o =>
                   match a', o with
                   | [], _ => Some n
                   | _, Some c => Some (set_at a' n c)
                   | _, None => None
                   end) es)
      | Reg _ _ => t
      end
  end.

Definition info_of (n : node) : FileInfo :=
  match n with
  | Reg perm _ => {| Mode := Z.land perm ModePerm |}
  | Dir perm _ => {| Mode := Z.lor ModeDir (Z.land perm ModePerm) |}
  end.

(** One element of a path name, from the directory at address [a]. *)
Definition namei_step (t : node) (r : Errno + list string) (c : string)
  : Errno + list string :=
  match r with
  | inl e => inl e
  | inr a =>
      match lookup t a with
      | Some (Dir _ es) =>
          if (c =? "") || (c =? ".") then inr a
          else if c =? ".." then inr (removelast a)
          else match find_entry c es with
               | Some _ => inr (a ++ [c])
               | None => inl ENOENT
               end
      | Some (Reg _ _) => inl ENOTDIR
      | None => inl ENOENT
      end
  end.

Definition start_of (w : world) (name : string) : list string :=
  if isRooted name then [] else cwd w.

Definition namei_elems (w : world) (name : string) (elems : list string)
  : Errno + list string :=
  fold_left (namei_step (tree w)) elems (inr (start_of w name)).

(** Path name resolution: the address of the entry [name] denotes. *)
Definition namei (w : world) (name : string) : Errno + list string :=
  if name =? "" then inl ENOENT
  else namei_elems w name (split name).

Definition m_stat (op : string) (w : world) (name : string) : result FileInfo :=
  match namei w name with
  | inl e => Err (PathError op name e)
  | inr a =>
      match lookup (tree w) a with
      | Some n => Ok (info_of n)
      | None => Err (PathError op name ENOENT)
      end
  end.

Definition has_flag (flag bit : Z) : bool := negb (Z.land flag bit =? 0)%Z.

Definition writes (flag : Z) : bool := has_flag flag O_WRONLY || has_flag flag O_RDWR.

Definition valid_name (x : string) : bool :=
  negb (x =? "") && negb (x =? ".") && negb (x =? "..")
  && match split x with [_] => true | _ => false end.

Fixpoint strip_empty (rl : list string) : list string :=
  match rl with
  | "" :: r => strip_empty r
  | _ => rl
  end.

(** [open(2)] with O_CREAT on a name that does not resolve: the parent
    directory must resolve, and the last element is created in it; a name
    with a trailing separator cannot be created as a regular file. *)
Definition m_create (w : world) (name : string) (flag : Z) (perm : FileMode)
  : result File * world :=
  let elems := split name in
  let elems' := List.rev (strip_empty (List.rev elems)) in
  match namei_elems w name (removelast elems') with
  | inl e => (Err (PathError "open" name e), w)
  | inr a =>
      match lookup (tree w) a with
      | Some (Dir _ es) =>
          let x := last elems' "" in
          if negb (valid_name x) then (Err (PathError "open" name ENOENT), w)
          else if negb (List.length elems' =? List.length elems)%nat
          then (Err (PathError "open" name EISDIR), w)
          else
            match find_entry x es with
            | Some _ => (Err (PathError "open" name EEXIST), w)
            | None =>
                (Ok {| f_name := name; f_node := a ++ [x]; f_flag := flag |},
                 {| tree := set_at (a ++ [x]) (Reg (Z.land perm ModePerm) "") (tree w);
                    cwd := cwd w |})
            end
      | Some (Reg _ _) => (Err (PathError "open" name ENOTDIR), w)
      | None => (Err (PathError "open" name ENOENT), w)
      end
  end.

(** [os.OpenFile] *)
Definition m_open (w : world) (name : string) (flag : Z) (perm : FileMode)
  : result File * world :=
  match namei w name with
  | inr a =>
      match lookup (tree w) a with
      | Some (Dir _ _) =>
          if writes flag || has_flag flag O_CREATE
          then (Err (PathError "open" name EISDIR), w)
          else (Ok {| f_name := name; f_node := a; f_flag := flag |}, w)
      | Some (Reg p _) =>
          (Ok {| f_name := name; f_node := a; f_flag := flag |},
           if writes flag && has_flag flag O_TRUNC
           then {| tree := set_at a (Reg p "") (tree w); cwd := cwd w |}
           else w)
      | None => (Err (PathError "open" name ENOENT), w)
      end
  | inl ENOENT =>
      if has_flag flag O_CREATE && negb (name =? "")
      then m_create w name flag perm
      else (Err (PathError "open" name ENOENT), w)
  | inl e => (Err (PathError "open" name e), w)
  end.

(** One element of the path of [os.MkdirAll]: a missing directory is made.
    The tree is kept when an element fails. *)
Definition mkdir_step (perm : FileMode) (s : node * (Errno + list string))
  (c : string) : node * (Errno + list string) :=
  let (t, r) := s in
  match r with
  | inl e => (t, inl e)
  | inr a =>
      match lookup t a with
      | Some (Dir _ es) =>
          if (c =? "") || (c =? ".") then (t, inr a)
          else if c =? ".." then (t, inr (removelast a))
          else match find_entry c es with
               | Some (Dir _ _) => (t, inr (a ++ [c]))
               | Some (Reg _ _) => (t, inl ENOTDIR)
               | None =>
                   (set_at (a ++ [c]) (Dir (Z.land perm ModePerm) []) t,
                    inr (a ++ [c]))
               end
      | Some (Reg _ _) => (t, inl ENOTDIR)
      | None => (t, inl ENOENT)
      end
  end.

(** [os.MkdirAll]: creates the directory [path] with any missing parents;
    does nothing if it is a directory already; fails if an element of the
    path is a regular file.  Directories made before a failure stay. *)
Definition m_mkdirall (w : world) (path : string) (perm : FileMode)
  : option error * world :=
  if path =? "" then (Some (PathError "mkdir" path ENOENT), w)
  else
    match fold_left (mkdir_step perm) (split path)
                    (tree w, inr (start_of w path)) with
    | (t, inr _) => (None, {| tree := t; cwd := cwd w |})
    | (t, inl e) => (Some (PathError "mkdir" path e), {| tree := t; cwd := cwd w |})
    end.

Fixpoint insert_sorted (x : string) (l : list string) : list string :=
  match l with
  | [] => [x]
  | y :: r => if String.leb x y then x :: l else y :: insert_sorted x r
  end.

(** [sort.Strings] *)
Definition sort_strings (l : list string) : list string :=
  fold_right insert_sorted [] l.

(** [readDirNames] of [path/filepath]: the names in a directory, sorted. *)
Definition m_readdir (w : world) (dirname : string) : result (list string) :=
  match namei w dirname with
  | inl e => Err (PathError "open" dirname e)
  | inr a =>
      match lookup (tree w) a with
      | Some (Dir _ es) => Ok (sort_strings (map fst es))
      | Some (Reg _ _) => Err (PathError "readdirent" dirname ENOTDIR)
      | None => Err (PathError "open" dirname ENOENT)
      end
  end.

(** [io.Copy]: everything readable from [src] is written to [dst], at the
    start of the file, or at its end under O_APPEND. *)
Definition m_copy (w : world) (dst src : File) : option error * world :=
  match lookup (tree w) (f_node src), lookup (tree w) (f_node dst) with
  | Some (Reg _ data), Some (Reg p old) =>
      if has_flag (f_flag src) O_WRONLY
      then (Some (PathError "read" (f_name src) EBADF), w)
      else if negb (writes (f_flag dst))
      then (Some (PathError "write" (f_name dst) EBADF), w)
      else
        let data' := if has_flag (f_flag dst) O_APPEND then (old ++ data)%string
                     else (data ++ drop (String.length data) old)%string in
        (None, {| tree := set_at (f_node dst) (Reg p data') (tree w);
                  cwd := cwd w |})
  | Some (Dir _ _), _ => (Some (PathError "read" (f_name src) EISDIR), w)
  | None, _ => (Some (PathError "read" (f_name src) EBADF), w)
  | _, _ => (Some (PathError "write" (f_name dst) EBADF), w)
  end.

Definition model_os : handler world :=
  fun R c =>
    match c in syscall R return world -> R * world with
    | os_Stat name => fun w => (m_stat "stat" w name, w)
    | os_Lstat name => fun w => (m_stat "lstat" w name, w)
    | os_OpenFile name flag perm => fun w => m_open w name flag perm
    | os_MkdirAll path perm => fun w => m_mkdirall w path perm
    | readDirNames dirname => fun w => (m_readdir w dirname, w)
    | io_Copy dst src => fun w => m_copy w dst src
    | File_Close f => fun w => (None, w)
    end.

End Model.

(* ================================================================= *)
(** ** Worlds and visitors used in statements *)

Import Model.

(** What the three predicates of [path.go] answer in a world of the model. *)
Definition is_dir (w : world) (p : fs.Path) : bool :=
  match m_stat "stat" w p with
  | Ok info => IsDir info
  | Err _ => false
  end.

Definition is_file (w : world) (p : fs.Path) : bool :=
  match m_stat "stat" w p with
  | Ok info => Mode_IsRegular (Mode info)
  | Err _ => false
  end.

Definition exists_ (w : world) (p : fs.Path) : bool :=
  match m_stat "stat" w p with
  | Ok _ => true
  | Err _ => false
  end.

(** The two ways of opening for writing. *)
Inductive write_mode := ForCreate | ForAppend.

Definition write_flag (wm : write_mode) : Z :=
  match wm with
  | ForCreate => fs.createFileFlag
  | ForAppend => fs.appendFileFlag
  end.

Definition open_for (wm : write_mode) (p : fs.Path) : prog (result File) :=
  match wm with
  | ForCreate => fs.Create p
  | ForAppend => fs.Append p
  end.

(** A visitor that records what it is handed, in order. *)
Definition recorder (path : fs.Path) (isDirectory : bool)
  (seen : list (fs.Path * bool)) : prog (option error * list (fs.Path * bool)) :=
  Ret (None, (seen ++ [(path, isDirectory)])%list).

(** A world with nothing in it, and a path whose [..] steps through a
    directory that is not there. *)
Definition empty_world : world := {| tree := Dir 493%Z []; cwd := [] |}.

(** The model with one directory that cannot be listed (no read
    permission): [readDirNames] of it fails with EACCES. *)
Definition deny_readdir (bad : string) : handler world :=
  fun R c =>
    match c in syscall R return world -> R * world with
    | readDirNames dirname =>
        fun w =>
          if dirname =? bad
          then (Err (PathError "open" dirname EACCES), w)
          else model_os (readDirNames dirname) w
    | c' => model_os c'
    end.

(** [DirExists] says no on this answer of [os.Stat]. *)
Definition not_a_directory (r : result FileInfo) : bool :=
  match r with
  | Ok info => negb (IsDir info)
  | Err _ => true
  end.

(** A directory [r] with a file [a] and a directory [b]. *)
Definition small_world : world :=
  {| tree := Dir 493%Z
       [("r", Dir 493%Z [("a", Reg 420%Z "x"); ("b", Dir 493%Z [])])];
     cwd := [] |}.

(** A file [a] next to a directory [d] that holds a directory [a]. *)
Definition clash_world : world :=
  {| tree := Dir 493%Z
       [("a", Reg 420%Z "x");
        ("d", Dir 493%Z [("a", Dir 493%Z [("keep", Reg 420%Z "y")])])];
     cwd := [] |}.

(** The same with a blank for the name [a]. *)
Definition blank_world : world :=
  {| tree := Dir 493%Z
       [(" ", Reg 420%Z "x");
        ("d", Dir 493%Z [(" ", Dir 493%Z [("keep", Reg 420%Z "y")])])];
     cwd := [] |}.

(** The entries a filter lets through to the visitor. *)
Definition delivers (walkType : fs.WalkType) (isDirectory : bool) : bool :=
  match walkType with
  | fs.WalkBoth => true
  | fs.WalkFiles => negb isDirectory
  | fs.WalkDirs => isDirectory
  end.

(** A visitor that records the entry and fails with [e]. *)
Definition failing_recorder (e : error) (path : fs.Path) (isDirectory : bool)
  (seen : list (fs.Path * bool)) : prog (option error * list (fs.Path * bool)) :=
  Ret (Some e, (seen ++ [(path, isDirectory)])%list).

(** A tree with entries two and three levels below [r]. *)
Definition deep_world : world :=
  {| tree := Dir 493%Z
       [("r", Dir 493%Z
          [("a", Dir 493%Z
             [("f", Reg 420%Z "x");
              ("z", Dir 493%Z [("g", Reg 420%Z "y")])])])];
     cwd := [] |}.

(** A string without separator. *)
Definition plain (x : string) : Prop := split x = [x].

(** The stack of elements [Clean] keeps (last element first): names, above
    [..] elements that could not be resolved, which a rooted path never
    keeps. *)
Fixpoint all_dotdot (l : list string) : bool :=
  match l with
  | [] => true
  | x :: r => (x =? "..") && all_dotdot r
  end.

Fixpoint norm_stack (rooted : bool) (out : list string) : bool :=
  match out with
  | [] => true
  | x :: r =>
      if x =? ".." then negb rooted && all_dotdot r
      else valid_name x && norm_stack rooted r
  end.

(** ** Trees as [Walk] sees them *)

Definition is_dir_node (n : node) : bool :=
  match n with
  | Dir _ _ => true
  | Reg _ _ => false
  end.

Fixpoint nodupb (l : list string) : bool :=
  match l with
  | [] => true
  | x :: r => negb (existsb (String.eqb x) r) && nodupb r
  end.

(** In every directory the names are names (not empty, not [.] or [..],
    no separator) and are distinct. *)
Fixpoint wf_node (n : node) : bool :=
  match n with
  | Reg _ _ => true
  | Dir _ es =>
      forallb valid_name (map fst es) && nodupb (map fst es)
      && (fix all (es : list (string * node)) : bool :=
            match es with
            | [] => true
            | (_, c) :: r => wf_node c && all r
            end) es
  end.

Fixpoint height (n : node) : nat :=
  match n with
  | Reg _ _ => 0
  | Dir _ es =>
      S ((fix mx (es : list (string * node)) : nat :=
            match es with
            | [] => 0
            | (_, c) :: r => Nat.max (height c) (mx r)
            end) es)
  end.

(** The entries below a directory in the order of a depth-first walk that
    takes the names of each directory sorted, with the path [Join] gives
    each of them. *)
Fixpoint listing (fuel : nat) (path : string) (n : node)
  : list (fs.Path * bool) :=
  match fuel with
  | O => []
  | S fuel' =>
      match n with
      | Reg _ _ => []
      | Dir _ es =>
          flat_map (fun name =>
                      match find_entry name es with
                      | Some c =>
                          (Join path name, is_dir_node c)
                          :: listing fuel' (Join path name) c
                      | None => []
                      end)
                   (sort_strings (map fst es))
      end
  end.

(** A program that returns [v] and leaves the world as it is. *)
Definition yields {B : Type} (m : prog B) (w : world) (v : B) : Prop :=
  value (run model_os m w) = inl v /\ final (run model_os m w) = w.

(** Paths with more elements than the root [p], once cleaned. *)
Definition below (p path : string) : Prop :=
  List.length (clean_elems p) < List.length (clean_elems path).

(** The part of a listing that comes from one name of a directory. *)
Definition block (fuel' : nat) (path : string) (es : list (string * node))
  (name : string) : list (fs.Path * bool) :=
  match find_entry name es with
  | Some c => (Join path name, is_dir_node c) :: listing fuel' (Join path name) c
  | None => []
  end.

(** What [WalkFiles] delivers: the regular files of a directory, ... *)
Definition file_entry (path : string) (es : list (string * node))
  (name : string) : list (fs.Path * bool) :=
  match find_entry name es with
  | Some (Reg _ _) => [(Join path name, false)]
  | _ => []
  end.

Definition files_in (path : string) (es : list (string * node))
  : list (fs.Path * bool) :=
  flat_map (file_entry path es) (sort_strings (map fst es)).

(** ... for the root its own regular files and, when the root path is
    written in clean form, those of its directories, in the order of the
    walk. *)
Definition files_block (p : string) (es : list (string * node))
  (name : string) : list (fs.Path * bool) :=
  match find_entry name es with
  | Some (Reg _ _) => [(Join p name, false)]
  | Some (Dir _ es') => if Clean p =? p then files_in (Join p name) es' else []
  | None => []
  end.

Definition files_listing (p : string) (es : list (string * node))
  : list (fs.Path * bool) :=
  flat_map (files_block p es) (sort_strings (map fst es)).

(** What [WalkDirs] delivers.  In a directory the walk goes through the
    sorted names and ends at the first regular file; only in the root, and
    only when the root path is written in clean form ([skip]), regular
    files are passed over instead. *)
Definition names_dir (es : list (string * node)) (name : string) : bool :=
  match find_entry name es with
  | Some (Dir _ _) => true
  | _ => false
  end.

Fixpoint take_dirs (es : list (string * node)) (names : list string)
  : list string :=
  match names with
  | [] => []
  | n :: r => if names_dir es n then n :: take_dirs es r else []
  end.

Definition opened (skip : bool) (es : list (string * node))
  (names : list string) : list string :=
  if skip then filter (names_dir es) names else take_dirs es names.

Definition stopped (skip : bool) (es : list (string * node))
  (names : list string) : bool :=
  negb skip && negb (forallb (names_dir es) names).

Definition open_names (skip : bool) (es : list (string * node)) : list string :=
  opened skip es (sort_strings (map fst es)).

Fixpoint dirs_listing (fuel : nat) (skip : bool) (path : string) (n : node)
  : list (fs.Path * bool) :=
  match fuel with
  | O => []
  | S fuel' =>
      match n with
      | Reg _ _ => []
      | Dir _ es =>
          flat_map (fun name =>
                      match find_entry name es with
                      | Some c =>
                          (Join path name, true)
                          :: dirs_listing fuel' false (Join path name) c
                      | None => []
                      end)
                   (open_names skip es)
      end
  end.

Definition dirs_block (fuel' : nat) (path : string)
  (es : list (string * node)) (name : string) : list (fs.Path * bool) :=
  match find_entry name es with
  | Some c => (Join path name, true) :: dirs_listing fuel' false (Join path name) c
  | None => []
  end.

(** The directories [WalkDirs] gets to, by the names that lead to them. *)
Fixpoint reach (skip : bool) (n : node) (r : list string) : bool :=
  match r with
  | [] => true
  | name :: r' =>
      match n with
      | Dir _ es =>
          existsb (String.eqb name) (open_names skip es)
          && match find_entry name es with
             | Some c => reach false c r'
             | None => false
             end
      | Reg _ _ => false
      end
  end.

(** The number of entries below a directory. *)
Fixpoint entries (n : node) : nat :=
  match n with
  | Reg _ _ => 0
  | Dir _ es =>
      (fix sum (es : list (string * node)) : nat :=
         match es with
         | [] => 0
         | (_, c) :: r => S (entries c) + sum r
         end) es
  end.

(** What a path holds when it names a regular file: its permission bits
    and its data. *)
Definition content (w : world) (p : fs.Path) : option (FileMode * string) :=
  match namei w p with
  | inr a =>
      match lookup (tree w) a with
      | Some (Reg perm data) => Some (perm, data)
      | _ => None
      end
  | inl _ => None
  end.

(** Every directory of [t] is a directory of [t'], under the same address
    and with the same permission bits, and has kept its names. *)
Definition dirs_kept (t t' : node) : Prop :=
  forall b m es,
    lookup t b = Some (Dir m es) ->
    exists es', lookup t' b = Some (Dir m es')
                /\ forall c, find_entry c es <> None -> find_entry c es' <> None.
(** A program that returns [v] and leaves the world [w']. *)
Definition results {B : Type} (m : prog B) (w : world) (v : B) (w' : world)
  : Prop :=
  value (run model_os m w) = inl v /\ final (run model_os m w) = w'.

Definition put_file (w : world) (a : list string) (perm : FileMode)
  (data : string) : world :=
  {| tree := set_at a (Reg perm data) (tree w); cwd := cwd w |}.

(** A separator somewhere in the string. *)
Fixpoint has_sep (s : string) : bool :=
  match s with
  | EmptyString => false
  | String c r => is_sep c || has_sep r
  end.

(** Address [a] is [b] or above [b] in the tree. *)
Definition above (a b : list string) : Prop := exists r, b = (a ++ r)%list.

(** Neither address is above the other. *)
Definition apart (a b : list string) : Prop := ~ above a b /\ ~ above b a.

(** World [w'] has everything [w] has: the directories with their names
    and permission bits, the regular files with their permission bits and
    data. *)
Definition extends (w w' : world) : Prop :=
  cwd w' = cwd w
  /\ dirs_kept (tree w) (tree w')
  /\ forall a p d, lookup (tree w) a = Some (Reg p d) ->
                   lookup (tree w') a = Some (Reg p d).

(** World [w'] is [w] with node [n] added at address [b]: everything of
    [w] is kept and nothing apart from [b] has changed. *)
Definition adds (w w' : world) (b : list string) (n : node) : Prop :=
  extends w w'
  /\ lookup (tree w') b = Some n
  /\ forall a, apart a b -> lookup (tree w') a = lookup (tree w) a.

(** A path in clean form with at least one element: not [.] and not the
    root. *)
Definition proper (p : string) : Prop :=
  Clean p = p /\ clean_elems p <> [].

(** What the copy of a tree leaves for a node of the source: a regular
    file with the same data and the permission bits of its mode, a
    directory with mode 0755. *)
Definition mirrors (c : node) (o : option node) : Prop :=
  match c with
  | Reg p d => o = Some (Reg (Z.land p ModePerm) d)
  | Dir _ _ => exists es', o = Some (Dir 493%Z es')
  end.

(** Nothing at or below address [A] differs between [w] and [w1]. *)
Definition frozen (w w1 : world) (A : list string) : Prop :=
  forall r, lookup (tree w1) (A ++ r)%list = lookup (tree w) (A ++ r)%list.

(** World [w2] is [w1] with a copy of node [c] at address [b]: everything
    of [w1] is kept, nothing apart from [b] has changed, and every node of
    [c] has its counterpart below [b]. *)
Definition copied (c : node) (b : list string) (w1 w2 : world) : Prop :=
  extends w1 w2
  /\ (forall a, apart a b -> lookup (tree w2) a = lookup (tree w1) a)
  /\ (forall r c', lookup c r = Some c' ->
                   mirrors c' (lookup (tree w2) (b ++ r)%list)).

(** The walk of [copyDirs] has reached a directory: [src ++ suf] names
    the directory [Dir m es] of the world [w] before the copy, at address
    [a] below [A]; [dest ++ suf] names address [b] below [B]; the
    current world is [w1]. *)
Definition copy_ctx (w : world) (src dest : string) (A B a b : list string)
  (suf : string) (m : FileMode) (es : list (string * node)) (w1 : world)
  : Prop :=
  proper (src ++ suf) /\ proper (dest ++ suf)
  /\ List.length (clean_elems src) <= List.length (clean_elems (src ++ suf))
  /\ above A a /\ above B b
  /\ lookup (tree w) a = Some (Dir m es) /\ wf_node (Dir m es) = true
  /\ frozen w w1 A
  /\ namei w1 (src ++ suf) = inr a
  /\ namei w1 (dest ++ suf) = inr b.

(* ================================================================= *)
(** * Properties *)

(** ** Running programs *)

Section RunLemmas.
Context {St : Type} (h : handler St).

Lemma outcome_eta {A : Type} (o : outcome St A) :
  {| value := value o; final := final o; calls := calls o |} = o.
Proof. destruct o; reflexivity. Qed.

Lemma run_bind {A B : Type} (m : prog A) (f : A -> prog B) (s : St) :
  run h (bind m f) s =
  match value (run h m s) with
  | inl a =>
      let o' := run h (f a) (final (run h m s)) in
      {| value := value o'; final := final o';
         calls := (calls (run h m s) ++ calls o')%list |}
  | inr e =>
      {| value := inr e; final := final (run h m s);
         calls := calls (run h m s) |}
  end.
Proof.
  revert s; induction m as [a | R c k IH | e]; intros s; simpl.
  - now rewrite outcome_eta.
  - destruct (h c s) as [r s']; simpl.
    rewrite IH. destruct (value (run h (k r) s')); reflexivity.
  - reflexivity.
Qed.

End RunLemmas.

(** ** The predicates of [path.go] in the model *)

Lemma run_Info (w : world) (p : fs.Path) :
  run model_os (fs.Info p) w =
  {| value := inl (match m_stat "stat" w p with
                   | Ok info => Some info
                   | Err _ => None
                   end);
     final := w; calls := [Ev (os_Stat p)] |}.
Proof. unfold fs.Info; simpl. destruct (m_stat "stat" w p); reflexivity. Qed.

Lemma run_Exists (w : world) (p : fs.Path) :
  run model_os (fs.Exists p) w =
  {| value := inl (exists_ w p); final := w; calls := [Ev (os_Stat p)] |}.
Proof.
  unfold fs.Exists, exists_. rewrite run_bind, run_Info; simpl.
  destruct (m_stat "stat" w p); reflexivity.
Qed.

Lemma run_FileExists (w : world) (p : fs.Path) :
  run model_os (fs.FileExists p) w =
  {| value := inl (is_file w p); final := w; calls := [Ev (os_Stat p)] |}.
Proof.
  unfold fs.FileExists, is_file. rewrite run_bind, run_Info; simpl.
  destruct (m_stat "stat" w p); reflexivity.
Qed.

Lemma run_DirExists (w : world) (p : fs.Path) :
  run model_os (fs.DirExists p) w =
  {| value := inl (is_dir w p); final := w; calls := [Ev (os_Stat p)] |}.
Proof.
  unfold fs.DirExists, is_dir. rewrite run_bind, run_Info; simpl.
  destruct (m_stat "stat" w p); reflexivity.
Qed.

Lemma land_perm_type (perm : Z) : Z.land (Z.land perm ModePerm) ModeType = 0%Z.
Proof.
  rewrite <- Z.land_assoc.
  replace (Z.land ModePerm ModeType) with 0%Z by reflexivity.
  apply Z.land_0_r.
Qed.

Lemma land_perm_dir (perm : Z) : Z.land (Z.land perm ModePerm) ModeDir = 0%Z.
Proof.
  rewrite <- Z.land_assoc.
  replace (Z.land ModePerm ModeDir) with 0%Z by reflexivity.
  apply Z.land_0_r.
Qed.

Lemma info_of_Reg (perm : Z) (data : string) :
  IsDir (info_of (Reg perm data)) = false
  /\ Mode_IsRegular (Mode (info_of (Reg perm data))) = true.
Proof.
  unfold IsDir, Mode_IsDir, Mode_IsRegular; cbn [info_of Mode].
  now rewrite land_perm_type, land_perm_dir.
Qed.

Lemma land_dir_dir : Z.land ModeDir ModeDir = ModeDir.
Proof. reflexivity. Qed.

Lemma land_dir_type : Z.land ModeDir ModeType = ModeDir.
Proof. reflexivity. Qed.

Lemma info_of_Dir (perm : Z) (es : list (string * node)) :
  IsDir (info_of (Dir perm es)) = true
  /\ Mode_IsRegular (Mode (info_of (Dir perm es))) = false.
Proof.
  unfold IsDir, Mode_IsDir, Mode_IsRegular; cbn [info_of Mode].
  rewrite (Z.land_lor_distr_l ModeDir _ ModeDir),
          (Z.land_lor_distr_l ModeDir _ ModeType).
  rewrite land_perm_type, land_perm_dir, land_dir_dir, land_dir_type.
  rewrite Z.lor_0_r.
  split; reflexivity.
Qed.

Lemma is_dir_not_file (w : world) (p : fs.Path) :
  is_dir w p = true -> is_file w p = false /\ exists_ w p = true.
Proof.
  unfold is_dir, is_file, exists_, m_stat.
  destruct (namei w p) as [e | a]; [discriminate |].
  destruct (lookup (tree w) a) as [[perm data | perm es] |]; try discriminate.
  - now rewrite (proj1 (info_of_Reg perm data)).
  - intros _. now rewrite (proj2 (info_of_Dir perm es)).
Qed.

Lemma is_file_not_dir (w : world) (p : fs.Path) :
  is_file w p = true -> is_dir w p = false /\ exists_ w p = true.
Proof.
  unfold is_dir, is_file, exists_, m_stat.
  destruct (namei w p) as [e | a]; [discriminate |].
  destruct (lookup (tree w) a) as [[perm data | perm es] |]; try discriminate.
  - intros _. now rewrite (proj1 (info_of_Reg perm data)).
  - now rewrite (proj2 (info_of_Dir perm es)).
Qed.

(** ** Opening files *)

Lemma run_call_bind {St A T : Type} (h : handler St) (c : syscall T)
  (k : T -> prog A) (s : St) :
  run h (bind (call c) k) s =
  let (r, s') := h _ c s in
  let o := run h (k r) s' in
  {| value := value o; final := final o; calls := Ev c :: calls o |}.
Proof. reflexivity. Qed.

Lemma run_call {St T : Type} (h : handler St) (c : syscall T) (s : St) :
  run h (call c) s =
  let (r, s') := h _ c s in
  {| value := inl r; final := s'; calls := [Ev c] |}.
Proof. unfold call; cbn [run]. now destruct (h T c s). Qed.

Lemma m_open_rdonly (w : world) (p : fs.Path) (perm : FileMode) :
  is_file w p = true ->
  exists f, m_open w p fs.openFileFlag perm = (Ok f, w).
Proof.
  unfold is_file, m_stat, m_open.
  destruct (namei w p) as [e | a]; [discriminate |].
  destruct (lookup (tree w) a) as [[fp data | fp es] |]; try discriminate.
  - intros _. eexists. reflexivity.
  - now rewrite (proj2 (info_of_Dir fp es)).
Qed.

(** Opening a regular file read-only through [open]: the file is opened at
    once and nothing changes. *)
Lemma run_open_rdonly (w : world) (p : fs.Path) (perm : FileMode) :
  is_file w p = true -> fs.Empty p = false ->
  exists f,
    run model_os (fs.open p fs.openFileFlag perm) w =
    {| value := inl (Ok f); final := w;
       calls := [Ev (os_Stat p); Ev (os_OpenFile p fs.openFileFlag perm)] |}.
Proof.
  intros Hf He.
  destruct (m_open_rdonly w p perm Hf) as [f Hopen].
  exists f. unfold fs.open. rewrite He.
  rewrite run_bind, run_DirExists. cbn [value final calls].
  rewrite (proj1 (is_file_not_dir w p Hf)). cbv zeta.
  rewrite run_call_bind. cbn [model_os]. rewrite Hopen. reflexivity.
Qed.

Lemma final_open_rdonly (w : world) (p : fs.Path) (perm : FileMode) :
  is_file w p = true ->
  final (run model_os (fs.open p fs.openFileFlag perm) w) = w.
Proof.
  intros Hf. destruct (fs.Empty p) eqn:He.
  - unfold fs.open. now rewrite He.
  - destruct (run_open_rdonly w p perm Hf He) as [f ->]. reflexivity.
Qed.

(** C6.  A path that is not a regular file: [Open] answers
    [ErrFileDoesNotExist] after the one [os.Stat] of [FileExists], with no
    other check and no native open; and for every path, [Open] leaves the
    file system as it was, so a read-open creates nothing. *)
Theorem Open_not_regular_file (w : world) (p : fs.Path) :
  (is_file w p = false ->
   run model_os (fs.Open p) w =
   {| value := inl (Err ErrFileDoesNotExist); final := w;
      calls := [Ev (os_Stat p)] |})
  /\ final (run model_os (fs.Open p) w) = w.
Proof.
  unfold fs.Open. rewrite run_bind, run_FileExists. cbn [value final calls].
  destruct (is_file w p) eqn:Hf; cbn [negb]; cbv zeta.
  - split; [discriminate |]. cbn [final]. now apply final_open_rdonly.
  - split; reflexivity.
Qed.

(** ** [copy] *)

(** C8.  A source that does not exist: [CopyTo] answers [ErrNotFound]
    after a single [os.Stat], and the file system is unchanged. *)
Theorem CopyTo_missing_source (fuel : nat) (w : world) (src dest : fs.Path) :
  exists_ w src = false ->
  run model_os (fs.CopyTo fuel src dest) w =
  {| value := inl (Some ErrNotFound); final := w;
     calls := [Ev (os_Stat src)] |}.
Proof.
  intros He. unfold fs.CopyTo, fs.copy.
  rewrite run_bind, run_Exists. cbn [value final calls]. now rewrite He.
Qed.

Lemma run_copy_cases (fuel : nat) (w : world) (src dest : fs.Path) :
  let stats := [Ev (os_Stat src); Ev (os_Stat src); Ev (os_Stat dest)] in
  let after (o : outcome world (option error)) :=
    {| value := value o; final := final o; calls := (stats ++ calls o)%list |} in
  (is_file w src = true -> is_dir w dest = true ->
   run model_os (fs.CopyTo fuel src dest) w =
   after (run model_os (fs.copyFiles src (fs.Join dest (fs.Basename src))) w))
  /\ (is_file w src = true -> is_dir w dest = false ->
      run model_os (fs.CopyTo fuel src dest) w =
      after (run model_os (fs.copyFiles src dest) w))
  /\ (is_dir w src = true -> is_file w dest = true ->
      run model_os (fs.CopyTo fuel src dest) w =
      {| value := inl (Some ErrPathIsDirectoryDestFile); final := w;
         calls := stats |})
  /\ (is_dir w src = true -> is_file w dest = false ->
      run model_os (fs.CopyTo fuel src dest) w =
      after (run model_os (fs.copyDirs fuel src dest) w)).
Proof.
  intros stats after. unfold fs.CopyTo, fs.copy.
  rewrite run_bind, run_Exists. cbn [value final calls]. cbv zeta.
  repeat split; intros Hs Hd.
  - destruct (is_file_not_dir w src Hs) as [_ ->]. cbn [negb].
    rewrite run_bind, run_FileExists. cbn [value final calls]. cbv zeta.
    rewrite Hs. rewrite run_bind, run_DirExists. cbn [value final calls].
    cbv zeta. rewrite Hd.
    reflexivity.
  - destruct (is_file_not_dir w src Hs) as [_ ->]. cbn [negb].
    rewrite run_bind, run_FileExists. cbn [value final calls]. cbv zeta.
    rewrite Hs. rewrite run_bind, run_DirExists. cbn [value final calls].
    cbv zeta. rewrite Hd.
    reflexivity.
  - destruct (is_dir_not_file w src Hs) as [Hf ->]. cbn [negb].
    rewrite run_bind, run_FileExists. cbn [value final calls]. cbv zeta.
    rewrite Hf. rewrite run_bind, run_FileExists. cbn [value final calls].
    cbv zeta. now rewrite Hd.
  - destruct (is_dir_not_file w src Hs) as [Hf ->]. cbn [negb].
    rewrite run_bind, run_FileExists. cbn [value final calls]. cbv zeta.
    rewrite Hf. rewrite run_bind, run_FileExists. cbn [value final calls].
    cbv zeta. rewrite Hd.
    reflexivity.
Qed.


(** ** [open] under any behaviour of the operating system *)

Lemma run_open_for {St : Type} (h : handler St) (wm : write_mode) (p : fs.Path) (s : St) :
  run h (open_for wm p) s =
  run h (fs.open p (write_flag wm) fs.defaultFileMode) s.
Proof.
  destruct wm; cbn [open_for write_flag]; [reflexivity |].
  unfold fs.Append. rewrite run_bind.
  destruct (run h (fs.open p fs.appendFileFlag fs.defaultFileMode) s)
    as [[[f | e] | fl] sf cs]; cbn [value final calls run];
    now rewrite ?app_nil_r.
Qed.

(** C7.  [Create] and [Append] on a path that is not blank and not a
    directory, when the first [os.OpenFile] fails with [e]: if [e] is not a
    not-exist error it is returned at once; otherwise [os.MkdirAll] is
    called on the parent of the cleaned path with mode 0755, its failure is
    returned at once, and on its success [os.OpenFile] is called once more
    and its answer, whatever it is, is the result. *)
Theorem open_for_write_retry {St : Type} (h : handler St)
  (wm : write_mode) (p : fs.Path) (s s0 s1 : St) (st : result FileInfo) (e : error) :
  fs.Empty p = false ->
  h _ (os_Stat p) s = (st, s0) ->
  not_a_directory st = true ->
  h _ (os_OpenFile p (write_flag wm) 420%Z) s0 = (Err e, s1) ->
  let first := [Ev (os_Stat p); Ev (os_OpenFile p (write_flag wm) 420%Z)] in
  let mkdir := Ev (os_MkdirAll (fs.Parent (fs.Clean p)) 493%Z) in
  (os_IsNotExist e = false ->
   run h (open_for wm p) s =
   {| value := inl (Err e); final := s1; calls := first |})
  /\ (os_IsNotExist e = true ->
      forall (s2 : St) (e' : error),
        h _ (os_MkdirAll (fs.Parent (fs.Clean p)) 493%Z) s1 = (Some e', s2) ->
        run h (open_for wm p) s =
        {| value := inl (Err e'); final := s2;
           calls := (first ++ [mkdir])%list |})
  /\ (os_IsNotExist e = true ->
      forall (s2 s3 : St) (r : result File),
        h _ (os_MkdirAll (fs.Parent (fs.Clean p)) 493%Z) s1 = (None, s2) ->
        h _ (os_OpenFile p (write_flag wm) 420%Z) s2 = (r, s3) ->
        run h (open_for wm p) s =
        {| value := inl r; final := s3;
           calls := (first ++ [mkdir; Ev (os_OpenFile p (write_flag wm) 420%Z)])%list |}).
Proof.
  intros He Hst Hnd Hopen first mkdir.
  assert (Hd : run h (fs.DirExists p) s =
               {| value := inl false; final := s0; calls := [Ev (os_Stat p)] |}).
  { unfold fs.DirExists, fs.Info. rewrite run_bind, run_call_bind, Hst.
    destruct st as [info | e0]; cbn [run value final calls app];
      [| reflexivity].
    cbn [not_a_directory] in Hnd. now destruct (IsDir info). }
  rewrite run_open_for. unfold fs.open. rewrite He.
  rewrite run_bind, Hd. cbn [value final calls]. cbv zeta.
  change fs.defaultFileMode with 420%Z.
  rewrite run_call_bind, Hopen. cbv zeta.
  unfold fs.MkdirAll, fs.Parent, fs.Clean.
  change fs.defaultDirMode with 493%Z.
  repeat split.
  - intros Hne. rewrite Hne. reflexivity.
  - intros Hne s2 e' Hmk. rewrite Hne. cbn [negb].
    rewrite run_bind, run_bind, run_call, Hmk. reflexivity.
  - intros Hne s2 s3 r Hmk Hre. rewrite Hne. cbn [negb].
    rewrite run_bind, run_bind, run_call, Hmk.
    cbn [value final calls run]. cbv zeta.
    rewrite run_call, Hre. reflexivity.
Qed.

(** C9.  An input on which opening for writing is not atomic: in the empty
    world, [Create] and [Append] of [a/b/../c] fail, both native opens with
    a not-exist error, and the directory [a], the parent of the cleaned
    path, has been made and stays. *)
Theorem open_for_write_not_atomic :
  exists (w : world) (p : fs.Path), forall wm : write_mode,
    let o := run model_os (open_for wm p) w in
    value o = inl (Err (PathError "open" p ENOENT))
    /\ calls o = [Ev (os_Stat p);
                  Ev (os_OpenFile p (write_flag wm) 420%Z);
                  Ev (os_MkdirAll (fs.Parent (fs.Clean p)) 493%Z);
                  Ev (os_OpenFile p (write_flag wm) 420%Z)]
    /\ is_dir w (fs.Parent (fs.Clean p)) = false
    /\ is_dir (final o) (fs.Parent (fs.Clean p)) = true
    /\ final o <> w.
Proof.
  exists empty_world, "a/b/../c". intros [|]; vm_compute;
    repeat split; discriminate.
Qed.

(** ** Two visitors on the same walk *)

Section WalkSim.
Context {St : Type} (h : handler St).
Context {A1 A2 : Type} (R : A1 -> A2 -> Prop).

(** Same calls, same final state, same error, related visitor states. *)
Definition sim (o1 : outcome St (option error * A1))
  (o2 : outcome St (option error * A2)) : Prop :=
  final o1 = final o2 /\ calls o1 = calls o2 /\
  match value o1, value o2 with
  | inl (e1, a1), inl (e2, a2) => e1 = e2 /\ R a1 a2
  | inr f1, inr f2 => f1 = f2
  | _, _ => False
  end.

Definition sim_prog (m1 : prog (option error * A1))
  (m2 : prog (option error * A2)) : Prop :=
  forall s : St, sim (run h m1 s) (run h m2 s).

Lemma sim_Ret (e : option error) (a1 : A1) (a2 : A2) :
  R a1 a2 -> sim_prog (Ret (e, a1)) (Ret (e, a2)).
Proof. intros HR s. repeat split; trivial. Qed.

Lemma sim_Fail (f : failure) : sim_prog (Fail f) (Fail f).
Proof. intros s. repeat split. Qed.

Lemma sim_bind (m1 : prog (option error * A1)) (m2 : prog (option error * A2))
  (f1 : option error * A1 -> prog (option error * A1))
  (f2 : option error * A2 -> prog (option error * A2)) :
  sim_prog m1 m2 ->
  (forall e a1 a2, R a1 a2 -> sim_prog (f1 (e, a1)) (f2 (e, a2))) ->
  sim_prog (bind m1 f1) (bind m2 f2).
Proof.
  intros H1 H2 s. rewrite !run_bind.
  destruct (H1 s) as (Hf & Hc & Hv).
  destruct (value (run h m1 s)) as [[e1 a1] | f1'],
           (value (run h m2 s)) as [[e2 a2] | f2']; try contradiction.
  - destruct Hv as [-> HR]. rewrite Hf, Hc.
    destruct (H2 e2 a1 a2 HR (final (run h m2 s))) as (Hf' & Hc' & Hv').
    unfold sim; cbn [value final calls]. now rewrite Hf', Hc'.
  - subst. unfold sim; cbn [value final calls]. auto.
Qed.

Lemma sim_call {T : Type} (c : syscall T)
  (k1 : T -> prog (option error * A1)) (k2 : T -> prog (option error * A2)) :
  (forall r, sim_prog (k1 r) (k2 r)) ->
  sim_prog (bind (call c) k1) (bind (call c) k2).
Proof.
  intros H s. simpl. destruct (h c s) as [r s'].
  destruct (H r s') as (Hf & Hc & Hv).
  unfold sim; cbn [value final calls]. now rewrite Hf, Hc.
Qed.

Variable walker1 : fs.Path -> bool -> A1 -> prog (option error * A1).
Variable walker2 : fs.Path -> bool -> A2 -> prog (option error * A2).
Hypothesis walkers :
  forall path d a1 a2, R a1 a2 -> sim_prog (walker1 path d a1) (walker2 path d a2).

Variable p : fs.Path.
Variable walkType : fs.WalkType.

Lemma sim_Walk_func path info err a1 a2 :
  R a1 a2 ->
  sim_prog (fs.Walk_func p walkType walker1 path info err a1)
           (fs.Walk_func p walkType walker2 path info err a2).
Proof.
  intros HR. unfold fs.Walk_func.
  destruct err; [now apply sim_Ret |].
  destruct (path =? p); [now apply sim_Ret |].
  destruct info as [info |]; [| apply sim_Fail].
  destruct (IsDir info && fs.WalkType_eqb walkType fs.WalkFiles);
    [now apply sim_Ret |].
  destruct (negb (IsDir info) && fs.WalkType_eqb walkType fs.WalkDirs);
    [now apply sim_Ret |].
  now apply walkers.
Qed.

Lemma sim_walk_names rec1 rec2 path names :
  (forall f i a1 a2, R a1 a2 -> sim_prog (rec1 f i a1) (rec2 f i a2)) ->
  forall a1 a2, R a1 a2 ->
  sim_prog (walk_names (fs.Walk_func p walkType walker1) rec1 path names a1)
           (walk_names (fs.Walk_func p walkType walker2) rec2 path names a2).
Proof.
  intros Hrec. induction names as [| name rest IH]; intros a1 a2 HR.
  - now apply sim_Ret.
  - cbn [walk_names]. apply sim_call. intros [fileInfo | err].
    + apply sim_bind; [now apply Hrec |].
      intros [e' |] b1 b2 HR'; [| now apply IH].
      destruct (negb (IsDir fileInfo) || negb (is_SkipDir e'));
        [now apply sim_Ret | now apply IH].
    + apply sim_bind; [now apply sim_Walk_func |].
      intros [e' |] b1 b2 HR'; [| now apply IH].
      destruct (negb (is_SkipDir e')); [now apply sim_Ret | now apply IH].
Qed.

Lemma sim_walk fuel :
  forall path info a1 a2, R a1 a2 ->
  sim_prog (walk (fs.Walk_func p walkType walker1) fuel path info a1)
           (walk (fs.Walk_func p walkType walker2) fuel path info a2).
Proof.
  induction fuel as [| fuel IH]; intros path info a1 a2 HR.
  - apply sim_Fail.
  - cbn [walk]. destruct (negb (IsDir info)); [now apply sim_Walk_func |].
    apply sim_call. intros r.
    apply sim_bind; [now apply sim_Walk_func |].
    intros err1 b1 b2 HR'.
    destruct r as [names | e]; [| now apply sim_Ret].
    destruct err1; [now apply sim_Ret |].
    now apply sim_walk_names.
Qed.

Lemma sim_Walk fuel a1 a2 :
  R a1 a2 ->
  sim_prog (fs.Walk fuel p walkType walker1 a1)
           (fs.Walk fuel p walkType walker2 a2).
Proof.
  intros HR s. unfold fs.Walk. rewrite !run_bind.
  destruct (value (run h (fs.DirExists p) s)) as [d | f];
    [| repeat split].
  destruct (negb d); cbv zeta; [repeat split; trivial |].
  set (s' := final (run h (fs.DirExists p) s)).
  assert (H : sim (run h (filepath_Walk (fs.Walk_func p walkType walker1) fuel p a1) s')
                  (run h (filepath_Walk (fs.Walk_func p walkType walker2) fuel p a2) s')).
  { unfold filepath_Walk. apply sim_call. intros r.
    apply sim_bind.
    - destruct r; [now apply sim_walk | now apply sim_Walk_func].
    - intros [[] |] b1 b2 HR'; now apply sim_Ret. }
  destruct H as (Hf & Hc & Hv).
  unfold sim; cbn [value final calls]. now rewrite Hf, Hc.
Qed.

End WalkSim.

(** ** [Count] *)

Definition counts (n : Z) (seen : list (fs.Path * bool)) : Prop :=
  n = (Z.of_nat (List.length seen) mod 2 ^ 64)%Z.

Lemma Count_walker_recorder {St : Type} (h : handler St) path d n seen :
  counts n seen ->
  sim_prog h counts (fs.Count_walker path d n) (recorder path d seen).
Proof.
  intros Hn. apply sim_Ret. unfold counts in *. subst n.
  rewrite length_app; simpl.
  rewrite Nat2Z.inj_add; simpl.
  now rewrite Z.add_mod_idemp_l by lia.
Qed.

(** C3 as amended.  [Count] has no error result.  When [os.Stat] says the
    root is no directory the count is zero; otherwise the count is the number
    of entries the walk hands to a visitor (modulo 2^64), whether the walk
    ends well or fails on the way. *)
Theorem Count_is_number_delivered {St : Type} (h : handler St) (fuel : nat)
  (p : fs.Path) (walkType : fs.WalkType) (s s0 : St) (st : result FileInfo) :
  h _ (os_Stat p) s = (st, s0) ->
  (not_a_directory st = true ->
   run h (fs.Count fuel p walkType) s =
   {| value := inl 0%Z; final := s0; calls := [Ev (os_Stat p)] |})
  /\ (not_a_directory st = false ->
      value (run h (fs.Count fuel p walkType) s) =
      match value (run h (fs.Walk fuel p walkType recorder []) s0) with
      | inl (_, seen) => inl (Z.of_nat (List.length seen) mod 2 ^ 64)%Z
      | inr f => inr f
      end).
Proof.
  intros Hst.
  assert (Hd : run h (fs.DirExists p) s =
               {| value := inl (negb (not_a_directory st)); final := s0;
                  calls := [Ev (os_Stat p)] |}).
  { unfold fs.DirExists, fs.Info; simpl. rewrite Hst.
    destruct st as [info | e0]; simpl; [| reflexivity].
    now rewrite negb_involutive. }
  unfold fs.Count. rewrite run_bind, Hd. cbn [value final calls]. cbv zeta.
  split; intros Hnd; rewrite Hnd; cbn [negb].
  - reflexivity.
  - rewrite run_bind. cbn [value].
    assert (H0 : counts 0%Z []) by reflexivity.
    destruct (@sim_Walk St h Z (list (fs.Path * bool)) counts
                fs.Count_walker recorder
                (fun path d n seen => @Count_walker_recorder St h path d n seen)
                p walkType fuel 0%Z [] H0 s0)
      as (_ & _ & Hv).
    destruct (value (run h (fs.Walk fuel p walkType fs.Count_walker 0%Z) s0))
      as [[e1 n] | f1],
      (value (run h (fs.Walk fuel p walkType recorder []) s0))
      as [[e2 seen] | f2]; try contradiction.
    + destruct Hv as [_ Hn]. cbn. now rewrite Hn.
    + now subst.
Qed.

(** C3, counterexample.  The directory [r/b] cannot be listed: the walk of
    [r] fails with that error after the visitor has been handed [r/a], and
    [Count] answers 1, not 0. *)
Lemma Count_nonzero_on_failed_walk :
  value (run (deny_readdir "r/b")
             (fs.Walk 5 "r" fs.WalkBoth fs.Count_walker 0%Z) small_world)
  = inl (Some (PathError "open" "r/b" EACCES), 1%Z)
  /\ value (run (deny_readdir "r/b") (fs.Count 5 "r" fs.WalkBoth) small_world)
     = inl 1%Z
  /\ value (run (deny_readdir "r/b") (fs.Count 5 "r" fs.WalkBoth) small_world)
     <> inl 0%Z.
Proof. vm_compute. repeat split. discriminate. Qed.

(** ** The statements at concrete inputs *)

Lemma Open_not_regular_file_witness :
  is_file small_world "r/b" = false
  /\ run model_os (fs.Open "r/b") small_world =
     {| value := inl (Err ErrFileDoesNotExist); final := small_world;
        calls := [Ev (os_Stat "r/b")] |}.
Proof.
  split; [reflexivity |].
  apply (proj1 (Open_not_regular_file small_world "r/b")). reflexivity.
Defined.

Lemma CopyTo_missing_source_witness :
  exists_ small_world "r/none" = false
  /\ run model_os (fs.CopyTo 5 "r/none" "r/b") small_world =
     {| value := inl (Some ErrNotFound); final := small_world;
        calls := [Ev (os_Stat "r/none")] |}.
Proof.
  split; [reflexivity |].
  apply (CopyTo_missing_source 5 small_world "r/none" "r/b"). reflexivity.
Defined.



(** C10, counterexample.  The source is a regular file named with one
    blank, the destination a directory holding a directory of that name:
    the error is [ErrPathIsEmpty], from the check [open] makes first. *)
Lemma CopyTo_blank_source_is_PathIsEmpty :
  is_file blank_world " " = true
  /\ is_dir blank_world "d" = true
  /\ is_dir blank_world (fs.Join "d" (fs.Basename " ")) = true
  /\ value (run model_os (fs.CopyTo 5 " " "d") blank_world)
     = inl (Some ErrPathIsEmpty)
  /\ value (run model_os (fs.CopyTo 5 " " "d") blank_world)
     <> inl (Some ErrPathIsDirectory).
Proof.
  vm_compute. split; [reflexivity |]. split; [reflexivity |].
  split; [reflexivity |]. split; [reflexivity | discriminate].
Qed.

Lemma open_for_write_retry_witness :
  run model_os (open_for ForCreate "a/c") empty_world =
  {| value := inl (Ok {| f_name := "a/c"; f_node := ["a"; "c"];
                         f_flag := fs.createFileFlag |});
     final := {| tree := Dir 493%Z [("a", Dir 493%Z [("c", Reg 420%Z "")])];
                 cwd := [] |};
     calls := [Ev (os_Stat "a/c");
               Ev (os_OpenFile "a/c" fs.createFileFlag 420%Z);
               Ev (os_MkdirAll "a" 493%Z);
               Ev (os_OpenFile "a/c" fs.createFileFlag 420%Z)] |}.
Proof.
  refine (proj2 (proj2 (@open_for_write_retry world model_os ForCreate "a/c"
            empty_world empty_world empty_world
            (Err (PathError "stat" "a/c" ENOENT))
            (PathError "open" "a/c" ENOENT) _ _ _ _)) _
            {| tree := Dir 493%Z [("a", Dir 493%Z [])]; cwd := [] |} _ _ _ _);
    reflexivity.
Defined.

Lemma Count_is_number_delivered_witness :
  run model_os (fs.Count 5 "r/a" fs.WalkBoth) small_world =
  {| value := inl 0%Z; final := small_world; calls := [Ev (os_Stat "r/a")] |}
  /\ value (run model_os (fs.Count 5 "r" fs.WalkBoth) small_world) = inl 2%Z.
Proof.
  split.
  - refine (proj1 (@Count_is_number_delivered world model_os 5 "r/a"
              fs.WalkBoth small_world small_world _ _) _); reflexivity.
  - rewrite (proj2 (@Count_is_number_delivered world model_os 5 "r"
              fs.WalkBoth small_world small_world _ eq_refl) eq_refl).
    reflexivity.
Defined.

(** ** What holds of the result of a program *)

Section Holds.
Context {St : Type} (h : handler St).

Definition holds {B : Type} (P : B -> Prop) (m : prog B) : Prop :=
  forall s : St,
    match value (run h m s) with
    | inl b => P b
    | inr _ => True
    end.

Lemma holds_Ret {B : Type} (P : B -> Prop) (b : B) : P b -> holds P (Ret b).
Proof. intros H s. exact H. Qed.

Lemma holds_Fail {B : Type} (P : B -> Prop) (f : failure) : holds P (Fail f).
Proof. intros s. exact I. Qed.

Lemma holds_bind {B B' : Type} (P : B -> Prop) (P' : B' -> Prop)
  (m : prog B) (f : B -> prog B') :
  holds P m -> (forall b, P b -> holds P' (f b)) -> holds P' (bind m f).
Proof.
  intros Hm Hf s. rewrite run_bind. specialize (Hm s).
  destruct (value (run h m s)) as [b | e]; [| exact I].
  cbv zeta. cbn [value]. exact (Hf b Hm _).
Qed.

Lemma holds_call {T B : Type} (P : B -> Prop) (c : syscall T)
  (k : T -> prog B) :
  (forall r, holds P (k r)) -> holds P (bind (call c) k).
Proof.
  intros H s. rewrite run_call_bind. destruct (h c s) as [r s'].
  cbv zeta. cbn [value]. exact (H r s').
Qed.

End Holds.

(** ** An invariant of the visitor's state along a walk *)

Section WalkInv.
Context {St : Type} (h : handler St) {A : Type}.
Variable p : fs.Path.
Variable walkType : fs.WalkType.
Variable walker : fs.Path -> bool -> A -> prog (option error * A).

(** [C] holds of the state whenever the walk goes on, [Q] of the error and
    state the walk ends with. *)
Variable C : A -> Prop.
Variable Q : option error -> A -> Prop.
Hypothesis C_Q : forall e a, C a -> Q e a.
Hypothesis walker_ok :
  forall path d a, C a -> delivers walkType d = true -> (path =? p) = false ->
    holds h (fun r => Q (fst r) (snd r)
                      /\ (fst r = None \/ fst r = Some SkipDir -> C (snd r)))
          (walker path d a).

Definition walk_post (r : option error * A) : Prop :=
  Q (fst r) (snd r) /\ (fst r = None \/ fst r = Some SkipDir -> C (snd r)).

Lemma post_of_C (e : option error) (a : A) : C a -> walk_post (e, a).
Proof. intros H. split; [now apply C_Q | trivial]. Qed.

Lemma inv_Walk_func path info err a :
  C a -> holds h walk_post (fs.Walk_func p walkType walker path info err a).
Proof.
  intros Ha. unfold fs.Walk_func.
  destruct err; [now apply holds_Ret, post_of_C |].
  destruct (path =? p) eqn:Hp; [now apply holds_Ret, post_of_C |].
  destruct info as [info |]; [| apply holds_Fail].
  destruct (IsDir info) eqn:Hd, walkType; cbn [andb negb fs.WalkType_eqb];
    try (now apply holds_Ret, post_of_C);
    apply walker_ok; trivial.
Qed.

Lemma inv_walk_names rec path names :
  (forall f i a, C a -> holds h walk_post (rec f i a)) ->
  forall a, C a ->
  holds h walk_post
        (walk_names (fs.Walk_func p walkType walker) rec path names a).
Proof.
  intros Hrec. induction names as [| name rest IH]; intros a Ha.
  - now apply holds_Ret, post_of_C.
  - cbn [walk_names]. apply holds_call. intros [fileInfo | err].
    + eapply holds_bind; [now apply Hrec |].
      intros [[e' |] b] [HQ HC]; cbn [fst snd] in *.
      * destruct (negb (IsDir fileInfo) || negb (is_SkipDir e')) eqn:Hs.
        -- apply holds_Ret. now split.
        -- apply IH. apply HC. right.
           apply orb_false_iff in Hs. destruct Hs as [_ Hs].
           now destruct e'.
      * apply IH. apply HC. now left.
    + eapply holds_bind; [now apply inv_Walk_func |].
      intros [[e' |] b] [HQ HC]; cbn [fst snd] in *.
      * destruct (negb (is_SkipDir e')) eqn:Hs.
        -- apply holds_Ret. now split.
        -- apply IH. apply HC. right. now destruct e'.
      * apply IH. apply HC. now left.
Qed.

Lemma inv_walk fuel :
  forall path info a, C a ->
  holds h walk_post (walk (fs.Walk_func p walkType walker) fuel path info a).
Proof.
  induction fuel as [| fuel IH]; intros path info a Ha.
  - apply holds_Fail.
  - cbn [walk]. destruct (negb (IsDir info)); [now apply inv_Walk_func |].
    apply holds_call. intros r.
    eapply holds_bind; [now apply inv_Walk_func |].
    intros [err1 b] [HQ HC]; cbn [fst snd] in *.
    destruct r as [names | e]; [| apply holds_Ret; now split].
    destruct err1; [apply holds_Ret; now split |].
    apply inv_walk_names; [exact IH | apply HC; now left].
Qed.

Lemma inv_Walk fuel a :
  C a ->
  holds h (fun r => Q (fst r) (snd r)) (fs.Walk fuel p walkType walker a).
Proof.
  intros Ha. unfold fs.Walk.
  eapply holds_bind with (P := fun _ => True); [intros s; now destruct (value _) |].
  intros d _. destruct (negb d); [apply holds_Ret; now apply C_Q |].
  unfold filepath_Walk. apply holds_call. intros r.
  eapply holds_bind with (P := walk_post).
  - destruct r; [now apply inv_walk | now apply inv_Walk_func].
  - intros [[e |] b] [HQ HC]; cbn [fst snd] in *.
    + destruct e; apply holds_Ret; cbn [fst snd]; trivial.
      apply C_Q, HC. now right.
    + now apply holds_Ret.
Qed.

End WalkInv.

(** ** Guards and filters, under any behaviour of the operating system *)

Lemma run_DirExists_any {St : Type} (h : handler St) (p : fs.Path)
  (s s0 : St) (st : result FileInfo) :
  h _ (os_Stat p) s = (st, s0) ->
  run h (fs.DirExists p) s =
  {| value := inl (negb (not_a_directory st)); final := s0;
     calls := [Ev (os_Stat p)] |}.
Proof.
  intros Hst. unfold fs.DirExists, fs.Info.
  rewrite run_bind, run_call_bind, Hst.
  destruct st as [info | e0]; cbn [run value final calls app not_a_directory];
    [| reflexivity].
  now rewrite negb_involutive.
Qed.

(** X1.  The two guards of [open], for [Create] and [Append]: a blank path
    is refused with [ErrPathIsEmpty] before any system call; a path that
    [os.Stat] reports as a directory is refused with [ErrPathIsDirectory]
    after that one call, with no [os.OpenFile]. *)
Theorem open_for_write_guards {St : Type} (h : handler St) (wm : write_mode)
  (p : fs.Path) (s s0 : St) (st : result FileInfo) :
  (fs.Empty p = true ->
   run h (open_for wm p) s =
   {| value := inl (Err ErrPathIsEmpty); final := s; calls := [] |})
  /\ (fs.Empty p = false ->
      h _ (os_Stat p) s = (st, s0) ->
      not_a_directory st = false ->
      run h (open_for wm p) s =
      {| value := inl (Err ErrPathIsDirectory); final := s0;
         calls := [Ev (os_Stat p)] |}).
Proof.
  rewrite run_open_for. unfold fs.open. split.
  - intros ->. reflexivity.
  - intros -> Hst Hd.
    rewrite run_bind, (run_DirExists_any h p s Hst), Hd. reflexivity.
Qed.

Lemma open_for_write_guards_witness :
  run model_os (open_for ForAppend "  ") small_world =
  {| value := inl (Err ErrPathIsEmpty); final := small_world; calls := [] |}
  /\ run model_os (open_for ForCreate "r/b") small_world =
     {| value := inl (Err ErrPathIsDirectory); final := small_world;
        calls := [Ev (os_Stat "r/b")] |}.
Proof.
  split.
  - apply (proj1 (@open_for_write_guards world model_os ForAppend "  "
                    small_world small_world (Err ErrNotFound))).
    reflexivity.
  - refine (proj2 (@open_for_write_guards world model_os ForCreate "r/b"
                     small_world small_world _) _ _ _); reflexivity.
Defined.

(** X2.  [Walk] on a root that [os.Stat] does not report as a directory:
    [ErrDirDoesNotExist] after that one call; the visitor is not called
    (its state is returned as it was given). *)
Theorem Walk_root_not_directory {St A : Type} (h : handler St) (fuel : nat)
  (p : fs.Path) (walkType : fs.WalkType)
  (walker : fs.Path -> bool -> A -> prog (option error * A)) (acc : A)
  (s s0 : St) (st : result FileInfo) :
  h _ (os_Stat p) s = (st, s0) ->
  not_a_directory st = true ->
  run h (fs.Walk fuel p walkType walker acc) s =
  {| value := inl (Some ErrDirDoesNotExist, acc); final := s0;
     calls := [Ev (os_Stat p)] |}.
Proof.
  intros Hst Hd. unfold fs.Walk.
  rewrite run_bind, (run_DirExists_any h p s Hst), Hd. reflexivity.
Qed.

Lemma Walk_root_not_directory_witness :
  run model_os (fs.Walk 5 "r/a" fs.WalkBoth recorder []) small_world =
  {| value := inl (Some ErrDirDoesNotExist, []); final := small_world;
     calls := [Ev (os_Stat "r/a")] |}.
Proof.
  refine (@Walk_root_not_directory world _ model_os 5 "r/a" fs.WalkBoth
            recorder [] small_world small_world _ _ _); reflexivity.
Defined.

Lemma delivers_Files (d : bool) : delivers fs.WalkFiles d = true -> d = false.
Proof. now destruct d. Qed.

(** X3.  Whatever the operating system answers, the visitor is never handed
    the root itself, never a directory under [WalkFiles], never a
    non-directory under [WalkDirs]. *)
Theorem Walk_respects_filter {St : Type} (h : handler St) (fuel : nat)
  (p : fs.Path) (walkType : fs.WalkType) (s : St) :
  match value (run h (fs.Walk fuel p walkType recorder []) s) with
  | inl (_, seen) =>
      Forall (fun x : fs.Path * bool =>
                fst x <> p
                /\ (walkType = fs.WalkFiles -> snd x = false)
                /\ (walkType = fs.WalkDirs -> snd x = true)) seen
  | inr _ => True
  end.
Proof.
  pose (ok := fun x : fs.Path * bool =>
                fst x <> p
                /\ (walkType = fs.WalkFiles -> snd x = false)
                /\ (walkType = fs.WalkDirs -> snd x = true)).
  assert (H : holds h (fun r : option error * list (fs.Path * bool) =>
                         Forall ok (snd r))
                    (fs.Walk fuel p walkType recorder [])).
  { apply inv_Walk with (C := Forall ok) (Q := fun _ seen => Forall ok seen).
    - trivial.
    - intros path d seen Hseen Hd Hp. apply holds_Ret. cbn [fst snd].
      assert (Forall ok (seen ++ [(path, d)])).
      { apply Forall_app. split; [assumption |].
        constructor; [| constructor]. unfold ok; cbn [fst snd].
        apply String.eqb_neq in Hp.
        repeat split; trivial; intros ->; cbn in Hd;
          [now apply negb_true_iff in Hd | assumption]. }
      now split.
    - constructor. }
  specialize (H s). destruct (value _) as [[e seen] |]; trivial.
Qed.

(** X4.  A visitor that fails, with an error other than [SkipDir], is called
    at most once, and when it was called its error is what [Walk] returns:
    the traversal stops at the first failure of the visitor. *)
Theorem Walk_stops_at_visitor_error {St : Type} (h : handler St) (fuel : nat)
  (p : fs.Path) (walkType : fs.WalkType) (e : error) (s : St) :
  is_SkipDir e = false ->
  match value (run h (fs.Walk fuel p walkType (failing_recorder e) []) s) with
  | inl (err, seen) => seen = [] \/ (exists x, seen = [x] /\ err = Some e)
  | inr _ => True
  end.
Proof.
  intros He.
  assert (H : holds h (fun r : option error * list (fs.Path * bool) =>
                         snd r = [] \/ (exists x, snd r = [x] /\ fst r = Some e))
                    (fs.Walk fuel p walkType (failing_recorder e) [])).
  { apply inv_Walk with (C := fun seen => seen = [])
      (Q := fun err seen => seen = [] \/ (exists x, seen = [x] /\ err = Some e)).
    - intros; now left.
    - intros path d seen -> _ _. apply holds_Ret. cbn [fst snd app]. split.
      + right. now exists (path, d).
      + intros [H | H]; [discriminate |].
        injection H as ->. discriminate.
    - reflexivity. }
  specialize (H s). destruct (value _) as [[err seen] |]; trivial.
Qed.

Lemma Walk_stops_at_visitor_error_witness :
  is_SkipDir ErrNotFound = false
  /\ match value (run model_os (fs.Walk 5 "r" fs.WalkBoth
                                (failing_recorder ErrNotFound) []) small_world) with
     | inl (err, seen) =>
         seen = [] \/ (exists x, seen = [x] /\ err = Some ErrNotFound)
     | inr _ => True
     end.
Proof.
  split; [reflexivity |].
  apply (@Walk_stops_at_visitor_error world model_os 5 "r" fs.WalkBoth
           ErrNotFound small_world).
  reflexivity.
Defined.

(** ** What [SkipDir] cuts off *)

(** X5.  Under [WalkDirs], a regular file that is not a direct child of the
    root ends the walk of its directory: the names after it are not looked
    at, whatever they are, and nothing is delivered. *)
Theorem WalkDirs_nested_file_cuts_directory {St A : Type} (h : handler St)
  (fuel : nat) (p : fs.Path)
  (walker : fs.Path -> bool -> A -> prog (option error * A))
  (path name : string) (rest : list string) (acc : A) (s s' : St)
  (info : FileInfo) :
  h _ (os_Lstat (Join path name)) s = (Ok info, s') ->
  IsDir info = false ->
  (Join path name =? p) = false ->
  (fs.Dirname (Join path name) =? p) = false ->
  run h (walk_names (fs.Walk_func p fs.WalkDirs walker)
                    (walk (fs.Walk_func p fs.WalkDirs walker) (S fuel))
                    path (name :: rest) acc) s =
  {| value := inl (Some SkipDir, acc); final := s';
     calls := [Ev (os_Lstat (Join path name))] |}.
Proof.
  intros Hl Hd Hp Hdn. cbn [walk_names].
  rewrite run_call_bind, Hl. cbv zeta.
  cbn [walk]. rewrite Hd. cbn [negb].
  unfold fs.Walk_func. rewrite Hp, Hdn, Hd.
  reflexivity.
Qed.

(** X6.  Under [WalkFiles], a directory that is not a direct child of the
    root is not entered: once its names are read the walk leaves it with
    [SkipDir], nothing below it is looked at or delivered. *)
Theorem WalkFiles_nested_directory_not_entered {St A : Type} (h : handler St)
  (fuel : nat) (p : fs.Path)
  (walker : fs.Path -> bool -> A -> prog (option error * A))
  (path : string) (info : FileInfo) (names : list string) (acc : A)
  (s s' : St) :
  h _ (readDirNames path) s = (Ok names, s') ->
  IsDir info = true ->
  (path =? p) = false ->
  (fs.Dirname path =? p) = false ->
  run h (walk (fs.Walk_func p fs.WalkFiles walker) (S fuel) path info acc) s =
  {| value := inl (Some SkipDir, acc); final := s';
     calls := [Ev (readDirNames path)] |}.
Proof.
  intros Hr Hd Hp Hdn. cbn [walk]. rewrite Hd. cbn [negb].
  rewrite run_call_bind, Hr. cbv zeta.
  unfold fs.Walk_func. rewrite Hp, Hdn, Hd.
  reflexivity.
Qed.
Lemma WalkDirs_nested_file_cuts_directory_witness :
  run model_os
      (walk_names (fs.Walk_func "r" fs.WalkDirs recorder)
                  (walk (fs.Walk_func "r" fs.WalkDirs recorder) 5)
                  "r/a" ["f"; "z"] []) deep_world =
  {| value := inl (Some SkipDir, []); final := deep_world;
     calls := [Ev (os_Lstat "r/a/f")] |}.
Proof.
  refine (@WalkDirs_nested_file_cuts_directory world _ model_os 4 "r" recorder
            "r/a" "f" ["z"] [] deep_world deep_world _ _ _ _ _);
    reflexivity.
Defined.

Lemma WalkFiles_nested_directory_not_entered_witness :
  run model_os
      (walk (fs.Walk_func "r" fs.WalkFiles recorder) 5 "r/a/z"
            (info_of (Dir 493%Z [("g", Reg 420%Z "y")])) []) deep_world =
  {| value := inl (Some SkipDir, []); final := deep_world;
     calls := [Ev (readDirNames "r/a/z")] |}.
Proof.
  refine (@WalkFiles_nested_directory_not_entered world _ model_os 4 "r"
            recorder "r/a/z" _ ["g"] [] deep_world deep_world _ _ _ _);
    reflexivity.
Defined.

(** ** Strings split at separators *)

Lemma append_nil_r (s : string) : s ++ "" = s.
Proof. induction s as [| c s IH]; cbn; [reflexivity | now rewrite IH]. Qed.

Lemma append_assoc (a b c : string) : (a ++ b) ++ c = a ++ (b ++ c).
Proof. induction a as [| x a IH]; cbn; [reflexivity | now rewrite IH]. Qed.

Lemma split_not_nil (s : string) : split s <> [].
Proof.
  induction s as [| c s IH]; cbn; [discriminate |].
  destruct (is_sep c); [discriminate |].
  destruct (split s); [contradiction | discriminate].
Qed.

Lemma split_app_sep (a b : string) :
  split (a ++ "/" ++ b) = (split a ++ split b)%list.
Proof.
  induction a as [| c a IH]; cbn.
  - reflexivity.
  - destruct (is_sep c); cbn; [now rewrite <- IH |].
    cbn in IH. rewrite IH.
    destruct (split a) as [| x r] eqn:E; [now apply split_not_nil in E |].
    reflexivity.
Qed.

Lemma plain_cons (c : ascii) (x : string) :
  plain (String c x) -> is_sep c = false /\ plain x.
Proof.
  unfold plain; cbn. destruct (is_sep c); [intros H; now inversion H |].
  destruct (split x) as [| y r] eqn:E.
  - now apply split_not_nil in E.
  - intros H. inversion H; subst. split; reflexivity.
Qed.

Lemma plain_nil : plain "".
Proof. reflexivity. Qed.

Lemma split_plain (s : string) : Forall plain (split s).
Proof.
  induction s as [| c s IH]; cbn.
  - constructor; [apply plain_nil | constructor].
  - destruct (is_sep c) eqn:Hc.
    + constructor; [apply plain_nil | assumption].
    + destruct (split s) as [| x r] eqn:E; [now apply split_not_nil in E |].
      inversion IH as [| ? ? Hx Hr]; subst.
      constructor; [| assumption].
      unfold plain in *; cbn. now rewrite Hc, Hx.
Qed.

Lemma split_single (x y : string) : split x = [y] -> y = x.
Proof.
  revert y. induction x as [| c x IH]; cbn; intros y E.
  - now inversion E.
  - destruct (is_sep c).
    + inversion E as [[Hy Hx]]. now apply split_not_nil in Hx.
    + destruct (split x) as [| u r] eqn:Ex; [now apply split_not_nil in Ex |].
      destruct r as [| v r]; [| discriminate].
      pose proof (IH u eq_refl) as Hu. inversion E. now subst.
Qed.

Lemma valid_name_plain (x : string) : valid_name x = true -> plain x.
Proof.
  unfold valid_name, plain. intros H.
  apply andb_true_iff in H. destruct H as [_ H].
  destruct (split x) as [| y [| z r]] eqn:E; try discriminate.
  now rewrite (split_single x E).
Qed.

Lemma concat_cons (h : string) (t : list string) :
  t <> [] -> String.concat "/" (h :: t) = h ++ "/" ++ String.concat "/" t.
Proof. destruct t; [contradiction | reflexivity]. Qed.

Lemma concat_snoc (l : list string) (n : string) :
  l <> [] -> String.concat "/" (l ++ [n]) = String.concat "/" l ++ "/" ++ n.
Proof.
  induction l as [| h t IH]; [contradiction |]. intros _.
  destruct t as [| h' t'].
  - reflexivity.
  - change ((h :: h' :: t') ++ [n])%list with (h :: ((h' :: t') ++ [n]))%list.
    rewrite concat_cons
      by (intros H; apply app_eq_nil in H; destruct H; discriminate).
    rewrite IH by (intros Hnil; discriminate Hnil).
    rewrite (@concat_cons h (h' :: t')) by (intros Hnil; discriminate Hnil).
    now rewrite !append_assoc.
Qed.

Lemma split_concat (l : list string) :
  l <> [] -> Forall plain l -> split (String.concat "/" l) = l.
Proof.
  induction l as [| h t IH]; [contradiction |]. intros _ Hl.
  inversion Hl as [| ? ? Hh Ht]; subst.
  destruct t as [| h' t'].
  - exact Hh.
  - rewrite concat_cons by (intros Hnil; discriminate Hnil).
    rewrite split_app_sep, IH by (trivial; intros Hnil; discriminate Hnil).
    now rewrite Hh.
Qed.

(** ** [filepath.Clean] *)

Lemma plain_cases (c : string) :
  plain c -> c = "" \/ c = "." \/ c = ".." \/ valid_name c = true.
Proof.
  intros Hc. unfold valid_name. rewrite Hc.
  destruct (c =? "") eqn:E1; [left; now apply String.eqb_eq |].
  destruct (c =? ".") eqn:E2; [right; left; now apply String.eqb_eq |].
  destruct (c =? "..") eqn:E3; [right; right; left; now apply String.eqb_eq |].
  right; right; right. reflexivity.
Qed.

Lemma valid_name_neq (x : string) :
  valid_name x = true ->
  (x =? "") = false /\ (x =? ".") = false /\ (x =? "..") = false.
Proof.
  unfold valid_name. intros H.
  repeat (apply andb_true_iff in H; destruct H as [H ?]).
  now rewrite !negb_true_iff in *.
Qed.

Lemma clean_step_name (rt : bool) (out : list string) (x : string) :
  valid_name x = true -> clean_step rt out x = x :: out.
Proof.
  intros H. destruct (valid_name_neq x H) as (E1 & E2 & E3).
  unfold clean_step. now rewrite E1, E2, E3.
Qed.

Lemma all_dotdot_norm (r : list string) :
  all_dotdot r = true -> norm_stack false r = true.
Proof.
  induction r as [| x r IH]; cbn; [reflexivity |].
  intros H. apply andb_true_iff in H. destruct H as [Hx Hr].
  now rewrite Hx, Hr.
Qed.

Lemma norm_stack_tail (rt : bool) (x : string) (r : list string) :
  norm_stack rt (x :: r) = true -> norm_stack rt r = true.
Proof.
  cbn. destruct (x =? "..").
  - intros H. apply andb_true_iff in H. destruct H as [Hrt Hr].
    apply negb_true_iff in Hrt. subst rt. now apply all_dotdot_norm.
  - intros H. apply andb_true_iff in H. now destruct H.
Qed.

Lemma clean_step_norm (rt : bool) (out : list string) (c : string) :
  plain c -> norm_stack rt out = true ->
  norm_stack rt (clean_step rt out c) = true.
Proof.
  intros Hc Hout.
  destruct (plain_cases Hc) as [-> | [-> | [-> | Hv]]]; try exact Hout.
  - unfold clean_step. cbn [String.eqb Ascii.eqb Bool.eqb orb].
    change (".." =? "") with false. change (".." =? ".") with false.
    change (".." =? "..") with true. cbn [orb].
    destruct out as [| top rest].
    + now destruct rt.
    + destruct (top =? "..") eqn:Et.
      * cbn in Hout |- *. rewrite Et in Hout.
        apply andb_true_iff in Hout. destruct Hout as [-> Hr]. cbn.
        now rewrite Et, Hr.
      * now apply norm_stack_tail in Hout.
  - rewrite clean_step_name by assumption. cbn.
    destruct (valid_name_neq c Hv) as (_ & _ & ->). now rewrite Hv.
Qed.

Lemma fold_clean_norm (rt : bool) (l out : list string) :
  Forall plain l -> norm_stack rt out = true ->
  norm_stack rt (fold_left (clean_step rt) l out) = true.
Proof.
  revert out. induction l as [| c l IH]; intros out Hl Hout; [exact Hout |].
  inversion Hl; subst. cbn. apply IH; [assumption |].
  now apply clean_step_norm.
Qed.

Lemma clean_elems_norm (s : string) :
  norm_stack (isRooted s) (List.rev (clean_elems s)) = true.
Proof.
  unfold clean_elems. rewrite rev_involutive.
  apply fold_clean_norm; [apply split_plain | reflexivity].
Qed.

(** Elements of a kept stack are put back as they come. *)
Lemma fold_clean_stack (rt : bool) (out : list string) :
  norm_stack rt out = true ->
  fold_left (clean_step rt) (List.rev out) [] = out.
Proof.
  induction out as [| x r IH]; intros H; [reflexivity |].
  cbn [List.rev]. rewrite fold_left_app. cbn [fold_left].
  rewrite IH by (now apply norm_stack_tail in H).
  cbn in H. destruct (x =? "..") eqn:Ex.
  - apply String.eqb_eq in Ex. subst x.
    apply andb_true_iff in H. destruct H as [Hrt Hr].
    apply negb_true_iff in Hrt. subst rt.
    unfold clean_step.
    change (".." =? "") with false. change (".." =? ".") with false.
    change (".." =? "..") with true. cbn [orb].
    destruct r as [| top rest]; [reflexivity |].
    cbn in Hr. apply andb_true_iff in Hr. destruct Hr as [-> _]. reflexivity.
  - apply andb_true_iff in H. destruct H as [Hv _].
    now apply clean_step_name.
Qed.

Lemma norm_stack_plain (rt : bool) (out : list string) :
  norm_stack rt out = true ->
  Forall (fun x => plain x /\ (x =? "") = false) out.
Proof.
  induction out as [| x r IH]; intros H; [constructor |].
  constructor; [| now apply IH, (norm_stack_tail _ _ _ H)].
  cbn in H. destruct (x =? "..") eqn:Ex.
  - apply String.eqb_eq in Ex. subst x. split; reflexivity.
  - apply andb_true_iff in H. destruct H as [Hv _].
    split; [now apply valid_name_plain | apply (valid_name_neq x Hv)].
Qed.

Lemma Forall_rev_iff {T : Type} (P : T -> Prop) (l : list T) :
  Forall P l -> Forall P (List.rev l).
Proof.
  intros H. apply Forall_forall. intros x Hx. apply in_rev in Hx.
  rewrite Forall_forall in H. now apply H.
Qed.

Lemma isRooted_plain (x : string) :
  plain x -> isRooted x = false.
Proof.
  destruct x as [| c x]; [reflexivity |]. intros H.
  now destruct (plain_cons H).
Qed.

Lemma isRooted_app (a b : string) :
  (a =? "") = false -> isRooted (a ++ b) = isRooted a.
Proof. destruct a; [discriminate | reflexivity]. Qed.

Lemma append_eqb_nil (a b : string) :
  (a =? "") = false -> (a ++ b =? "") = false.
Proof. destruct a; [discriminate | reflexivity]. Qed.

Lemma concat_head (h : string) (t : list string) :
  (h =? "") = false ->
  (String.concat "/" (h :: t) =? "") = false
  /\ isRooted (String.concat "/" (h :: t)) = isRooted h.
Proof.
  intros Hh. destruct t as [| h' t'].
  - now split.
  - rewrite concat_cons by (intros Hnil; discriminate Hnil).
    split; [now apply append_eqb_nil | now apply isRooted_app].
Qed.

(** What [render] writes is read back by [split]. *)
Lemma render_spec (rt : bool) (l : list string) :
  Forall (fun x => plain x /\ (x =? "") = false) l ->
  (render rt l =? "") = false
  /\ isRooted (render rt l) = rt
  /\ fold_left (clean_step rt) (split (render rt l)) [] =
     fold_left (clean_step rt) l [].
Proof.
  intros Hl. unfold render.
  assert (Hp : Forall plain l).
  { eapply Forall_impl; [| exact Hl]. now intros x [H _]. }
  destruct rt.
  - split; [reflexivity |]. split; [reflexivity |].
    change ("/" ++ String.concat "/" l) with ("" ++ "/" ++ String.concat "/" l).
    rewrite split_app_sep. cbn [split app fold_left].
    destruct l as [| h t]; [reflexivity |].
    rewrite split_concat by (trivial; intros Hnil; discriminate Hnil).
    reflexivity.
  - destruct l as [| h t]; [now repeat split |].
    inversion Hl as [| ? ? [Hh Hne] _]; subst.
    destruct (concat_head h t Hne) as [E1 E2]. rewrite E1.
    split; [assumption |].
    split; [rewrite E2; now apply isRooted_plain |].
    rewrite split_concat by (trivial; intros Hnil; discriminate Hnil).
    reflexivity.
Qed.

Lemma clean_elems_render (rt : bool) (out : list string) :
  norm_stack rt out = true ->
  (render rt (List.rev out) =? "") = false
  /\ isRooted (render rt (List.rev out)) = rt
  /\ clean_elems (render rt (List.rev out)) = List.rev out.
Proof.
  intros H.
  destruct (render_spec rt (l := List.rev out)) as (E1 & E2 & E3).
  { apply Forall_rev_iff. now apply norm_stack_plain with (rt := rt). }
  split; [assumption |]. split; [assumption |].
  unfold clean_elems. rewrite E2, E3.
  now rewrite fold_clean_stack.
Qed.

Lemma Clean_render (rt : bool) (out : list string) :
  norm_stack rt out = true ->
  Clean (render rt (List.rev out)) = render rt (List.rev out).
Proof.
  intros H. destruct (clean_elems_render rt out H) as (E1 & E2 & E3).
  unfold Clean. now rewrite E1, E2, E3.
Qed.

Lemma Clean_is_render (s : string) :
  (s =? "") = false ->
  Clean s = render (isRooted s) (List.rev (List.rev (clean_elems s))).
Proof. intros H. unfold Clean. now rewrite H, rev_involutive. Qed.

(** X7.  [Clean] is idempotent. *)
Theorem Clean_idempotent (p : fs.Path) : fs.Clean (fs.Clean p) = fs.Clean p.
Proof.
  unfold fs.Clean. destruct (p =? "") eqn:E.
  - apply String.eqb_eq in E. now subst.
  - rewrite (Clean_is_render p E).
    apply Clean_render, clean_elems_norm.
Qed.

(** ** [Join], [Parent], [Basename] *)

Lemma Clean_eq_render (s : string) :
  Clean s = render (isRooted s) (clean_elems s).
Proof.
  unfold Clean. destruct (s =? "") eqn:E; [| reflexivity].
  apply String.eqb_eq in E. now subst.
Qed.

Lemma clean_elems_snoc (p n : string) :
  (p =? "") = false -> valid_name n = true ->
  clean_elems (p ++ "/" ++ n) = (clean_elems p ++ [n])%list.
Proof.
  intros Hp Hn. unfold clean_elems.
  rewrite (isRooted_app _ _ Hp), split_app_sep, (valid_name_plain _ Hn).
  rewrite fold_left_app. cbn [fold_left].
  rewrite clean_step_name by assumption. reflexivity.
Qed.

(** A child name joined to a path: the elements of the cleaned path, then
    the name. *)
Lemma Join_name (p n : string) :
  valid_name n = true ->
  Join p n = render (isRooted p) (clean_elems p ++ [n]).
Proof.
  intros Hn. destruct (valid_name_neq n Hn) as (En & _ & _).
  unfold Join. destruct (p =? "") eqn:Hp.
  - apply String.eqb_eq in Hp. subst p. rewrite En, Clean_eq_render.
    unfold clean_elems. rewrite (valid_name_plain _ Hn). cbn [fold_left].
    rewrite clean_step_name by assumption.
    now rewrite (isRooted_plain (valid_name_plain _ Hn)).
  - rewrite Clean_eq_render, clean_elems_snoc by assumption.
    now rewrite (isRooted_app _ _ Hp).
Qed.

Lemma norm_stack_snoc (p n : string) :
  valid_name n = true ->
  norm_stack (isRooted p) (List.rev (clean_elems p ++ [n])) = true.
Proof.
  intros Hn. rewrite rev_app_distr. cbn [List.rev app].
  destruct (valid_name_neq n Hn) as (_ & _ & E).
  cbn [norm_stack]. now rewrite E, Hn, clean_elems_norm.
Qed.

Lemma upto_last_sep_plain (n : string) : plain n -> upto_last_sep n = "".
Proof.
  induction n as [| c n IH]; [reflexivity |]. intros H.
  destruct (plain_cons H) as [Hc Hn]. cbn. now rewrite Hc, IH.
Qed.

Lemma upto_last_sep_app (a n : string) :
  plain n -> upto_last_sep (a ++ "/" ++ n) = a ++ "/".
Proof.
  intros Hn. induction a as [| c a IH]; cbn.
  - now rewrite upto_last_sep_plain.
  - cbn in IH. rewrite IH. destruct (is_sep c); [reflexivity |].
    now destruct a.
Qed.

Lemma Clean_trailing_sep (x : string) :
  (x =? "") = false -> Clean (x ++ "/") = Clean x.
Proof.
  intros Hx. rewrite !Clean_eq_render. unfold clean_elems.
  rewrite (isRooted_app _ _ Hx).
  replace (x ++ "/") with (x ++ "/" ++ "") by reflexivity.
  rewrite split_app_sep, fold_left_app. reflexivity.
Qed.

(** The string of a rendered path that ends with name [n]. *)
Lemma render_snoc (rt : bool) (l : list string) (n : string) :
  Forall (fun x => plain x /\ (x =? "") = false) l ->
  (n =? "") = false ->
  (rt = false /\ l = [] /\ render rt (l ++ [n]) = n)
  \/ (rt = true /\ l = [] /\ render rt (l ++ [n]) = "" ++ "/" ++ n)
  \/ (l <> [] /\ render rt (l ++ [n]) = render rt l ++ "/" ++ n
      /\ (render rt l =? "") = false).
Proof.
  intros Hl Hn. destruct l as [| h t].
  - destruct rt.
    + right; left. now repeat split.
    + left. unfold render. cbn. now rewrite Hn.
  - right; right. split; [discriminate |].
    inversion Hl as [| ? ? [_ Hh] _]; subst.
    destruct (concat_head h t Hh) as [E1 _].
    assert (E2 : (String.concat "/" ((h :: t) ++ [n]) =? "") = false).
    { change ((h :: t) ++ [n])%list with (h :: (t ++ [n]))%list.
      now apply concat_head. }
    unfold render. rewrite concat_snoc by discriminate.
    destruct rt.
    + split; [reflexivity | reflexivity].
    + rewrite E1. rewrite <- concat_snoc by discriminate. rewrite E2.
      rewrite concat_snoc by discriminate. now split.
Qed.

Lemma clean_elems_plain (p : string) :
  Forall (fun x => plain x /\ (x =? "") = false) (clean_elems p).
Proof.
  rewrite <- (rev_involutive (clean_elems p)).
  apply Forall_rev_iff.
  apply norm_stack_plain with (rt := isRooted p), clean_elems_norm.
Qed.

Lemma Dir_Join (p n : string) :
  valid_name n = true -> filepath.Dir (Join p n) = Clean p.
Proof.
  intros Hn. rewrite (Join_name p n Hn), (Clean_eq_render p).
  pose proof (valid_name_plain _ Hn) as Hpl.
  destruct (valid_name_neq n Hn) as (En & _ & _).
  unfold filepath.Dir.
  destruct (@render_snoc (isRooted p) (clean_elems p) n (clean_elems_plain p) En)
    as [(Hr & Hl & E) | [(Hr & Hl & E) | (Hl & E & Hne)]]; rewrite E.
  - rewrite Hr, Hl. now rewrite upto_last_sep_plain.
  - rewrite Hr, Hl. now rewrite upto_last_sep_app.
  - rewrite upto_last_sep_app by assumption.
    rewrite Clean_trailing_sep by assumption.
    rewrite <- (rev_involutive (clean_elems p)).
    apply Clean_render, clean_elems_norm.
Qed.

Lemma trim_trailing_seps_plain (n : string) :
  plain n -> trim_trailing_seps n = n.
Proof.
  induction n as [| c n IH]; [reflexivity |]. intros H.
  destruct (plain_cons H) as [Hc Hn]. cbn.
  now rewrite IH, Hc, andb_false_r.
Qed.

Lemma trim_trailing_seps_app (a n : string) :
  plain n -> (n =? "") = false -> trim_trailing_seps (a ++ n) = a ++ n.
Proof.
  intros Hp Hn. induction a as [| c a IH]; cbn.
  - now apply trim_trailing_seps_plain.
  - rewrite IH. destruct a; cbn; [now rewrite Hn | reflexivity].
Qed.

Lemma append_eqb_nil_sep (a b : string) : (a ++ "/" ++ b =? "") = false.
Proof. now destruct a. Qed.

Lemma Base_Join (p n : string) :
  valid_name n = true -> Base (Join p n) = n.
Proof.
  intros Hn. rewrite (Join_name p n Hn).
  pose proof (valid_name_plain _ Hn) as Hpl.
  destruct (valid_name_neq n Hn) as (En & _ & _).
  assert (Hsplit : forall a, Base (a ++ "/" ++ n) = n).
  { intros a. unfold Base.
    rewrite append_eqb_nil_sep.
    rewrite <- append_assoc, trim_trailing_seps_app, append_assoc by assumption.
    rewrite split_app_sep, Hpl, last_last. now rewrite En. }
  destruct (@render_snoc (isRooted p) (clean_elems p) n (clean_elems_plain p) En)
    as [(Hr & Hl & E) | [(Hr & Hl & E) | (Hl & E & Hne)]]; rewrite E.
  - unfold Base. rewrite En, trim_trailing_seps_plain, Hpl by assumption.
    cbn. now rewrite En.
  - apply Hsplit.
  - apply Hsplit.
Qed.
(** X8.  The parent of a path joined with a name (not empty, not [.] or
    [..], no separator) is the cleaned path, whatever the path. *)
Theorem Parent_Join (p : fs.Path) (n : string) :
  valid_name n = true -> fs.Parent (fs.Join p n) = fs.Clean p.
Proof. exact (@Dir_Join p n). Qed.

Lemma Parent_Join_witness :
  valid_name "bar" = true
  /\ fs.Parent (fs.Join "/foo//x/../" "bar") = fs.Clean "/foo//x/../".
Proof.
  split; [reflexivity |]. apply (@Parent_Join "/foo//x/../" "bar"). reflexivity.
Defined.

(** X9.  The base name of a path joined with a name is that name. *)
Theorem Basename_Join (p : fs.Path) (n : string) :
  valid_name n = true -> fs.Basename (fs.Join p n) = n.
Proof. exact (@Base_Join p n). Qed.

Lemma Basename_Join_witness :
  valid_name "a.txt" = true /\ fs.Basename (fs.Join "../up/" "a.txt") = "a.txt".
Proof.
  split; [reflexivity |]. apply (@Basename_Join "../up/" "a.txt"). reflexivity.
Defined.

(** ** The destination paths of [copyDirs] *)

Lemma prefix_app (a b : string) : String.prefix a (a ++ b) = true.
Proof.
  induction a as [| c a IH]; cbn; [now destruct b |].
  destruct (ascii_dec c c); [exact IH | contradiction].
Qed.

Lemma drop_app (a b : string) : drop (String.length a) (a ++ b) = b.
Proof. induction a as [| c a IH]; cbn; [now destruct b | exact IH]. Qed.

Lemma Replace1_eq (s old new : string) :
  Replace1 s old new =
  if String.prefix old s then new ++ drop (String.length old) s
  else match s with
       | EmptyString => ""
       | String c s' => String c (Replace1 s' old new)
       end.
Proof. destruct s; reflexivity. Qed.

(** X10.  The path [copyDirs] computes for an entry whose path begins with
    the source root, written as it was given: the destination root followed
    by the rest of the entry's path; a directory entry is made there with
    [MkdirAll], a file entry is copied there with [copyFiles]. *)
Theorem copyDirs_destination_of_prefixed_path (src dest : fs.Path)
  (rest : string) (isDirectory : bool) :
  Replace1 (src ++ rest) src dest = dest ++ rest
  /\ fs.copyDirs_walker src dest (src ++ rest) isDirectory tt =
     if isDirectory
     then e <- fs.MkdirAll (dest ++ rest) ;;
          match e with
          | Some err => Ret (Some err, tt)
          | None => Ret (None, tt)
          end
     else e <- fs.copyFiles (src ++ rest) (dest ++ rest) ;;
          match e with
          | Some err => Ret (Some err, tt)
          | None => Ret (None, tt)
          end.
Proof.
  assert (H : Replace1 (src ++ rest) src dest = dest ++ rest).
  { now rewrite Replace1_eq, prefix_app, drop_app. }
  split; [exact H |].
  unfold fs.copyDirs_walker. now rewrite H.
Qed.

(** ** Path name resolution and [Clean] *)

Lemma split_render (rt : bool) (l : list string) :
  Forall (fun x => plain x /\ (x =? "") = false) l ->
  split (render rt l) =
  if rt then "" :: (match l with [] => [""] | _ => l end)
  else match l with [] => ["."] | _ => l end.
Proof.
  intros Hl. unfold render.
  assert (Hp : Forall plain l).
  { eapply Forall_impl; [| exact Hl]. now intros x [H _]. }
  destruct rt.
  - change ("/" ++ String.concat "/" l) with ("" ++ "/" ++ String.concat "/" l).
    rewrite split_app_sep. cbn [split app].
    destruct l as [| h t]; [reflexivity |].
    now rewrite split_concat by (trivial; intros Hnil; discriminate Hnil).
  - destruct l as [| h t]; [reflexivity |].
    inversion Hl as [| ? ? [Hh Hne] _]; subst.
    destruct (concat_head h t Hne) as [E1 _]. rewrite E1.
    now rewrite split_concat by (trivial; intros Hnil; discriminate Hnil).
Qed.

Section Namei.
Variable t : node.

Lemma namei_fold_err (l : list string) (e : Errno) :
  fold_left (namei_step t) l (inl e) = inl e.
Proof. induction l as [| c l IH]; [reflexivity | exact IH]. Qed.

Lemma namei_fold_inr (l : list string) (r : Errno + list string)
  (a : list string) :
  fold_left (namei_step t) l r = inr a -> exists b, r = inr b.
Proof.
  destruct r as [e | b]; [| now exists b].
  now rewrite namei_fold_err.
Qed.

Lemma namei_step_dir (b : list string) (c : string) (a : list string) :
  namei_step t (inr b) c = inr a ->
  exists m es, lookup t b = Some (Dir m es).
Proof.
  cbn. destruct (lookup t b) as [[m d | m es] |]; try discriminate.
  intros _. now exists m, es.
Qed.

Lemma namei_step_same (b : list string) (c : string) (a : list string) :
  c = "" \/ c = "." -> namei_step t (inr b) c = inr a -> a = b.
Proof.
  intros Hc. cbn. destruct (lookup t b) as [[m d | m es] |]; try discriminate.
  destruct Hc as [-> | ->]; cbn; intros H; now inversion H.
Qed.

Lemma namei_step_self (b : list string) (c : string) (m : FileMode)
  (es : list (string * node)) :
  c = "" \/ c = "." -> lookup t b = Some (Dir m es) ->
  namei_step t (inr b) c = inr b.
Proof. intros Hc Hb. cbn. rewrite Hb. now destruct Hc as [-> | ->]. Qed.

Lemma namei_step_up (b a : list string) :
  namei_step t (inr b) ".." = inr a -> a = removelast b.
Proof.
  cbn. destruct (lookup t b) as [[m d | m es] |]; try discriminate.
  cbn. intros H; now inversion H.
Qed.

Lemma namei_step_name (b : list string) (x : string) (a : list string) :
  valid_name x = true -> namei_step t (inr b) x = inr a -> a = (b ++ [x])%list.
Proof.
  intros Hx. destruct (valid_name_neq x Hx) as (E1 & E2 & E3).
  cbn. destruct (lookup t b) as [[m d | m es] |]; try discriminate.
  rewrite E1, E2, E3. cbn.
  destruct (find_entry x es); [| discriminate].
  intros H; now inversion H.
Qed.

Lemma namei_step_child (b : list string) (x : string) (m : FileMode)
  (es : list (string * node)) (c : node) :
  valid_name x = true -> lookup t b = Some (Dir m es) ->
  find_entry x es = Some c ->
  namei_step t (inr b) x = inr (b ++ [x])%list.
Proof.
  intros Hx Hb Hc. destruct (valid_name_neq x Hx) as (E1 & E2 & E3).
  cbn. now rewrite Hb, E1, E2, E3, Hc.
Qed.

Variable rt : bool.
Variable start : list string.
Hypothesis rooted_start : rt = true -> start = [].

(** One element: what [Clean] keeps resolves to where the kernel is. *)
Lemma namei_clean_step (out : list string) (c : string) (cur cur' : list string) :
  plain c -> norm_stack rt out = true ->
  fold_left (namei_step t) (List.rev out) (inr start) = inr cur ->
  namei_step t (inr cur) c = inr cur' ->
  fold_left (namei_step t) (List.rev (clean_step rt out c)) (inr start)
  = inr cur'.
Proof.
  intros Hc Hout Hcur Hstep.
  destruct (plain_cases Hc) as [-> | [-> | [-> | Hv]]].
  - rewrite (@namei_step_same cur "" cur' (or_introl eq_refl) Hstep). exact Hcur.
  - rewrite (@namei_step_same cur "." cur' (or_intror eq_refl) Hstep). exact Hcur.
  - unfold clean_step.
    change (".." =? "") with false. change (".." =? ".") with false.
    change (".." =? "..") with true. cbn [orb].
    destruct out as [| top rest].
    + cbn in Hcur. inversion Hcur; subst cur.
      destruct rt.
      * rewrite (rooted_start eq_refl) in *.
        now rewrite (@namei_step_up _ _ Hstep).
      * exact Hstep.
    + destruct (top =? "..") eqn:Et.
      * change (List.rev (".." :: top :: rest))
          with (List.rev (top :: rest) ++ [".."])%list.
        rewrite fold_left_app, Hcur. exact Hstep.
      * cbn [List.rev] in Hcur. rewrite fold_left_app in Hcur.
        cbn [fold_left] in Hcur.
        cbn in Hout. rewrite Et in Hout.
        apply andb_true_iff in Hout. destruct Hout as [Hv _].
        destruct (fold_left (namei_step t) (List.rev rest) (inr start))
          as [e | b] eqn:Eb; [discriminate |].
        rewrite (@namei_step_name b top cur Hv Hcur) in Hstep.
        rewrite (@namei_step_up _ _ Hstep). now rewrite removelast_last.
  - rewrite clean_step_name by assumption.
    cbn [List.rev]. rewrite fold_left_app, Hcur. exact Hstep.
Qed.

Lemma namei_clean_fold (l : list string) :
  forall out cur a,
    Forall plain l -> norm_stack rt out = true ->
    fold_left (namei_step t) (List.rev out) (inr start) = inr cur ->
    fold_left (namei_step t) l (inr cur) = inr a ->
    fold_left (namei_step t)
              (List.rev (fold_left (clean_step rt) l out)) (inr start)
    = inr a.
Proof.
  induction l as [| c l IH]; intros out cur a Hl Hout Hcur Ha.
  - cbn in *. now rewrite Hcur.
  - inversion Hl; subst. cbn [fold_left] in *.
    destruct (@namei_fold_inr _ _ _ Ha) as [cur' Hstep].
    rewrite Hstep in Ha.
    apply (IH (clean_step rt out c) cur' a); trivial.
    + now apply clean_step_norm.
    + now apply namei_clean_step with (cur := cur).
Qed.

End Namei.

Lemma namei_elems_of (w : world) (p : string) (a : list string) :
  namei w p = inr a ->
  (p =? "") = false
  /\ fold_left (namei_step (tree w)) (split p) (inr (start_of w p)) = inr a.
Proof.
  unfold namei, namei_elems. destruct (p =? ""); [discriminate |]. now split.
Qed.

Lemma namei_start_dir (w : world) (p : string) (a : list string) :
  namei w p = inr a ->
  exists m es, lookup (tree w) (start_of w p) = Some (Dir m es).
Proof.
  intros H. destruct (namei_elems_of w p H) as [_ Hf].
  destruct (split p) as [| c l] eqn:E; [now apply split_not_nil in E |].
  cbn [fold_left] in Hf.
  destruct (@namei_fold_inr _ _ _ _ Hf) as [b Hb].
  now apply namei_step_dir in Hb.
Qed.

(** The cleaned elements of a path resolve to where the path resolves. *)
Lemma namei_clean_elems (w : world) (p : string) (a : list string) :
  namei w p = inr a ->
  fold_left (namei_step (tree w)) (clean_elems p) (inr (start_of w p)) = inr a.
Proof.
  intros H. destruct (namei_elems_of w p H) as [_ Hf].
  unfold clean_elems.
  apply namei_clean_fold with (cur := start_of w p); trivial.
  - unfold start_of. now intros ->.
  - apply split_plain.
Qed.

Lemma namei_render (w : world) (p : string) (l : list string)
  (m : FileMode) (es : list (string * node)) :
  Forall (fun x => plain x /\ (x =? "") = false) l ->
  lookup (tree w) (start_of w p) = Some (Dir m es) ->
  namei w (render (isRooted p) l)
  = fold_left (namei_step (tree w)) l (inr (start_of w p)).
Proof.
  intros Hl Hs.
  destruct (@render_spec (isRooted p) l Hl) as (E1 & E2 & _).
  unfold namei, namei_elems. rewrite E1.
  replace (start_of w (render (isRooted p) l)) with (start_of w p)
    by (unfold start_of; now rewrite E2).
  rewrite (@split_render (isRooted p) l Hl).
  destruct (isRooted p).
  - cbn [fold_left].
    rewrite (@namei_step_self (tree w) (start_of w p) "" m es (or_introl eq_refl) Hs).
    destruct l; [| reflexivity]. cbn [fold_left].
    now rewrite (@namei_step_self (tree w) (start_of w p) "" m es (or_introl eq_refl) Hs).
  - destruct l; [| reflexivity]. cbn [fold_left].
    now rewrite (@namei_step_self (tree w) (start_of w p) "." m es (or_intror eq_refl) Hs).
Qed.

(** A child of a resolved directory, reached through [Join]. *)
Lemma namei_Join (w : world) (p n : string) (a : list string)
  (m : FileMode) (es : list (string * node)) (c : node) :
  namei w p = inr a ->
  lookup (tree w) a = Some (Dir m es) ->
  find_entry n es = Some c ->
  valid_name n = true ->
  namei w (Join p n) = inr (a ++ [n])%list.
Proof.
  intros Hp Ha Hc Hn.
  destruct (namei_start_dir w p Hp) as (m0 & es0 & Hs).
  rewrite (Join_name p n Hn).
  rewrite (@namei_render w p (clean_elems p ++ [n]) m0 es0); trivial.
  - rewrite fold_left_app, (namei_clean_elems w p Hp). cbn [fold_left].
    now apply namei_step_child with (m := m) (es := es) (c := c).
  - apply Forall_app. split; [apply clean_elems_plain |].
    constructor; [| constructor].
    split; [now apply valid_name_plain | apply (valid_name_neq n Hn)].
Qed.

(** The cleaned path resolves like the path. *)
Lemma namei_Clean (w : world) (p : string) (a : list string) :
  namei w p = inr a -> namei w (Clean p) = inr a.
Proof.
  intros Hp. destruct (namei_start_dir w p Hp) as (m0 & es0 & Hs).
  rewrite Clean_eq_render.
  rewrite (@namei_render w p (clean_elems p) m0 es0); trivial.
  - now apply namei_clean_elems.
  - apply clean_elems_plain.
Qed.

(** ** Trees of the model *)

Lemma yields_Ret {B : Type} (w : world) (v : B) : yields (Ret v) w v.
Proof. split; reflexivity. Qed.

Lemma yields_bind {B B' : Type} (m : prog B) (f : B -> prog B') (w : world)
  (v : B) (v' : B') :
  yields m w v -> yields (f v) w v' -> yields (bind m f) w v'.
Proof.
  intros [Hv Hf] [Hv' Hf']. unfold yields. rewrite run_bind, Hv.
  cbv zeta. cbn [value final]. rewrite Hf. now split.
Qed.

Lemma yields_call {T B : Type} (c : syscall T) (k : T -> prog B) (w : world)
  (r : T) (v : B) :
  model_os c w = (r, w) -> yields (k r) w v -> yields (bind (call c) k) w v.
Proof.
  intros Hc [Hv Hf]. unfold yields. rewrite run_call_bind, Hc.
  cbv zeta. cbn [value final]. now split.
Qed.

Lemma find_entry_In (x : string) (es : list (string * node)) (c : node) :
  find_entry x es = Some c -> In (x, c) es.
Proof.
  induction es as [| [y d] r IH]; cbn; [discriminate |].
  destruct (y =? x) eqn:E.
  - apply String.eqb_eq in E. intros H; inversion H; subst. now left.
  - intros H. right. now apply IH.
Qed.

Lemma In_find_entry (x : string) (es : list (string * node)) :
  In x (map fst es) -> exists c, find_entry x es = Some c.
Proof.
  induction es as [| [y d] r IH]; cbn; [contradiction |].
  destruct (y =? x) eqn:E; [now exists d |].
  intros [H | H]; [| now apply IH].
  subst. now rewrite String.eqb_refl in E.
Qed.

Lemma lookup_snoc (t : node) (a : list string) (x : string) (m : FileMode)
  (es : list (string * node)) :
  lookup t a = Some (Dir m es) ->
  lookup t (a ++ [x])%list = find_entry x es.
Proof.
  revert t. induction a as [| y a IH]; intros t H; cbn in *.
  - inversion H; subst. now destruct (find_entry x es).
  - destruct t as [| m' es']; [discriminate |].
    destruct (find_entry y es'); [now apply IH | discriminate].
Qed.

Lemma wf_entries (m : FileMode) (es : list (string * node)) (x : string)
  (c : node) :
  wf_node (Dir m es) = true -> In (x, c) es ->
  valid_name x = true /\ wf_node c = true /\ height c < height (Dir m es).
Proof.
  cbn [wf_node height]. intros H Hin.
  apply andb_true_iff in H. destruct H as [H Hall].
  apply andb_true_iff in H. destruct H as [Hval _].
  split; [| split].
  - rewrite forallb_forall in Hval. apply Hval.
    now apply (in_map fst) in Hin.
  - clear Hval. induction es as [| [y d] r IH]; [contradiction |].
    apply andb_true_iff in Hall. destruct Hall as [Hd Hr].
    destruct Hin as [E | Hin]; [now inversion E; subst | now apply IH].
  - clear Hval Hall. apply Nat.lt_succ_r.
    induction es as [| [y d] r IH]; [contradiction |].
    destruct Hin as [E | Hin].
    + inversion E; subst. apply Nat.le_max_l.
    + etransitivity; [now apply IH | apply Nat.le_max_r].
Qed.

Lemma insert_sorted_perm (x : string) (l : list string) :
  Permutation (insert_sorted x l) (x :: l).
Proof.
  induction l as [| y r IH]; cbn; [reflexivity |].
  destruct (String.leb x y); [reflexivity |].
  rewrite IH. apply perm_swap.
Qed.

Lemma sort_strings_perm (l : list string) : Permutation (sort_strings l) l.
Proof.
  induction l as [| x l IH]; cbn; [reflexivity |].
  rewrite insert_sorted_perm. now constructor.
Qed.

Lemma nodupb_NoDup (l : list string) : nodupb l = true -> NoDup l.
Proof.
  induction l as [| x r IH]; cbn; intros H; constructor.
  - apply andb_true_iff in H. destruct H as [H _].
    apply negb_true_iff in H. intros Hin.
    assert (existsb (String.eqb x) r = true); [| congruence].
    apply existsb_exists. exists x. split; [assumption | apply String.eqb_refl].
  - apply andb_true_iff in H. now apply IH.
Qed.

Lemma wf_names_NoDup (m : FileMode) (es : list (string * node)) :
  wf_node (Dir m es) = true -> NoDup (sort_strings (map fst es)).
Proof.
  cbn [wf_node]. intros H.
  apply andb_true_iff in H. destruct H as [H _].
  apply andb_true_iff in H. destruct H as [_ H].
  eapply Permutation_NoDup; [symmetry; apply sort_strings_perm |].
  now apply nodupb_NoDup.
Qed.

Lemma sorted_name_entry (es : list (string * node)) (x : string) :
  In x (sort_strings (map fst es)) -> exists c, find_entry x es = Some c.
Proof.
  intros H. apply In_find_entry.
  eapply Permutation_in; [apply sort_strings_perm | exact H].
Qed.

Lemma entry_sorted_name (es : list (string * node)) (x : string) (c : node) :
  find_entry x es = Some c -> In x (sort_strings (map fst es)).
Proof.
  intros H. apply find_entry_In in H.
  eapply Permutation_in; [symmetry; apply sort_strings_perm |].
  now apply (in_map fst) in H.
Qed.

Lemma IsDir_info_of (n : node) : IsDir (info_of n) = is_dir_node n.
Proof.
  destruct n as [m d | m es]; cbn [is_dir_node].
  - apply info_of_Reg.
  - apply info_of_Dir.
Qed.

Lemma clean_elems_Join (p n : string) :
  valid_name n = true -> clean_elems (Join p n) = (clean_elems p ++ [n])%list.
Proof.
  intros Hn. rewrite (Join_name p n Hn).
  rewrite <- (rev_involutive (clean_elems p ++ [n])).
  apply clean_elems_render. now apply norm_stack_snoc.
Qed.

(** ** [Walk] with [WalkBoth] in the model *)

Lemma model_Lstat (w : world) (path : string) (a : list string) (n : node) :
  namei w path = inr a -> lookup (tree w) a = Some n ->
  model_os (os_Lstat path) w = (Ok (info_of n), w).
Proof. intros Ha Hn. cbn. unfold m_stat. now rewrite Ha, Hn. Qed.

Lemma model_readDirNames (w : world) (path : string) (a : list string)
  (m : FileMode) (es : list (string * node)) :
  namei w path = inr a -> lookup (tree w) a = Some (Dir m es) ->
  model_os (readDirNames path) w = (Ok (sort_strings (map fst es)), w).
Proof. intros Ha Hn. cbn. unfold m_readdir. now rewrite Ha, Hn. Qed.

Lemma is_dir_resolved (w : world) (path : string) (a : list string) (n : node) :
  namei w path = inr a -> lookup (tree w) a = Some n ->
  is_dir w path = is_dir_node n.
Proof.
  intros Ha Hn. unfold is_dir, m_stat. rewrite Ha, Hn. apply IsDir_info_of.
Qed.

Lemma walk_S {A : Type} (walkFn : WalkFunc A) (fuel : nat) (path : string)
  (info : FileInfo) (acc : A) :
  walk walkFn (S fuel) path info acc =
  if negb (IsDir info) then walkFn path (Some info) None acc
  else
    r <- call (readDirNames path) ;;
    '(err1, acc) <- walkFn path (Some info)
                      (match r with Ok _ => None | Err e => Some e end) acc ;;
    match r, err1 with
    | Ok names, None => walk_names walkFn (walk walkFn fuel) path names acc
    | _, _ => Ret (err1, acc)
    end.
Proof. reflexivity. Qed.

Lemma yields_DirExists (w : world) (path : fs.Path) :
  yields (fs.DirExists path) w (is_dir w path).
Proof. unfold yields. now rewrite run_DirExists. Qed.

Section WalkBoth.
Variable w : world.
Variable p : fs.Path.

Let Wf := fs.Walk_func p fs.WalkBoth recorder.

Lemma below_neq (path : string) : below p path -> (path =? p) = false.
Proof.
  intros H. apply String.eqb_neq. intros ->. unfold below in H. lia.
Qed.

Lemma below_Join (path n : string) :
  List.length (clean_elems p) <= List.length (clean_elems path) ->
  valid_name n = true -> below p (Join path n).
Proof.
  intros H Hn. unfold below. rewrite clean_elems_Join by assumption.
  rewrite length_app. cbn. lia.
Qed.

Lemma Wf_delivers (path : string) (info : FileInfo)
  (acc : list (fs.Path * bool)) :
  below p path ->
  yields (Wf path (Some info) None acc) w
         (None, (acc ++ [(path, IsDir info)])%list).
Proof.
  intros H. unfold Wf, fs.Walk_func. rewrite (below_neq H).
  cbn [fs.WalkType_eqb]. rewrite !andb_false_r.
  apply yields_Ret.
Qed.

Section Names.
Variable fuel' : nat.
Variable rec : string -> FileInfo -> list (fs.Path * bool) ->
               prog (option error * list (fs.Path * bool)).
Hypothesis rec_ok :
  forall path a n acc,
    namei w path = inr a -> lookup (tree w) a = Some n ->
    wf_node n = true -> height n <= fuel' -> below p path ->
    yields (rec path (info_of n) acc) w
           (None, (acc ++ (path, is_dir_node n) :: listing fuel' path n)%list).

Variable path : string.
Variable a : list string.
Variable m : FileMode.
Variable es : list (string * node).
Hypothesis path_a : namei w path = inr a.
Hypothesis a_dir : lookup (tree w) a = Some (Dir m es).
Hypothesis dir_wf : wf_node (Dir m es) = true.
Hypothesis dir_height : height (Dir m es) <= S fuel'.
Hypothesis path_below :
  List.length (clean_elems p) <= List.length (clean_elems path).

Lemma walk_names_Both (names : list string) :
  (forall name, In name names -> exists c, find_entry name es = Some c) ->
  forall acc,
    yields (walk_names Wf rec path names acc) w
           (None, (acc ++ flat_map (block fuel' path es) names)%list).
Proof.
  induction names as [| name rest IH]; intros Hnames acc.
  - cbn. rewrite app_nil_r. apply yields_Ret.
  - destruct (Hnames name (or_introl eq_refl)) as [c Hc].
    destruct (@wf_entries m es name c dir_wf (find_entry_In _ _ Hc))
      as (Hv & Hwf & Hh).
    assert (Hna : namei w (Join path name) = inr (a ++ [name])%list).
    { now apply namei_Join with (m := m) (es := es) (c := c). }
    assert (Hlc : lookup (tree w) (a ++ [name])%list = Some c).
    { now rewrite (lookup_snoc (tree w) a name a_dir). }
    cbn [walk_names].
    eapply yields_call; [exact (model_Lstat w _ Hna Hlc) |].
    eapply yields_bind.
    + apply (@rec_ok _ _ _ acc Hna Hlc Hwf); [lia | now apply below_Join].
    + cbn beta iota.
      replace (acc ++ flat_map (block fuel' path es) (name :: rest))%list
        with ((acc ++ (Join path name, is_dir_node c)
                       :: listing fuel' (Join path name) c)
              ++ flat_map (block fuel' path es) rest)%list.
      * apply IH. intros x Hx. apply Hnames. now right.
      * cbn [flat_map].
        assert (Hb : block fuel' path es name = (Join path name, is_dir_node c)
                                  :: listing fuel' (Join path name) c)
          by (unfold block; now rewrite Hc).
        rewrite Hb. now rewrite <- app_assoc.
Qed.

End Names.

Lemma height_Dir_pos (m : FileMode) (es : list (string * node)) :
  1 <= height (Dir m es).
Proof. cbn. lia. Qed.

Lemma listing_Dir (fuel' : nat) (path : string) (m : FileMode)
  (es : list (string * node)) :
  listing (S fuel') path (Dir m es)
  = flat_map (block fuel' path es) (sort_strings (map fst es)).
Proof. reflexivity. Qed.

Lemma walk_Both (fuel : nat) :
  forall path a n acc,
    namei w path = inr a -> lookup (tree w) a = Some n ->
    wf_node n = true -> height n <= fuel -> below p path ->
    yields (walk Wf (S fuel) path (info_of n) acc) w
           (None, (acc ++ (path, is_dir_node n) :: listing fuel path n)%list).
Proof.
  induction fuel as [| fuel' IH]; intros path a n acc Ha Hn Hwf Hh Hb.
  - destruct n as [m d | m es];
      [| pose proof (height_Dir_pos m es); lia].
    rewrite walk_S, IsDir_info_of. cbn [is_dir_node negb listing].
    pose proof (Wf_delivers (info_of (Reg m d)) acc Hb) as H.
    now rewrite IsDir_info_of in H.
  - destruct n as [m d | m es].
    + rewrite walk_S, IsDir_info_of. cbn [is_dir_node negb].
      pose proof (Wf_delivers (info_of (Reg m d)) acc Hb) as H.
      rewrite IsDir_info_of in H.
      replace (listing (S fuel') path (Reg m d)) with (@nil (fs.Path * bool))
        by reflexivity.
      exact H.
    + rewrite walk_S, IsDir_info_of. cbn [is_dir_node negb].
      eapply yields_call; [exact (model_readDirNames w path Ha Hn) |].
      cbv zeta. eapply yields_bind.
      * pose proof (Wf_delivers (info_of (Dir m es)) acc Hb) as H.
        rewrite IsDir_info_of in H. exact H.
      * cbn beta iota. rewrite listing_Dir.
        change (is_dir_node (Dir m es)) with true.
        replace (acc ++ (path, true)
                        :: flat_map (block fuel' path es)
                             (sort_strings (map fst es)))%list
          with ((acc ++ [(path, true)])
                ++ flat_map (block fuel' path es)
                     (sort_strings (map fst es)))%list
          by (now rewrite <- app_assoc).
        apply walk_names_Both with (a := a) (m := m); trivial.
        -- unfold below in Hb. lia.
        -- intros name. apply sorted_name_entry.
Qed.

(** The walk of a well-formed directory with enough fuel: the visitor is
    handed the listing, the world is unchanged. *)
Lemma Walk_Both_listing (fuel : nat) (a : list string) (m : FileMode)
  (es : list (string * node)) :
  namei w p = inr a -> lookup (tree w) a = Some (Dir m es) ->
  wf_node (Dir m es) = true -> height (Dir m es) <= fuel ->
  yields (fs.Walk (S fuel) p fs.WalkBoth recorder []) w
         (None, listing fuel p (Dir m es)).
Proof.
  intros Ha Hn Hwf Hh. unfold fs.Walk.
  eapply yields_bind; [apply yields_DirExists |].
  rewrite (is_dir_resolved w p Ha Hn). cbn [is_dir_node negb].
  unfold filepath_Walk.
  eapply yields_call; [exact (model_Lstat w p Ha Hn) |].
  eapply yields_bind with (v := (None, listing fuel p (Dir m es))).
  - destruct fuel as [| fuel']; [pose proof (height_Dir_pos m es); lia |].
    rewrite walk_S, IsDir_info_of. cbn [is_dir_node negb].
    eapply yields_call; [exact (model_readDirNames w p Ha Hn) |].
    cbv zeta. eapply yields_bind with (v := (None, [])).
    + unfold fs.Walk_func. rewrite String.eqb_refl. apply yields_Ret.
    + cbn beta iota. rewrite listing_Dir.
      apply (@walk_names_Both fuel' (walk Wf (S fuel'))) with (a := a) (m := m) (acc := []);
        trivial.
      * intros; now apply walk_Both with (a := a0).
      * intros name. apply sorted_name_entry.
  - apply yields_Ret.
Qed.

End WalkBoth.

(** ** What the listing holds *)

Lemma height_child (m : FileMode) (es : list (string * node)) (x : string)
  (c : node) :
  In (x, c) es -> height c < height (Dir m es).
Proof.
  intros Hin. cbn [height]. apply Nat.lt_succ_r.
  induction es as [| [y d] r IH]; [contradiction |].
  destruct Hin as [E | Hin].
  - inversion E; subst. apply Nat.le_max_l.
  - etransitivity; [now apply IH | apply Nat.le_max_r].
Qed.

Lemma in_block (fuel' : nat) (path : string) (es : list (string * node))
  (name : string) (x : fs.Path) (b : bool) :
  In (x, b) (block fuel' path es name) ->
  exists c, find_entry name es = Some c
            /\ ((x, b) = (Join path name, is_dir_node c)
                \/ In (x, b) (listing fuel' (Join path name) c)).
Proof.
  unfold block. destruct (find_entry name es) as [c |]; [| contradiction].
  intros [H | H]; exists c; split; trivial; [left; now symmetry | now right].
Qed.

Lemma listing_sound (fuel : nat) :
  forall path n x b,
    In (x, b) (listing fuel path n) ->
    exists r n', r <> [] /\ lookup n r = Some n'
                 /\ x = fold_left Join r path /\ b = is_dir_node n'.
Proof.
  induction fuel as [| fuel' IH]; intros path n x b H; [contradiction |].
  destruct n as [m d | m es]; [contradiction |].
  rewrite listing_Dir in H. apply in_flat_map in H.
  destruct H as (name & _ & H). apply in_block in H.
  destruct H as (c & Hc & [H | H]).
  - inversion H; subst. exists [name], c.
    repeat split; [discriminate | cbn; now rewrite Hc].
  - destruct (IH _ _ _ _ H) as (r & n' & Hr & Hl & Hx & Hb).
    exists (name :: r), n'. repeat split; trivial; [discriminate |].
    cbn. now rewrite Hc.
Qed.

Lemma listing_complete (fuel : nat) :
  forall path n r n',
    height n <= fuel -> r <> [] -> lookup n r = Some n' ->
    In (fold_left Join r path, is_dir_node n') (listing fuel path n).
Proof.
  induction fuel as [| fuel' IH]; intros path n r n' Hh Hr Hl.
  - destruct r as [| name r]; [contradiction |].
    destruct n as [m d | m es]; [discriminate |].
    pose proof (height_Dir_pos m es). lia.
  - destruct r as [| name r]; [contradiction |].
    destruct n as [m d | m es]; [discriminate |].
    cbn [lookup] in Hl.
    destruct (find_entry name es) as [c |] eqn:Hc; [| discriminate].
    rewrite listing_Dir. apply in_flat_map. exists name.
    split; [now apply entry_sorted_name with (c := c) |].
    unfold block. rewrite Hc. cbn [fold_left].
    destruct r as [| name' r'].
    + cbn in Hl. inversion Hl; subst. now left.
    + right. apply IH; trivial; [| discriminate].
      pose proof (height_child m es _ _ (find_entry_In _ _ Hc)). lia.
Qed.

Lemma listing_elems (fuel : nat) :
  forall path n x b,
    wf_node n = true -> In (x, b) (listing fuel path n) ->
    exists r, r <> [] /\ clean_elems x = (clean_elems path ++ r)%list.
Proof.
  induction fuel as [| fuel' IH]; intros path n x b Hwf H; [contradiction |].
  destruct n as [m d | m es]; [contradiction |].
  rewrite listing_Dir in H. apply in_flat_map in H.
  destruct H as (name & _ & H). apply in_block in H.
  destruct H as (c & Hc & H).
  destruct (@wf_entries m es name c Hwf (find_entry_In _ _ Hc)) as (Hv & Hwc & _).
  destruct H as [H | H].
  - inversion H; subst. exists [name].
    split; [discriminate | now apply clean_elems_Join].
  - destruct (IH _ _ _ _ Hwc H) as (r & Hr & E).
    exists (name :: r). split; [discriminate |].
    rewrite E, clean_elems_Join by assumption.
    now rewrite <- app_assoc.
Qed.

(** Every path of the part that comes from [name] has [name] as the
    element after those of [path]. *)
Lemma block_key (fuel' : nat) (path : string) (m : FileMode)
  (es : list (string * node)) (name : string) (x : fs.Path) (b : bool) :
  wf_node (Dir m es) = true ->
  In (x, b) (block fuel' path es name) ->
  nth_error (clean_elems x) (List.length (clean_elems path)) = Some name.
Proof.
  intros Hwf H. apply in_block in H. destruct H as (c & Hc & H).
  destruct (@wf_entries m es name c Hwf (find_entry_In _ _ Hc)) as (Hv & Hwc & _).
  assert (Hk : forall r, nth_error ((clean_elems path ++ [name]) ++ r)
                           (List.length (clean_elems path)) = Some name).
  { intros r. rewrite <- app_assoc. rewrite nth_error_app2 by lia.
    now rewrite Nat.sub_diag. }
  destruct H as [H | H].
  - inversion H; subst. rewrite clean_elems_Join by assumption.
    rewrite <- (app_nil_r (clean_elems path ++ [name])). apply Hk.
  - destruct (listing_elems _ _ _ _ _ Hwc H) as (r & _ & E).
    rewrite E, clean_elems_Join by assumption. apply Hk.
Qed.

Lemma NoDup_flat_map {S T : Type} (f : S -> list T) (l : list S) :
  NoDup l ->
  (forall a, In a l -> NoDup (f a)) ->
  (forall a a' b, In a l -> In a' l -> In b (f a) -> In b (f a') -> a = a') ->
  NoDup (flat_map f l).
Proof.
  induction l as [| a l IH]; intros Hl Hf Hd; cbn; [constructor |].
  inversion Hl as [| ? ? Ha Hl']; subst.
  apply NoDup_app.
  - apply Hf. now left.
  - apply IH; trivial.
    + intros; apply Hf; now right.
    + intros a1 a2 b H1 H2; apply Hd; now right.
  - intros b Hb Hb'. apply in_flat_map in Hb'.
    destruct Hb' as (a' & Ha' & Hb'). apply Ha.
    rewrite (Hd a a' b); trivial; [now left | now right].
Qed.

Lemma map_fst_flat_map {S T U : Type} (f : S -> list (T * U)) (l : list S) :
  map fst (flat_map f l) = flat_map (fun a => map fst (f a)) l.
Proof.
  induction l as [| a l IH]; cbn; [reflexivity |].
  now rewrite map_app, IH.
Qed.

Lemma in_map_fst {T U : Type} (x : T) (l : list (T * U)) :
  In x (map fst l) -> exists b, In (x, b) l.
Proof.
  intros H. apply in_map_iff in H. destruct H as ([x' b] & E & H).
  cbn in E. subst. now exists b.
Qed.

Lemma listing_NoDup (fuel : nat) :
  forall path n, wf_node n = true -> NoDup (map fst (listing fuel path n)).
Proof.
  induction fuel as [| fuel' IH]; intros path n Hwf; [constructor |].
  destruct n as [m d | m es]; [constructor |].
  rewrite listing_Dir, map_fst_flat_map.
  apply NoDup_flat_map.
  - now apply wf_names_NoDup with (m := m).
  - intros name _. unfold block.
    destruct (find_entry name es) as [c |] eqn:Hc; [| constructor].
    destruct (@wf_entries m es name c Hwf (find_entry_In _ _ Hc))
      as (Hv & Hwc & _).
    cbn [map fst]. constructor; [| now apply IH].
    intros Hin. apply in_map_fst in Hin. destruct Hin as [b Hin].
    destruct (listing_elems _ _ _ _ _ Hwc Hin) as (r & Hr & E).
    apply (f_equal (@List.length string)) in E.
    rewrite length_app in E. destruct r; [contradiction | cbn in E; lia].
  - intros name name' x _ _ H H'.
    apply in_map_fst in H. destruct H as [b H].
    apply in_map_fst in H'. destruct H' as [b' H'].
    pose proof (block_key _ _ m _ _ _ _ Hwf H) as K.
    pose proof (block_key _ _ m _ _ _ _ Hwf H') as K'.
    congruence.
Qed.

(** X11.  [Walk] with [WalkBoth] on a directory of the model, with fuel
    above the height of the tree: no error, the world is unchanged, and
    the visitor is handed every entry below the root, each one once (no
    path twice), with its kind, and nothing else.  A path is the root
    joined with the names that lead to the entry. *)
Theorem WalkBoth_every_entry_once (w : world) (p : fs.Path) (fuel : nat)
  (a : list string) (m : FileMode) (es : list (string * node)) :
  namei w p = inr a ->
  lookup (tree w) a = Some (Dir m es) ->
  wf_node (Dir m es) = true ->
  height (Dir m es) < fuel ->
  exists seen : list (fs.Path * bool),
    value (run model_os (fs.Walk fuel p fs.WalkBoth recorder []) w)
    = inl (None, seen)
    /\ final (run model_os (fs.Walk fuel p fs.WalkBoth recorder []) w) = w
    /\ NoDup (map fst seen)
    /\ (forall r n, r <> [] -> lookup (Dir m es) r = Some n ->
          In (fold_left fs.Join r p, is_dir_node n) seen)
    /\ (forall x b, In (x, b) seen ->
          exists r n, r <> [] /\ lookup (Dir m es) r = Some n
                      /\ x = fold_left fs.Join r p /\ b = is_dir_node n).
Proof.
  intros Ha Hl Hwf Hh.
  destruct fuel as [| fuel]; [lia |].
  exists (listing fuel p (Dir m es)).
  destruct (@Walk_Both_listing w p fuel a m es Ha Hl Hwf) as [Hv Hf]; [lia |].
  split; [exact Hv |]. split; [exact Hf |].
  split; [now apply listing_NoDup |].
  split.
  - intros r n Hr Hn. apply listing_complete; trivial. lia.
  - intros x b. apply listing_sound.
Qed.

Lemma WalkBoth_every_entry_once_witness :
  exists seen : list (fs.Path * bool),
    value (run model_os (fs.Walk 5 "r" fs.WalkBoth recorder []) deep_world)
    = inl (None, seen)
    /\ final (run model_os (fs.Walk 5 "r" fs.WalkBoth recorder []) deep_world)
       = deep_world
    /\ NoDup (map fst seen)
    /\ (forall r n, r <> [] ->
          lookup (Dir 493%Z
                    [("a", Dir 493%Z
                       [("f", Reg 420%Z "x");
                        ("z", Dir 493%Z [("g", Reg 420%Z "y")])])]) r = Some n ->
          In (fold_left fs.Join r "r", is_dir_node n) seen)
    /\ (forall x b, In (x, b) seen ->
          exists r n, r <> []
            /\ lookup (Dir 493%Z
                    [("a", Dir 493%Z
                       [("f", Reg 420%Z "x");
                        ("z", Dir 493%Z [("g", Reg 420%Z "y")])])]) r = Some n
            /\ x = fold_left fs.Join r "r" /\ b = is_dir_node n).
Proof.
  apply (@WalkBoth_every_entry_once deep_world "r" 5 ["r"] 493%Z); try reflexivity.
  cbn. lia.
Defined.

(** ** [Clean] on a path that exists *)

Lemma exists_resolved (w : world) (p : fs.Path) :
  exists_ w p = true ->
  exists a n, namei w p = inr a /\ lookup (tree w) a = Some n.
Proof.
  unfold exists_, m_stat.
  destruct (namei w p) as [e | a] eqn:Ha; [discriminate |].
  destruct (lookup (tree w) a) as [n |] eqn:Hn; [| discriminate].
  intros _. exists a, n. now split.
Qed.

Lemma m_stat_resolved (op : string) (w : world) (p : fs.Path)
  (a : list string) (n : node) :
  namei w p = inr a -> lookup (tree w) a = Some n ->
  m_stat op w p = Ok (info_of n).
Proof. intros Ha Hn. unfold m_stat. now rewrite Ha, Hn. Qed.

(** X12.  For a path that exists, the cleaned path is the same entry:
    [Info] gives the same answer for both, so [Exists], [FileExists] and
    [DirExists] agree on them. *)
Theorem Clean_same_entry (w : world) (p : fs.Path) :
  exists_ w p = true ->
  value (run model_os (fs.Info (fs.Clean p)) w)
  = value (run model_os (fs.Info p) w)
  /\ exists_ w (fs.Clean p) = true
  /\ is_file w (fs.Clean p) = is_file w p
  /\ is_dir w (fs.Clean p) = is_dir w p.
Proof.
  intros H. destruct (exists_resolved w p H) as (a & n & Ha & Hn).
  pose proof (namei_Clean w p Ha) as Hc.
  rewrite !run_Info. unfold exists_, is_file, is_dir, fs.Clean.
  rewrite (m_stat_resolved "stat" w _ Hc Hn), (m_stat_resolved "stat" w _ Ha Hn).
  now repeat split.
Qed.

Lemma Clean_same_entry_witness :
  exists_ deep_world "r/a/z/../f" = true
  /\ is_file deep_world (fs.Clean "r/a/z/../f") = is_file deep_world "r/a/z/../f".
Proof.
  split; [reflexivity |].
  apply (@Clean_same_entry deep_world "r/a/z/../f"). reflexivity.
Defined.

(** ** [Walk] with [WalkFiles] in the model *)

Lemma Clean_Join (p n : string) :
  valid_name n = true -> Clean (Join p n) = Join p n.
Proof.
  intros Hn. rewrite (Join_name p n Hn).
  rewrite <- (rev_involutive (clean_elems p ++ [n])).
  apply Clean_render. now apply norm_stack_snoc.
Qed.

Section WalkFilesModel.
Variable w : world.
Variable p : fs.Path.

Let WfF := fs.Walk_func p fs.WalkFiles recorder.

Lemma WfF_file (path : string) (info : FileInfo) (acc : list (fs.Path * bool)) :
  below p path -> IsDir info = false ->
  yields (WfF path (Some info) None acc) w
         (None, (acc ++ [(path, false)])%list).
Proof.
  intros H Hd. unfold WfF, fs.Walk_func. rewrite (below_neq H), Hd.
  apply yields_Ret.
Qed.

Lemma WfF_dir (path : string) (info : FileInfo) (acc : list (fs.Path * bool)) :
  below p path -> IsDir info = true ->
  yields (WfF path (Some info) None acc) w
         (if fs.Dirname path =? p then None else Some SkipDir, acc).
Proof.
  intros H Hd. unfold WfF, fs.Walk_func. rewrite (below_neq H), Hd.
  apply yields_Ret.
Qed.

(** A regular file below the root is delivered. *)
Lemma walk_Files_file (fuel : nat) (path : string) (m : FileMode) (d : string)
  (acc : list (fs.Path * bool)) :
  below p path ->
  yields (walk WfF (S fuel) path (info_of (Reg m d)) acc) w
         (None, (acc ++ [(path, false)])%list).
Proof.
  intros H. rewrite walk_S, IsDir_info_of. cbn [is_dir_node negb].
  apply WfF_file; [assumption | apply IsDir_info_of].
Qed.

(** A directory below the top level is left at once. *)
Lemma walk_Files_nested_dir (fuel : nat) (path : string) (a : list string)
  (m : FileMode) (es : list (string * node)) (acc : list (fs.Path * bool)) :
  namei w path = inr a -> lookup (tree w) a = Some (Dir m es) ->
  below p path -> (fs.Dirname path =? p) = false ->
  yields (walk WfF (S fuel) path (info_of (Dir m es)) acc) w
         (Some SkipDir, acc).
Proof.
  intros Ha Hl Hb Hd. rewrite walk_S, IsDir_info_of. cbn [is_dir_node negb].
  eapply yields_call; [exact (model_readDirNames w path Ha Hl) |].
  cbv zeta. eapply yields_bind.
  - apply WfF_dir; [assumption | apply IsDir_info_of].
  - rewrite Hd. apply yields_Ret.
Qed.

Section Level2.
Variable fuel : nat.
Variable q : string.
Variable a : list string.
Variable m : FileMode.
Variable es : list (string * node).
Hypothesis q_a : namei w q = inr a.
Hypothesis a_dir : lookup (tree w) a = Some (Dir m es).
Hypothesis dir_wf : wf_node (Dir m es) = true.
Hypothesis q_below : below p q.
Hypothesis q_clean : Clean q = q.

Lemma walk_names_Files_2 (names : list string) :
  (forall name, In name names -> exists c, find_entry name es = Some c) ->
  forall acc,
    yields (walk_names WfF (walk WfF (S fuel)) q names acc) w
           (None, (acc ++ flat_map (file_entry q es) names)%list).
Proof.
  induction names as [| name rest IH]; intros Hnames acc.
  - cbn. rewrite app_nil_r. apply yields_Ret.
  - destruct (Hnames name (or_introl eq_refl)) as [c Hc].
    destruct (@wf_entries m es name c dir_wf (find_entry_In _ _ Hc))
      as (Hv & Hwf & Hh).
    assert (Hna : namei w (Join q name) = inr (a ++ [name])%list).
    { now apply namei_Join with (m := m) (es := es) (c := c). }
    assert (Hlc : lookup (tree w) (a ++ [name])%list = Some c).
    { now rewrite (lookup_snoc (tree w) a name a_dir). }
    assert (Hb : below p (Join q name)).
    { apply below_Join; [unfold below in q_below; lia | assumption]. }
    assert (IHr : forall acc',
               yields (walk_names WfF (walk WfF (S fuel)) q rest acc') w
                      (None, (acc' ++ flat_map (file_entry q es) rest)%list)).
    { apply IH. intros x Hx. apply Hnames. now right. }
    cbn [walk_names flat_map]. unfold file_entry at 1. rewrite Hc.
    eapply yields_call; [exact (model_Lstat w _ Hna Hlc) |].
    destruct c as [m' d | m' es'].
    + eapply yields_bind; [now apply walk_Files_file |].
      cbn beta iota. rewrite app_assoc. apply IHr.
    + eapply yields_bind.
      * apply walk_Files_nested_dir with (a := (a ++ [name])%list); trivial.
        unfold fs.Dirname, fs.Parent. rewrite (Dir_Join q name Hv), q_clean.
        now apply below_neq.
      * cbn beta iota. rewrite IsDir_info_of. cbn [is_dir_node negb orb is_SkipDir].
        apply IHr.
Qed.

End Level2.

Section Level1.
Variable fuel : nat.
Variable a : list string.
Variable m : FileMode.
Variable es : list (string * node).
Hypothesis p_a : namei w p = inr a.
Hypothesis a_dir : lookup (tree w) a = Some (Dir m es).
Hypothesis dir_wf : wf_node (Dir m es) = true.

Lemma walk_names_Files_1 (names : list string) :
  (forall name, In name names -> exists c, find_entry name es = Some c) ->
  forall acc,
    yields (walk_names WfF (walk WfF (S (S fuel))) p names acc) w
           (None, (acc ++ flat_map (files_block p es) names)%list).
Proof.
  induction names as [| name rest IH]; intros Hnames acc.
  - cbn. rewrite app_nil_r. apply yields_Ret.
  - destruct (Hnames name (or_introl eq_refl)) as [c Hc].
    destruct (@wf_entries m es name c dir_wf (find_entry_In _ _ Hc))
      as (Hv & Hwf & Hh).
    assert (Hna : namei w (Join p name) = inr (a ++ [name])%list).
    { now apply namei_Join with (m := m) (es := es) (c := c). }
    assert (Hlc : lookup (tree w) (a ++ [name])%list = Some c).
    { now rewrite (lookup_snoc (tree w) a name a_dir). }
    assert (Hb : below p (Join p name)).
    { apply below_Join; [lia | assumption]. }
    assert (IHr : forall acc',
               yields (walk_names WfF (walk WfF (S (S fuel))) p rest acc') w
                      (None, (acc' ++ flat_map (files_block p es) rest)%list)).
    { apply IH. intros x Hx. apply Hnames. now right. }
    cbn [walk_names flat_map]. unfold files_block at 1. rewrite Hc.
    eapply yields_call; [exact (model_Lstat w _ Hna Hlc) |].
    destruct c as [m' d | m' es'].
    + eapply yields_bind; [now apply walk_Files_file |].
      cbn beta iota. rewrite app_assoc. apply IHr.
    + assert (Hdn : fs.Dirname (Join p name) = Clean p).
      { unfold fs.Dirname, fs.Parent. now apply Dir_Join. }
      destruct (Clean p =? p) eqn:Hclean.
      * (* top level: the directory is entered *)
        eapply yields_bind with (v := (None, (acc ++ files_in (Join p name) es')%list)).
        -- rewrite walk_S, IsDir_info_of. cbn [is_dir_node negb].
           eapply yields_call; [exact (model_readDirNames w _ Hna Hlc) |].
           cbv zeta. eapply yields_bind.
           ++ apply WfF_dir; [assumption | apply IsDir_info_of].
           ++ rewrite Hdn, Hclean.
              apply walk_names_Files_2 with (a := (a ++ [name])%list) (m := m');
                trivial.
              ** now apply Clean_Join.
              ** intros x. apply sorted_name_entry.
        -- cbn beta iota. rewrite app_assoc. apply IHr.
      * (* the root is not written in clean form: no entry is top level *)
        eapply yields_bind.
        -- apply walk_Files_nested_dir with (a := (a ++ [name])%list); trivial.
           now rewrite Hdn.
        -- cbn beta iota. rewrite IsDir_info_of.
           cbn [is_dir_node negb orb is_SkipDir app]. apply IHr.
Qed.

Lemma Walk_Files_listing :
  yields (fs.Walk (S (S (S fuel))) p fs.WalkFiles recorder []) w
         (None, files_listing p es).
Proof.
  unfold fs.Walk.
  eapply yields_bind; [apply yields_DirExists |].
  rewrite (is_dir_resolved w p p_a a_dir). cbn [is_dir_node negb].
  unfold filepath_Walk.
  eapply yields_call; [exact (model_Lstat w p p_a a_dir) |].
  eapply yields_bind with (v := (None, files_listing p es)).
  - rewrite walk_S, IsDir_info_of. cbn [is_dir_node negb].
    eapply yields_call; [exact (model_readDirNames w p p_a a_dir) |].
    cbv zeta. eapply yields_bind with (v := (None, [])).
    + unfold fs.Walk_func. rewrite String.eqb_refl. apply yields_Ret.
    + cbn beta iota.
      apply (@walk_names_Files_1 (sort_strings (map fst es))
               (fun x => @sorted_name_entry es x) []).
  - apply yields_Ret.
Qed.

End Level1.

End WalkFilesModel.

(** ** What [WalkFiles] delivers *)

Lemma in_file_entry (path : string) (es : list (string * node))
  (name : string) (x : fs.Path) (b : bool) :
  In (x, b) (file_entry path es name) <->
  exists fm data, find_entry name es = Some (Reg fm data)
                  /\ x = Join path name /\ b = false.
Proof.
  unfold file_entry. split.
  - destruct (find_entry name es) as [[fm data | fm es'] |]; try contradiction.
    intros [H | []]. inversion H; subst. now exists fm, data.
  - intros (fm & data & -> & -> & ->). now left.
Qed.

Lemma in_files_in (path : string) (es : list (string * node))
  (x : fs.Path) (b : bool) :
  In (x, b) (files_in path es) <->
  exists name fm data, find_entry name es = Some (Reg fm data)
                       /\ x = Join path name /\ b = false.
Proof.
  unfold files_in. rewrite in_flat_map. split.
  - intros (name & _ & H). apply in_file_entry in H.
    destruct H as (fm & data & H). now exists name, fm, data.
  - intros (name & fm & data & Hf & Hx & Hb). exists name. split.
    + now apply entry_sorted_name with (c := Reg fm data).
    + apply in_file_entry. now exists fm, data.
Qed.

Lemma Join_name_inj (p n n' : string) :
  valid_name n = true -> valid_name n' = true ->
  Join p n = Join p n' -> n = n'.
Proof.
  intros Hn Hn' E. rewrite <- (Base_Join p n Hn), <- (Base_Join p n' Hn').
  now rewrite E.
Qed.

Lemma files_in_NoDup (path : string) (m : FileMode)
  (es : list (string * node)) :
  wf_node (Dir m es) = true -> NoDup (map fst (files_in path es)).
Proof.
  intros Hwf. unfold files_in. rewrite map_fst_flat_map.
  apply NoDup_flat_map.
  - now apply wf_names_NoDup with (m := m).
  - intros name _. unfold file_entry.
    destruct (find_entry name es) as [[fm data | fm es'] |]; cbn;
      repeat constructor; intros [].
  - intros name name' x _ _ H H'.
    apply in_map_fst in H. destruct H as [b H].
    apply in_map_fst in H'. destruct H' as [b' H'].
    apply in_file_entry in H. destruct H as (fm & data & Hf & Hx & _).
    apply in_file_entry in H'. destruct H' as (fm' & data' & Hf' & Hx' & _).
    destruct (@wf_entries m es name _ Hwf (find_entry_In _ _ Hf)) as (Hv & _).
    destruct (@wf_entries m es name' _ Hwf (find_entry_In _ _ Hf')) as (Hv' & _).
    apply (@Join_name_inj path name name' Hv Hv'). congruence.
Qed.

Lemma files_block_key (p : string) (m : FileMode) (es : list (string * node))
  (name : string) (x : fs.Path) (b : bool) :
  wf_node (Dir m es) = true ->
  In (x, b) (files_block p es name) ->
  nth_error (clean_elems x) (List.length (clean_elems p)) = Some name.
Proof.
  intros Hwf H. unfold files_block in H.
  destruct (find_entry name es) as [c |] eqn:Hc; [| contradiction].
  destruct (@wf_entries m es name c Hwf (find_entry_In _ _ Hc)) as (Hv & Hwc & _).
  assert (Hk : forall r, nth_error ((clean_elems p ++ [name]) ++ r)
                           (List.length (clean_elems p)) = Some name).
  { intros r. rewrite <- app_assoc. rewrite nth_error_app2 by lia.
    now rewrite Nat.sub_diag. }
  destruct c as [fm data | fm es'].
  - destruct H as [H | []]. inversion H; subst.
    rewrite clean_elems_Join by assumption.
    rewrite <- (app_nil_r (clean_elems p ++ [name])). apply Hk.
  - destruct (Clean p =? p); [| contradiction].
    apply in_files_in in H. destruct H as (n2 & fm2 & d2 & Hf2 & -> & _).
    destruct (@wf_entries fm es' n2 _ Hwc (find_entry_In _ _ Hf2)) as (Hv2 & _).
    rewrite !clean_elems_Join by assumption. apply Hk.
Qed.

Lemma files_listing_NoDup (p : string) (m : FileMode)
  (es : list (string * node)) :
  wf_node (Dir m es) = true -> NoDup (map fst (files_listing p es)).
Proof.
  intros Hwf. unfold files_listing. rewrite map_fst_flat_map.
  apply NoDup_flat_map.
  - now apply wf_names_NoDup with (m := m).
  - intros name _. unfold files_block.
    destruct (find_entry name es) as [[fm data | fm es'] |] eqn:Hc;
      [repeat constructor; intros [] | | constructor].
    destruct (Clean p =? p); [| constructor].
    destruct (@wf_entries m es name _ Hwf (find_entry_In _ _ Hc)) as (_ & Hwc & _).
    now apply files_in_NoDup with (m := fm).
  - intros name name' x _ _ H H'.
    apply in_map_fst in H. destruct H as [b H].
    apply in_map_fst in H'. destruct H' as [b' H'].
    pose proof (files_block_key _ m _ _ _ _ Hwf H) as K.
    pose proof (files_block_key _ m _ _ _ _ Hwf H') as K'.
    congruence.
Qed.

Lemma in_files_listing (p : string) (m : FileMode) (es : list (string * node))
  (x : fs.Path) (b : bool) :
  In (x, b) (files_listing p es) <->
  b = false
  /\ exists r fm data,
       lookup (Dir m es) r = Some (Reg fm data)
       /\ x = fold_left fs.Join r p
       /\ (List.length r = 1 \/ (List.length r = 2 /\ fs.Clean p = p)).
Proof.
  unfold files_listing. rewrite in_flat_map. split.
  - intros (name & _ & H). unfold files_block in H.
    destruct (find_entry name es) as [[fm data | fm es'] |] eqn:Hc;
      [| | contradiction].
    + destruct H as [H | []]. inversion H; subst. split; [reflexivity |].
      exists [name], fm, data. cbn. rewrite Hc. repeat split. now left.
    + destruct (Clean p =? p) eqn:Hcl; [| contradiction].
      apply String.eqb_eq in Hcl.
      apply in_files_in in H. destruct H as (n2 & fm2 & d2 & Hf2 & -> & ->).
      split; [reflexivity |].
      exists [name; n2], fm2, d2. cbn. rewrite Hc, Hf2. repeat split.
      right. now split.
  - intros (-> & r & fm & data & Hl & -> & Hr).
    destruct r as [| name r]; [cbn in Hr; destruct Hr as [? | [? _]]; lia |].
    cbn [lookup] in Hl.
    destruct (find_entry name es) as [c |] eqn:Hc; [| discriminate].
    exists name. split; [now apply entry_sorted_name with (c := c) |].
    unfold files_block. rewrite Hc.
    destruct r as [| n2 r].
    + cbn in Hl. inversion Hl; subst. now left.
    + destruct r as [| n3 r];
        [| cbn in Hr; destruct Hr as [? | [? _]]; lia].
      destruct Hr as [Hr | [_ Hcl]]; [cbn in Hr; lia |].
      destruct c as [fm' d' | fm' es']; [discriminate |].
      cbn [lookup] in Hl.
      destruct (find_entry n2 es') as [c2 |] eqn:Hc2; [| discriminate].
      inversion Hl; subst c2.
      unfold fs.Clean in Hcl. rewrite Hcl, String.eqb_refl.
      apply in_files_in. now exists n2, fm, data.
Qed.

(** X13.  [Walk] with [WalkFiles] on a directory of the model, with fuel 3
    or more: no error, the world is unchanged, no path is delivered twice,
    and what is delivered is exactly this: the regular files that are
    entries of the root, and, only when the root path is written in clean
    form, the regular files that are entries of a directory of the root.
    Regular files further down are not delivered. *)
Theorem WalkFiles_two_levels (w : world) (p : fs.Path) (fuel : nat)
  (a : list string) (m : FileMode) (es : list (string * node)) :
  namei w p = inr a ->
  lookup (tree w) a = Some (Dir m es) ->
  wf_node (Dir m es) = true ->
  3 <= fuel ->
  exists seen : list (fs.Path * bool),
    value (run model_os (fs.Walk fuel p fs.WalkFiles recorder []) w)
    = inl (None, seen)
    /\ final (run model_os (fs.Walk fuel p fs.WalkFiles recorder []) w) = w
    /\ NoDup (map fst seen)
    /\ (forall x b,
          In (x, b) seen <->
          b = false
          /\ exists r fm data,
               lookup (Dir m es) r = Some (Reg fm data)
               /\ x = fold_left fs.Join r p
               /\ (List.length r = 1
                   \/ (List.length r = 2 /\ fs.Clean p = p))).
Proof.
  intros Ha Hl Hwf Hfuel.
  destruct fuel as [| [| [| fuel]]]; try lia.
  exists (files_listing p es).
  destruct (@Walk_Files_listing w p fuel a m es Ha Hl Hwf) as [Hv Hf].
  split; [exact Hv |]. split; [exact Hf |].
  split; [now apply files_listing_NoDup with (m := m) |].
  intros x b. now apply in_files_listing.
Qed.

Lemma WalkFiles_two_levels_witness :
  exists seen : list (fs.Path * bool),
    value (run model_os (fs.Walk 5 "r" fs.WalkFiles recorder []) deep_world)
    = inl (None, seen)
    /\ final (run model_os (fs.Walk 5 "r" fs.WalkFiles recorder []) deep_world)
       = deep_world
    /\ NoDup (map fst seen)
    /\ (forall x b,
          In (x, b) seen <->
          b = false
          /\ exists r fm data,
               lookup (Dir 493%Z
                         [("a", Dir 493%Z
                            [("f", Reg 420%Z "x");
                             ("z", Dir 493%Z [("g", Reg 420%Z "y")])])]) r
               = Some (Reg fm data)
               /\ x = fold_left fs.Join r "r"
               /\ (List.length r = 1
                   \/ (List.length r = 2 /\ fs.Clean "r" = "r"))).
Proof.
  apply (@WalkFiles_two_levels deep_world "r" 5 ["r"] 493%Z); try reflexivity.
  lia.
Defined.

(** ** [Walk] with [WalkDirs] in the model *)

Section WalkDirsModel.
Variable w : world.
Variable p : fs.Path.

Let WfD := fs.Walk_func p fs.WalkDirs recorder.

Lemma WfD_dir (path : string) (info : FileInfo) (acc : list (fs.Path * bool)) :
  below p path -> IsDir info = true ->
  yields (WfD path (Some info) None acc) w
         (None, (acc ++ [(path, true)])%list).
Proof.
  intros H Hd. unfold WfD, fs.Walk_func. rewrite (below_neq H), Hd.
  apply yields_Ret.
Qed.

Lemma walk_Dirs_file (fuel : nat) (path : string) (m : FileMode) (d : string)
  (acc : list (fs.Path * bool)) :
  below p path ->
  yields (walk WfD (S fuel) path (info_of (Reg m d)) acc) w
         (if fs.Dirname path =? p then None else Some SkipDir, acc).
Proof.
  intros H. rewrite walk_S, IsDir_info_of. cbn [is_dir_node negb].
  unfold WfD, fs.Walk_func. rewrite (below_neq H), IsDir_info_of.
  apply yields_Ret.
Qed.

Section Names.
Variable fuel' : nat.
Hypothesis rec_ok :
  forall q a fm es' acc,
    namei w q = inr a -> lookup (tree w) a = Some (Dir fm es') ->
    wf_node (Dir fm es') = true -> height (Dir fm es') <= fuel' ->
    below p q -> Clean q = q ->
    exists e, (e = None \/ e = Some SkipDir)
              /\ yields (walk WfD (S fuel') q (info_of (Dir fm es')) acc) w
                        (e, (acc ++ (q, true)
                                 :: dirs_listing fuel' false q (Dir fm es'))%list).

Variable path : string.
Variable a : list string.
Variable m : FileMode.
Variable es : list (string * node).
Variable skip : bool.
Hypothesis path_a : namei w path = inr a.
Hypothesis a_dir : lookup (tree w) a = Some (Dir m es).
Hypothesis dir_wf : wf_node (Dir m es) = true.
Hypothesis dir_height : height (Dir m es) <= S fuel'.
Hypothesis path_below :
  List.length (clean_elems p) <= List.length (clean_elems path).
Hypothesis path_skip : (Clean path =? p) = skip.

Lemma walk_names_Dirs (names : list string) :
  (forall name, In name names -> exists c, find_entry name es = Some c) ->
  forall acc,
    yields (walk_names WfD (walk WfD (S fuel')) path names acc) w
           (if stopped skip es names then Some SkipDir else None,
            (acc ++ flat_map (dirs_block fuel' path es)
                             (opened skip es names))%list).
Proof.
  induction names as [| name rest IH]; intros Hnames acc.
  - unfold stopped, opened. cbn. rewrite andb_false_r.
    destruct skip; cbn; rewrite app_nil_r; apply yields_Ret.
  - destruct (Hnames name (or_introl eq_refl)) as [c Hc].
    destruct (@wf_entries m es name c dir_wf (find_entry_In _ _ Hc))
      as (Hv & Hwf & Hh).
    assert (Hna : namei w (Join path name) = inr (a ++ [name])%list).
    { now apply namei_Join with (m := m) (es := es) (c := c). }
    assert (Hlc : lookup (tree w) (a ++ [name])%list = Some c).
    { now rewrite (lookup_snoc (tree w) a name a_dir). }
    assert (Hb : below p (Join path name)) by now apply below_Join.
    assert (Hdn : (fs.Dirname (Join path name) =? p) = skip).
    { unfold fs.Dirname, fs.Parent. now rewrite (Dir_Join path name Hv). }
    assert (IHr : forall acc',
               yields (walk_names WfD (walk WfD (S fuel')) path rest acc') w
                      (if stopped skip es rest then Some SkipDir else None,
                       (acc' ++ flat_map (dirs_block fuel' path es)
                                         (opened skip es rest))%list)).
    { apply IH. intros x Hx. apply Hnames. now right. }
    cbn [walk_names].
    eapply yields_call; [exact (model_Lstat w _ Hna Hlc) |].
    destruct c as [m' d | m' es'].
    + (* a regular file *)
      assert (Hnd : names_dir es name = false) by (unfold names_dir; now rewrite Hc).
      eapply yields_bind; [now apply walk_Dirs_file |].
      rewrite Hdn. unfold stopped, opened. cbn [forallb filter take_dirs].
      rewrite Hnd. cbn [andb negb].
      destruct skip; cbn beta iota.
      * specialize (IHr acc). unfold stopped, opened in IHr. exact IHr.
      * rewrite IsDir_info_of. cbn [is_dir_node negb orb flat_map andb].
        rewrite app_nil_r. apply yields_Ret.
    + (* a directory *)
      assert (Hnd : names_dir es name = true) by (unfold names_dir; now rewrite Hc).
      destruct (@rec_ok (Join path name) (a ++ [name])%list m' es' acc)
        as (e & He & Hy); trivial; [lia | now apply Clean_Join |].
      eapply yields_bind; [exact Hy |].
      assert (Hgoal :
        yields (walk_names WfD (walk WfD (S fuel')) path rest
                  (acc ++ (Join path name, true)
                        :: dirs_listing fuel' false (Join path name) (Dir m' es'))%list)
               w
               (if stopped skip es (name :: rest) then Some SkipDir else None,
                (acc ++ flat_map (dirs_block fuel' path es)
                                 (opened skip es (name :: rest)))%list)).
      { replace (stopped skip es (name :: rest)) with (stopped skip es rest)
          by (unfold stopped; cbn [forallb]; now rewrite Hnd).
        replace (opened skip es (name :: rest)) with (name :: opened skip es rest)
          by (unfold opened; cbn [filter take_dirs]; rewrite Hnd; now destruct skip).
        assert (Hbk : dirs_block fuel' path es name
                      = (Join path name, true)
                        :: dirs_listing fuel' false (Join path name) (Dir m' es'))
          by (unfold dirs_block; now rewrite Hc).
        cbn [flat_map]. rewrite Hbk, app_assoc. apply IHr. }
      cbn beta iota. rewrite IsDir_info_of. cbn [is_dir_node negb orb].
      destruct He as [-> | ->]; exact Hgoal.
Qed.

End Names.

Lemma dirs_listing_Dir (fuel' : nat) (skip : bool) (path : string)
  (m : FileMode) (es : list (string * node)) :
  dirs_listing (S fuel') skip path (Dir m es)
  = flat_map (dirs_block fuel' path es) (open_names skip es).
Proof. reflexivity. Qed.

Lemma stopped_cases (skip : bool) (es : list (string * node))
  (names : list string) :
  (if stopped skip es names then Some SkipDir else None) = None
  \/ (if stopped skip es names then Some SkipDir else None) = Some SkipDir.
Proof. destruct (stopped skip es names); [now right | now left]. Qed.

Lemma walk_Dirs_dir (fuel : nat) :
  forall q a fm es' acc,
    namei w q = inr a -> lookup (tree w) a = Some (Dir fm es') ->
    wf_node (Dir fm es') = true -> height (Dir fm es') <= fuel ->
    below p q -> Clean q = q ->
    exists e, (e = None \/ e = Some SkipDir)
              /\ yields (walk WfD (S fuel) q (info_of (Dir fm es')) acc) w
                        (e, (acc ++ (q, true)
                                 :: dirs_listing fuel false q (Dir fm es'))%list).
Proof.
  induction fuel as [| fuel' IH]; intros q a fm es' acc Ha Hl Hwf Hh Hb Hcl.
  - pose proof (height_Dir_pos fm es'). lia.
  - exists (if stopped false es' (sort_strings (map fst es'))
            then Some SkipDir else None).
    split; [apply stopped_cases |].
    rewrite walk_S, IsDir_info_of. cbn [is_dir_node negb].
    eapply yields_call; [exact (model_readDirNames w q Ha Hl) |].
    cbv zeta. eapply yields_bind.
    + apply WfD_dir; [assumption | apply IsDir_info_of].
    + cbn beta iota. rewrite dirs_listing_Dir.
      replace (acc ++ (q, true)
                   :: flat_map (dirs_block fuel' q es') (open_names false es'))%list
        with ((acc ++ [(q, true)])
              ++ flat_map (dirs_block fuel' q es') (open_names false es'))%list
        by (now rewrite <- app_assoc).
      apply walk_names_Dirs with (a := a) (m := fm); trivial.
      * unfold below in Hb. lia.
      * rewrite Hcl. now apply below_neq.
      * intros name. apply sorted_name_entry.
Qed.

Lemma Walk_Dirs_listing (fuel : nat) (a : list string) (m : FileMode)
  (es : list (string * node)) :
  namei w p = inr a -> lookup (tree w) a = Some (Dir m es) ->
  wf_node (Dir m es) = true -> height (Dir m es) <= S fuel ->
  yields (fs.Walk (S (S fuel)) p fs.WalkDirs recorder []) w
         (None, dirs_listing (S fuel) (Clean p =? p) p (Dir m es)).
Proof.
  intros Ha Hl Hwf Hh. unfold fs.Walk.
  eapply yields_bind; [apply yields_DirExists |].
  rewrite (is_dir_resolved w p Ha Hl). cbn [is_dir_node negb].
  unfold filepath_Walk.
  eapply yields_call; [exact (model_Lstat w p Ha Hl) |].
  eapply yields_bind
    with (v := (if stopped (Clean p =? p) es (sort_strings (map fst es))
                then Some SkipDir else None,
                dirs_listing (S fuel) (Clean p =? p) p (Dir m es))).
  - rewrite walk_S, IsDir_info_of. cbn [is_dir_node negb].
    eapply yields_call; [exact (model_readDirNames w p Ha Hl) |].
    cbv zeta. eapply yields_bind with (v := (None, [])).
    + unfold fs.Walk_func. rewrite String.eqb_refl. apply yields_Ret.
    + cbn beta iota. rewrite dirs_listing_Dir.
      apply (@walk_names_Dirs fuel (@walk_Dirs_dir fuel) p a m es (Clean p =? p))
        with (acc := []); trivial.
      intros name. apply sorted_name_entry.
  - destruct (stopped (Clean p =? p) es (sort_strings (map fst es)));
      apply yields_Ret.
Qed.

End WalkDirsModel.

(** ** What [WalkDirs] delivers *)

Lemma take_dirs_In (es : list (string * node)) (names : list string)
  (name : string) :
  In name (take_dirs es names) -> In name names /\ names_dir es name = true.
Proof.
  induction names as [| n r IH]; cbn; [contradiction |].
  destruct (names_dir es n) eqn:E; [| contradiction].
  intros [-> | H]; [now split; [left |] |].
  destruct (IH H). split; [now right | assumption].
Qed.

Lemma take_dirs_NoDup (es : list (string * node)) (names : list string) :
  NoDup names -> NoDup (take_dirs es names).
Proof.
  induction names as [| n r IH]; cbn; intros H; [constructor |].
  inversion H; subst. destruct (names_dir es n); [| constructor].
  constructor; [| now apply IH].
  intros Hin. now apply take_dirs_In in Hin.
Qed.

Lemma opened_In (skip : bool) (es : list (string * node))
  (names : list string) (name : string) :
  In name (opened skip es names) -> In name names /\ names_dir es name = true.
Proof.
  unfold opened. destruct skip.
  - now rewrite filter_In.
  - apply take_dirs_In.
Qed.

Lemma opened_NoDup (skip : bool) (es : list (string * node))
  (names : list string) :
  NoDup names -> NoDup (opened skip es names).
Proof.
  unfold opened. destruct skip.
  - apply NoDup_filter.
  - apply take_dirs_NoDup.
Qed.

Lemma names_dir_entry (es : list (string * node)) (name : string) :
  names_dir es name = true ->
  exists fm es', find_entry name es = Some (Dir fm es').
Proof.
  unfold names_dir.
  destruct (find_entry name es) as [[fm d | fm es'] |]; try discriminate.
  intros _. now exists fm, es'.
Qed.

Lemma in_dirs_block (fuel' : nat) (path : string) (es : list (string * node))
  (name : string) (x : fs.Path) (b : bool) :
  In (x, b) (dirs_block fuel' path es name) ->
  exists c, find_entry name es = Some c
            /\ ((x, b) = (Join path name, true)
                \/ In (x, b) (dirs_listing fuel' false (Join path name) c)).
Proof.
  unfold dirs_block. destruct (find_entry name es) as [c |]; [| contradiction].
  intros [H | H]; exists c; split; trivial; [left; now symmetry | now right].
Qed.

Lemma dirs_in_listing (fuel : nat) :
  forall skip path n x b,
    In (x, b) (dirs_listing fuel skip path n) -> In (x, b) (listing fuel path n).
Proof.
  induction fuel as [| fuel' IH]; intros skip path n x b H; [contradiction |].
  destruct n as [m d | m es]; [contradiction |].
  rewrite dirs_listing_Dir in H. rewrite listing_Dir.
  apply in_flat_map in H. destruct H as (name & Hn & H).
  apply opened_In in Hn. destruct Hn as [Hn Hd].
  apply in_flat_map. exists name. split; [assumption |].
  apply names_dir_entry in Hd. destruct Hd as (fm & es' & Hc).
  apply in_dirs_block in H. destruct H as (c & Hc' & H).
  rewrite Hc in Hc'. inversion Hc'; subst c.
  unfold block. rewrite Hc.
  destruct H as [H | H]; [left; now symmetry | right; now apply IH in H].
Qed.

Lemma dirs_block_in_block (fuel' : nat) (skip : bool) (path : string)
  (es : list (string * node)) (name : string) (x : fs.Path) (b : bool) :
  In name (open_names skip es) ->
  In (x, b) (dirs_block fuel' path es name) ->
  In (x, b) (block fuel' path es name).
Proof.
  intros Hn H. apply opened_In in Hn. destruct Hn as [_ Hd].
  apply names_dir_entry in Hd. destruct Hd as (fm & es' & Hc).
  apply in_dirs_block in H. destruct H as (c & Hc' & H).
  rewrite Hc in Hc'. inversion Hc'; subst c.
  unfold block. rewrite Hc.
  destruct H as [H | H]; [left; now symmetry | right; now apply dirs_in_listing in H].
Qed.

Lemma dirs_listing_NoDup (fuel : nat) :
  forall skip path n,
    wf_node n = true -> NoDup (map fst (dirs_listing fuel skip path n)).
Proof.
  induction fuel as [| fuel' IH]; intros skip path n Hwf; [constructor |].
  destruct n as [m d | m es]; [constructor |].
  rewrite dirs_listing_Dir, map_fst_flat_map.
  apply NoDup_flat_map.
  - apply opened_NoDup. now apply wf_names_NoDup with (m := m).
  - intros name _. unfold dirs_block.
    destruct (find_entry name es) as [c |] eqn:Hc; [| constructor].
    destruct (@wf_entries m es name c Hwf (find_entry_In _ _ Hc))
      as (Hv & Hwc & _).
    cbn [map fst]. constructor; [| now apply IH].
    intros Hin. apply in_map_fst in Hin. destruct Hin as [b Hin].
    apply dirs_in_listing in Hin.
    destruct (listing_elems _ _ _ _ _ Hwc Hin) as (r & Hr & E).
    apply (f_equal (@List.length string)) in E.
    rewrite length_app in E. destruct r; [contradiction | cbn in E; lia].
  - intros name name' x Hn Hn' H H'.
    apply in_map_fst in H. destruct H as [b H].
    apply in_map_fst in H'. destruct H' as [b' H'].
    apply (dirs_block_in_block _ skip _ _ _ _ _ Hn) in H.
    apply (dirs_block_in_block _ skip _ _ _ _ _ Hn') in H'.
    pose proof (block_key _ _ m _ _ _ _ Hwf H) as K.
    pose proof (block_key _ _ m _ _ _ _ Hwf H') as K'.
    congruence.
Qed.

Lemma in_open_names_existsb (skip : bool) (es : list (string * node))
  (name : string) :
  existsb (String.eqb name) (open_names skip es) = true
  <-> In name (open_names skip es).
Proof.
  rewrite existsb_exists. split.
  - intros (y & Hy & E). apply String.eqb_eq in E. now subst.
  - intros H. exists name. split; [assumption | apply String.eqb_refl].
Qed.

Lemma dirs_listing_reach (fuel : nat) :
  forall skip path n x b,
    In (x, b) (dirs_listing fuel skip path n) ->
    b = true
    /\ exists r, r <> [] /\ reach skip n r = true /\ x = fold_left Join r path.
Proof.
  induction fuel as [| fuel' IH]; intros skip path n x b H; [contradiction |].
  destruct n as [m d | m es]; [contradiction |].
  rewrite dirs_listing_Dir in H. apply in_flat_map in H.
  destruct H as (name & Hn & H).
  apply in_dirs_block in H. destruct H as (c & Hc & [H | H]).
  - inversion H; subst. split; [reflexivity |].
    exists [name]. repeat split; [discriminate |].
    cbn [reach]. rewrite Hc.
    now rewrite (proj2 (in_open_names_existsb skip es name) Hn).
  - destruct (IH _ _ _ _ _ H) as (-> & r & Hr & Hreach & ->).
    split; [reflexivity |].
    exists (name :: r). repeat split; [discriminate |].
    cbn [reach]. rewrite Hc, Hreach.
    now rewrite (proj2 (in_open_names_existsb skip es name) Hn).
Qed.

Lemma reach_dirs_listing (fuel : nat) :
  forall skip path n r,
    height n <= fuel -> r <> [] -> reach skip n r = true ->
    In (fold_left Join r path, true) (dirs_listing fuel skip path n).
Proof.
  induction fuel as [| fuel' IH]; intros skip path n r Hh Hr Hreach.
  - destruct r as [| name r]; [contradiction |].
    destruct n as [m d | m es]; [discriminate |].
    pose proof (height_Dir_pos m es). lia.
  - destruct r as [| name r]; [contradiction |].
    destruct n as [m d | m es]; [discriminate |].
    cbn [reach] in Hreach. apply andb_true_iff in Hreach.
    destruct Hreach as [Hn Hreach].
    apply in_open_names_existsb in Hn.
    destruct (find_entry name es) as [c |] eqn:Hc; [| discriminate].
    rewrite dirs_listing_Dir. apply in_flat_map. exists name.
    split; [assumption |].
    unfold dirs_block. rewrite Hc. cbn [fold_left].
    destruct r as [| name' r']; [now left |].
    right. apply IH; trivial; [| discriminate].
    pose proof (height_child m es _ _ (find_entry_In _ _ Hc)). lia.
Qed.

Lemma reach_is_directory (r : list string) :
  forall skip n,
    r <> [] -> reach skip n r = true ->
    exists fm es', lookup n r = Some (Dir fm es').
Proof.
  induction r as [| name r IH]; intros skip n Hr H; [contradiction |].
  destruct n as [m d | m es]; [discriminate |].
  cbn [reach] in H. apply andb_true_iff in H. destruct H as [Hn H].
  apply in_open_names_existsb in Hn. apply opened_In in Hn.
  destruct Hn as [_ Hd]. apply names_dir_entry in Hd.
  destruct Hd as (fm & es' & Hc). rewrite Hc in H. cbn [lookup]. rewrite Hc.
  destruct r as [| name' r'].
  - now exists fm, es'.
  - apply (IH false); [discriminate | assumption].
Qed.

(** X14.  [Walk] with [WalkDirs] on a directory of the model, with fuel
    above the height of the tree: no error, the world is unchanged, no path
    is delivered twice, only directories of the tree are delivered, and a
    directory is delivered exactly when, in each directory on the way from
    the root to it, its name comes in the sorted names before any regular
    file; in the root, and only when the root path is written in clean
    form, regular files do not count. *)
Theorem WalkDirs_up_to_first_file (w : world) (p : fs.Path) (fuel : nat)
  (a : list string) (m : FileMode) (es : list (string * node)) :
  namei w p = inr a ->
  lookup (tree w) a = Some (Dir m es) ->
  wf_node (Dir m es) = true ->
  height (Dir m es) < fuel ->
  exists seen : list (fs.Path * bool),
    value (run model_os (fs.Walk fuel p fs.WalkDirs recorder []) w)
    = inl (None, seen)
    /\ final (run model_os (fs.Walk fuel p fs.WalkDirs recorder []) w) = w
    /\ NoDup (map fst seen)
    /\ (forall x b,
          In (x, b) seen <->
          b = true
          /\ exists r, r <> []
               /\ reach (fs.Clean p =? p) (Dir m es) r = true
               /\ x = fold_left fs.Join r p)
    /\ (forall r, r <> [] -> reach (fs.Clean p =? p) (Dir m es) r = true ->
          exists fm es', lookup (Dir m es) r = Some (Dir fm es')).
Proof.
  intros Ha Hl Hwf Hh.
  pose proof (height_Dir_pos m es) as Hpos.
  destruct fuel as [| [| fuel]]; try lia.
  exists (dirs_listing (S fuel) (Clean p =? p) p (Dir m es)).
  destruct (@Walk_Dirs_listing w p fuel a m es Ha Hl Hwf) as [Hv Hf]; [lia |].
  split; [exact Hv |]. split; [exact Hf |].
  split; [now apply dirs_listing_NoDup |].
  split.
  - intros x b. split.
    + apply dirs_listing_reach.
    + intros (-> & r & Hr & Hreach & ->).
      apply reach_dirs_listing; trivial. lia.
  - intros r. apply reach_is_directory.
Qed.

Lemma WalkDirs_up_to_first_file_witness :
  exists seen : list (fs.Path * bool),
    value (run model_os (fs.Walk 5 "r" fs.WalkDirs recorder []) deep_world)
    = inl (None, seen)
    /\ final (run model_os (fs.Walk 5 "r" fs.WalkDirs recorder []) deep_world)
       = deep_world
    /\ NoDup (map fst seen)
    /\ (forall x b,
          In (x, b) seen <->
          b = true
          /\ exists r, r <> []
               /\ reach (fs.Clean "r" =? "r")
                    (Dir 493%Z
                       [("a", Dir 493%Z
                          [("f", Reg 420%Z "x");
                           ("z", Dir 493%Z [("g", Reg 420%Z "y")])])]) r = true
               /\ x = fold_left fs.Join r "r")
    /\ (forall r, r <> [] ->
          reach (fs.Clean "r" =? "r")
            (Dir 493%Z
               [("a", Dir 493%Z
                  [("f", Reg 420%Z "x");
                   ("z", Dir 493%Z [("g", Reg 420%Z "y")])])]) r = true ->
          exists fm es',
            lookup (Dir 493%Z
                      [("a", Dir 493%Z
                         [("f", Reg 420%Z "x");
                          ("z", Dir 493%Z [("g", Reg 420%Z "y")])])]) r
            = Some (Dir fm es')).
Proof.
  apply (@WalkDirs_up_to_first_file deep_world "r" 5 ["r"] 493%Z);
    try reflexivity.
  cbn. lia.
Defined.

(** ** [Count] in the model *)

Lemma length_flat_map {U T : Type} (f : U -> list T) (l : list U) :
  List.length (flat_map f l) = list_sum (map (fun a => List.length (f a)) l).
Proof.
  induction l as [| a l IH]; cbn; [reflexivity |].
  now rewrite length_app, IH.
Qed.

Lemma list_sum_perm (l l' : list nat) :
  Permutation l l' -> list_sum l = list_sum l'.
Proof.
  induction 1 as [| x l l' _ IH | x y l | l l' l'' _ IH1 _ IH2].
  - reflexivity.
  - change (x + list_sum l = x + list_sum l'). now rewrite IH.
  - change (y + (x + list_sum l) = x + (y + list_sum l)). lia.
  - now rewrite IH1.
Qed.

Lemma find_entry_NoDup (es : list (string * node)) (x : string) (c : node) :
  NoDup (map fst es) -> In (x, c) es -> find_entry x es = Some c.
Proof.
  induction es as [| [y d] r IH]; cbn; intros Hnd Hin; [contradiction |].
  inversion Hnd as [| ? ? Hy Hr]; subst.
  destruct Hin as [E | Hin].
  - inversion E; subst. now rewrite String.eqb_refl.
  - destruct (y =? x) eqn:Eyx; [| now apply IH].
    apply String.eqb_eq in Eyx. subst. exfalso. apply Hy.
    now apply (in_map fst) in Hin.
Qed.

Lemma entries_Dir (m : FileMode) (es : list (string * node)) :
  entries (Dir m es) = list_sum (map (fun xc => S (entries (snd xc))) es).
Proof.
  induction es as [| [y d] r IH]; [reflexivity |].
  change (entries (Dir m ((y, d) :: r)))
    with (S (entries d) + entries (Dir m r)).
  rewrite IH. reflexivity.
Qed.

Lemma wf_names (m : FileMode) (es : list (string * node)) :
  wf_node (Dir m es) = true -> NoDup (map fst es).
Proof.
  cbn [wf_node]. intros H.
  apply andb_true_iff in H. destruct H as [H _].
  apply andb_true_iff in H. destruct H as [_ H].
  now apply nodupb_NoDup.
Qed.

Lemma length_listing (fuel : nat) :
  forall path n,
    wf_node n = true -> height n <= fuel ->
    List.length (listing fuel path n) = entries n.
Proof.
  induction fuel as [| fuel' IH]; intros path n Hwf Hh.
  - destruct n as [m d | m es]; [reflexivity |].
    pose proof (height_Dir_pos m es). lia.
  - destruct n as [m d | m es]; [reflexivity |].
    rewrite listing_Dir, length_flat_map, entries_Dir.
    rewrite (list_sum_perm
               (Permutation_map _ (sort_strings_perm (map fst es)))).
    rewrite map_map. f_equal. apply map_ext_in. intros [x c] Hin.
    cbn [fst snd]. unfold block.
    rewrite (find_entry_NoDup es x c (wf_names m es Hwf) Hin).
    destruct (@wf_entries m es x c Hwf Hin) as (_ & Hwc & Hhc).
    cbn [List.length]. rewrite IH; trivial. lia.
Qed.

(** X15.  [Count] with [WalkBoth] on a directory of the model, with fuel
    above the height of the tree: the number of entries below the root
    (modulo 2^64), and the world is unchanged. *)
Theorem Count_WalkBoth_entries (w : world) (p : fs.Path) (fuel : nat)
  (a : list string) (m : FileMode) (es : list (string * node)) :
  namei w p = inr a ->
  lookup (tree w) a = Some (Dir m es) ->
  wf_node (Dir m es) = true ->
  height (Dir m es) < fuel ->
  value (run model_os (fs.Count fuel p fs.WalkBoth) w)
  = inl (Z.of_nat (entries (Dir m es)) mod 2 ^ 64)%Z
  /\ final (run model_os (fs.Count fuel p fs.WalkBoth) w) = w.
Proof.
  intros Ha Hl Hwf Hh.
  destruct fuel as [| fuel]; [lia |].
  destruct (@Walk_Both_listing w p fuel a m es Ha Hl Hwf) as [Hv Hf]; [lia |].
  assert (H0 : counts 0%Z []) by reflexivity.
  destruct (@sim_Walk world model_os Z (list (fs.Path * bool)) counts
              fs.Count_walker recorder
              (fun path d n seen => @Count_walker_recorder world model_os path d n seen)
              p fs.WalkBoth (S fuel) 0%Z [] H0 w) as (Hsf & _ & Hsv).
  rewrite Hv in Hsv. rewrite Hf in Hsf.
  destruct (value (run model_os (fs.Walk (S fuel) p fs.WalkBoth fs.Count_walker 0%Z) w))
    as [[e n] |] eqn:Ev; [| contradiction].
  destruct Hsv as [-> Hn]. unfold counts in Hn.
  rewrite length_listing in Hn by (trivial; lia).
  unfold fs.Count. rewrite run_bind, run_DirExists. cbn [value final calls].
  rewrite (is_dir_resolved w p Ha Hl). cbn [is_dir_node negb]. cbv zeta.
  rewrite run_bind, Ev. cbn [value final calls run].
  split; [now rewrite Hn | exact Hsf].
Qed.

Lemma Count_WalkBoth_entries_witness :
  value (run model_os (fs.Count 5 "r" fs.WalkBoth) deep_world) = inl 4%Z
  /\ final (run model_os (fs.Count 5 "r" fs.WalkBoth) deep_world) = deep_world.
Proof.
  apply (@Count_WalkBoth_entries deep_world "r" 5 ["r"] 493%Z
           [("a", Dir 493%Z
              [("f", Reg 420%Z "x");
               ("z", Dir 493%Z [("g", Reg 420%Z "y")])])]);
    try reflexivity.
  cbn. lia.
Defined.

(** ** Changing the tree of the model *)

Lemma find_entry_put_other (x y : string) (f : option node -> option node)
  (es : list (string * node)) :
  (x =? y) = false -> find_entry y (put_entry x f es) = find_entry y es.
Proof.
  intros Hxy. induction es as [| [z c] r IH]; cbn [put_entry find_entry].
  - destruct (f None); [| reflexivity]. cbn [find_entry]. now rewrite Hxy.
  - destruct (z =? x) eqn:Ezx.
    + apply String.eqb_eq in Ezx. subst z.
      destruct (f (Some c)); cbn [find_entry]; now rewrite Hxy.
    + cbn [find_entry]. now rewrite IH.
Qed.

Lemma find_entry_put_same (x : string) (f : option node -> option node)
  (es : list (string * node)) (n : node) :
  f (find_entry x es) = Some n -> find_entry x (put_entry x f es) = Some n.
Proof.
  induction es as [| [z c] r IH]; cbn [put_entry find_entry]; intros Hf.
  - rewrite Hf. cbn [find_entry]. now rewrite String.eqb_refl.
  - destruct (z =? x) eqn:Ezx.
    + rewrite Hf. cbn [find_entry]. now rewrite Ezx.
    + cbn [find_entry]. rewrite Ezx. now apply IH.
Qed.

Lemma find_entry_put_keeps (x y : string) (f : option node -> option node)
  (es : list (string * node)) :
  find_entry y es <> None -> find_entry y (put_entry x f es) <> None.
Proof.
  induction es as [| [z c] r IH]; cbn [put_entry find_entry]; intros H.
  - now contradiction H.
  - destruct (z =? x) eqn:Ezx.
    + destruct (f (Some c)); cbn [find_entry]; destruct (z =? y); trivial;
        discriminate.
    + cbn [find_entry]. destruct (z =? y); [discriminate | now apply IH].
Qed.

Lemma lookup_Reg (p : FileMode) (d : string) (b : list string) (n : node) :
  lookup (Reg p d) b = Some n -> b = [] /\ n = Reg p d.
Proof.
  destruct b; cbn [lookup]; intros H; [| discriminate].
  inversion H. now split.
Qed.

(** The node put at an address that exists is found there. *)
Lemma lookup_set_at_same (a : list string) :
  forall t n0 n, lookup t a = Some n0 -> lookup (set_at a n t) a = Some n.
Proof.
  induction a as [| x a' IH]; intros t n0 n H; [reflexivity |].
  destruct t as [p d | m es]; [discriminate |].
  cbn [lookup] in H. cbn [set_at lookup].
  destruct (find_entry x es) as [c |] eqn:Ec; [| discriminate].
  destruct a' as [| y a''].
  - rewrite (@find_entry_put_same x _ es n); reflexivity.
  - rewrite (@find_entry_put_same x _ es (set_at (y :: a'') n c));
      [| now rewrite Ec].
    now apply IH with (n0 := n0).
Qed.

(** A node put under a new name of a directory is found there. *)
Lemma lookup_set_at_new (a : list string) :
  forall t x n m es,
    lookup t a = Some (Dir m es) -> find_entry x es = None ->
    lookup (set_at (a ++ [x])%list n t) (a ++ [x])%list = Some n.
Proof.
  induction a as [| y a' IH]; intros t x n m es H Hx.
  - cbn [lookup] in H. inversion H; subst. cbn [app set_at lookup].
    rewrite (@find_entry_put_same x _ es n); reflexivity.
  - destruct t as [p d | m' es']; [discriminate |].
    cbn [lookup] in H. cbn [app set_at lookup].
    destruct (find_entry y es') as [c |] eqn:Ec; [| discriminate].
    destruct (a' ++ [x])%list as [| z r] eqn:Ea; [now destruct a' |].
    rewrite (@find_entry_put_same y _ es' (set_at (z :: r) n c));
      [| now rewrite Ec].
    rewrite <- Ea. now apply IH with (m := m) (es := es).
Qed.

(** Putting a node where there is no directory keeps every other regular
    file. *)
Lemma lookup_set_at_other (a : list string) :
  forall t b n p d,
    (forall m es, lookup t a <> Some (Dir m es)) ->
    b <> a -> lookup t b = Some (Reg p d) ->
    lookup (set_at a n t) b = Some (Reg p d).
Proof.
  induction a as [| x a' IH]; intros t b n p d Ha Hba Hb.
  - destruct t as [p0 d0 | m es]; [| now contradiction (Ha m es)].
    apply lookup_Reg in Hb. now destruct Hb.
  - destruct t as [p0 d0 | m es]; [exact Hb |].
    destruct b as [| y b']; [discriminate |].
    cbn [lookup] in Hb. cbn [set_at lookup].
    destruct (x =? y) eqn:Exy.
    + apply String.eqb_eq in Exy. subst y.
      destruct (find_entry x es) as [c |] eqn:Ec; [| discriminate].
      assert (Hc : forall m' es', lookup c a' <> Some (Dir m' es')).
      { intros m' es'. specialize (Ha m' es'). cbn [lookup] in Ha.
        now rewrite Ec in Ha. }
      destruct a' as [| z a''].
      * destruct c as [p1 d1 | m1 es1]; [| now contradiction (Hc m1 es1)].
        apply lookup_Reg in Hb. destruct Hb as [-> _]. now contradiction Hba.
      * rewrite (@find_entry_put_same x _ es (set_at (z :: a'') n c));
          [| now rewrite Ec].
        apply IH; trivial. intros E. apply Hba. now rewrite E.
    + now rewrite find_entry_put_other.
Qed.

(** Putting a regular file where there is no directory keeps the
    directories and their names. *)
Lemma dirs_kept_set_at (a : list string) :
  forall t p d,
    (forall m es, lookup t a <> Some (Dir m es)) ->
    dirs_kept t (set_at a (Reg p d) t).
Proof.
  induction a as [| x a' IH]; intros t p d Ha b m es Hb.
  - destruct t as [p0 d0 | m0 es0]; [| now contradiction (Ha m0 es0)].
    apply lookup_Reg in Hb. now destruct Hb.
  - destruct t as [p0 d0 | m0 es0].
    + exists es. now split.
    + destruct b as [| y b'].
      * cbn [lookup] in Hb. inversion Hb; subst. cbn [set_at lookup].
        eexists. split; [reflexivity |].
        intros c. apply find_entry_put_keeps.
      * cbn [lookup] in Hb. cbn [set_at lookup].
        destruct (x =? y) eqn:Exy.
        -- apply String.eqb_eq in Exy. subst y.
           destruct (find_entry x es0) as [c |] eqn:Ec; [| discriminate].
           assert (Hc : forall m' es', lookup c a' <> Some (Dir m' es')).
           { intros m' es'. specialize (Ha m' es'). cbn [lookup] in Ha.
             now rewrite Ec in Ha. }
           destruct a' as [| z a''].
           ++ destruct c as [p1 d1 | m1 es1]; [| now contradiction (Hc m1 es1)].
              apply lookup_Reg in Hb. now destruct Hb.
           ++ rewrite (@find_entry_put_same x _ es0
                         (set_at (z :: a'') (Reg p d) c)); [| now rewrite Ec].
              now apply IH.
        -- rewrite find_entry_put_other by assumption.
           exists es. split; [exact Hb | trivial].
Qed.

Lemma dirs_kept_trans (t t' t'' : node) :
  dirs_kept t t' -> dirs_kept t' t'' -> dirs_kept t t''.
Proof.
  intros H1 H2 b m es Hb.
  destruct (H1 b m es Hb) as (es' & Hb' & K1).
  destruct (H2 b m es' Hb') as (es'' & Hb'' & K2).
  exists es''. split; [exact Hb'' |]. intros c Hc. apply K2, K1, Hc.
Qed.

(** Path names that resolve keep resolving to the same address. *)
Lemma namei_step_kept (t t' : node) (r : Errno + list string) (c : string)
  (a : list string) :
  dirs_kept t t' -> namei_step t r c = inr a -> namei_step t' r c = inr a.
Proof.
  intros K. unfold namei_step. destruct r as [e | a0]; [trivial |].
  destruct (lookup t a0) as [[p d | m es] |] eqn:E; try discriminate.
  destruct (K a0 m es E) as (es' & -> & Hes).
  destruct ((c =? "") || (c =? ".")); [trivial |].
  destruct (c =? ".."); [trivial |].
  destruct (find_entry c es) as [n |] eqn:En; [| discriminate].
  destruct (find_entry c es') eqn:En'; [trivial |].
  exfalso. apply (Hes c); [now rewrite En | exact En'].
Qed.

Lemma namei_fold_kept (t t' : node) (l : list string) :
  dirs_kept t t' ->
  forall r a,
    fold_left (namei_step t) l r = inr a ->
    fold_left (namei_step t') l r = inr a.
Proof.
  intros K. induction l as [| c l IH]; intros r a H; [exact H |].
  cbn [fold_left] in *.
  destruct (namei_step t r c) as [e | a1] eqn:E.
  - now rewrite namei_fold_err in H.
  - rewrite (namei_step_kept r c K E). now apply IH.
Qed.

Lemma namei_kept (w w' : world) (p : string) (a : list string) :
  dirs_kept (tree w) (tree w') -> cwd w' = cwd w ->
  namei w p = inr a -> namei w' p = inr a.
Proof.
  intros K Hc. unfold namei, namei_elems.
  destruct (p =? ""); [trivial |].
  replace (start_of w' p) with (start_of w p)
    by (unfold start_of; now rewrite Hc).
  now apply namei_fold_kept.
Qed.
(** ** Copying a regular file in the model *)

Lemma results_Ret {B : Type} (w : world) (v : B) : results (Ret v) w v w.
Proof. split; reflexivity. Qed.

Lemma results_bind {B B' : Type} (m : prog B) (f : B -> prog B')
  (w w1 w2 : world) (v : B) (v' : B') :
  results m w v w1 -> results (f v) w1 v' w2 -> results (bind m f) w v' w2.
Proof.
  intros [Hv Hf] [Hv' Hf']. unfold results. rewrite run_bind, Hv.
  cbv zeta. cbn [value final]. rewrite Hf. now split.
Qed.

Lemma results_call {T B : Type} (c : syscall T) (k : T -> prog B)
  (w w1 w2 : world) (r : T) (v : B) :
  model_os c w = (r, w1) -> results (k r) w1 v w2 ->
  results (bind (call c) k) w v w2.
Proof.
  intros Hc [Hv Hf]. unfold results. rewrite run_call_bind, Hc.
  cbv zeta. cbn [value final]. now split.
Qed.

Lemma results_yields {B : Type} (m : prog B) (w : world) (v : B) :
  yields m w v -> results m w v w.
Proof. intros H. exact H. Qed.

Lemma content_resolved (w : world) (p : fs.Path) (perm : FileMode)
  (data : string) :
  content w p = Some (perm, data) ->
  exists a, namei w p = inr a /\ lookup (tree w) a = Some (Reg perm data).
Proof.
  unfold content. destruct (namei w p) as [e | a] eqn:Ha; [discriminate |].
  destruct (lookup (tree w) a) as [[p0 d0 | m es] |] eqn:Hl; try discriminate.
  intros H. inversion H; subst. exists a. now split.
Qed.

Lemma content_is_file (w : world) (p : fs.Path) (x : FileMode * string) :
  content w p = Some x -> is_file w p = true.
Proof.
  destruct x as [perm data]. intros H.
  destruct (content_resolved w p H) as (a & Ha & Hl).
  unfold is_file. rewrite (m_stat_resolved "stat" w p Ha Hl).
  apply (proj2 (info_of_Reg perm data)).
Qed.

Lemma drop_nil (n : nat) : drop n "" = "".
Proof. now destruct n. Qed.

Lemma m_open_read (w : world) (p : fs.Path) (perm : FileMode)
  (a : list string) (fp : FileMode) (data : string) :
  namei w p = inr a -> lookup (tree w) a = Some (Reg fp data) ->
  m_open w p fs.openFileFlag perm
  = (Ok {| f_name := p; f_node := a; f_flag := fs.openFileFlag |}, w).
Proof. intros Ha Hl. unfold m_open. now rewrite Ha, Hl. Qed.

Lemma m_open_trunc (w : world) (p : fs.Path) (perm : FileMode)
  (a : list string) (fp : FileMode) (data : string) :
  namei w p = inr a -> lookup (tree w) a = Some (Reg fp data) ->
  m_open w p fs.createFileFlag perm
  = (Ok {| f_name := p; f_node := a; f_flag := fs.createFileFlag |},
     put_file w a fp "").
Proof. intros Ha Hl. unfold m_open. now rewrite Ha, Hl. Qed.

(** [open] when the first [os.OpenFile] succeeds. *)
Lemma results_open (w w' : world) (p : fs.Path) (flag : Z) (mode : FileMode)
  (f : File) :
  fs.Empty p = false -> is_dir w p = false ->
  m_open w p flag mode = (Ok f, w') ->
  results (fs.open p flag mode) w (Ok f) w'.
Proof.
  intros He Hd Ho. unfold fs.open. rewrite He.
  apply results_bind with (w1 := w) (v := false).
  { rewrite <- Hd. apply results_yields, yields_DirExists. }
  cbv iota.
  apply results_call with (w1 := w') (r := Ok f); [exact Ho |].
  apply results_Ret.
Qed.

Lemma is_dir_Reg (w : world) (p : fs.Path) (a : list string) (fp : FileMode)
  (data : string) :
  namei w p = inr a -> lookup (tree w) a = Some (Reg fp data) ->
  is_dir w p = false.
Proof. intros Ha Hl. now rewrite (is_dir_resolved w p Ha Hl). Qed.

Lemma results_Info (w : world) (p : fs.Path) (a : list string) (n : node) :
  namei w p = inr a -> lookup (tree w) a = Some n ->
  results (fs.Info p) w (Some (info_of n)) w.
Proof.
  intros Ha Hl. unfold results. rewrite run_Info.
  now rewrite (m_stat_resolved "stat" w p Ha Hl).
Qed.

Lemma not_dir_Reg (t : node) (a : list string) (fp : FileMode) (d : string) :
  lookup t a = Some (Reg fp d) -> forall m es, lookup t a <> Some (Dir m es).
Proof. intros H m es. rewrite H. discriminate. Qed.

(** [copyFiles] onto a regular file: the destination is cut to nothing
    when it is opened, then receives what the source holds at that
    moment. *)
Lemma results_copyFiles (w : world) (src dest : fs.Path)
  (a b : list string) (ps pd : FileMode) (ds dd : string) :
  fs.Empty src = false -> fs.Empty dest = false ->
  namei w src = inr a -> lookup (tree w) a = Some (Reg ps ds) ->
  namei w dest = inr b -> lookup (tree w) b = Some (Reg pd dd) ->
  exists data,
    results (fs.copyFiles src dest) w None
            (put_file (put_file w b pd "") b pd data)
    /\ (a <> b -> data = ds) /\ (a = b -> data = "").
Proof.
  intros Es Ed Ha Hla Hb Hlb.
  set (w1 := put_file w b pd "").
  assert (Hb1 : lookup (tree w1) b = Some (Reg pd "")).
  { unfold w1, put_file. cbn [tree]. now apply lookup_set_at_same with (n0 := Reg pd dd). }
  assert (Hsrc : exists data,
             lookup (tree w1) a = Some (Reg (if list_eq_dec string_dec a b then pd else ps) data)
             /\ (a <> b -> data = ds) /\ (a = b -> data = "")).
  { destruct (list_eq_dec string_dec a b) as [E | N].
    - exists "". subst a. repeat split; trivial. intros N. now contradiction N.
    - exists ds. split; [| split; [trivial | intros E; now contradiction N]].
      unfold w1, put_file. cbn [tree].
      apply lookup_set_at_other; trivial. now apply not_dir_Reg with (fp := pd) (d := dd). }
  destruct Hsrc as (data & Ha1 & Hne & Heq).
  exists data. split; [| now split].
  unfold fs.copyFiles.
  eapply results_bind; [apply (results_Info w src Ha Hla) |]. cbv iota.
  eapply results_bind.
  { apply results_open with (f := {| f_name := src; f_node := a; f_flag := fs.openFileFlag |});
      [exact Es | now apply is_dir_Reg with (a := a) (fp := ps) (data := ds)
      | now apply m_open_read with (fp := ps) (data := ds)]. }
  cbv iota.
  eapply results_bind.
  { apply results_open with (f := {| f_name := dest; f_node := b; f_flag := fs.createFileFlag |});
      [exact Ed | now apply is_dir_Reg with (a := b) (fp := pd) (data := dd)
      | apply m_open_trunc with (data := dd); [exact Hb | exact Hlb]]. }
  cbv iota. fold w1.
  eapply results_call with (r := None) (w1 := put_file w1 b pd data).
  { cbn [model_os]. unfold m_copy. cbn [f_node f_flag f_name].
    rewrite Ha1, Hb1. cbn. now rewrite drop_nil, append_nil_r. }
  eapply results_call; [reflexivity |].
  eapply results_call; [reflexivity |].
  apply results_Ret.
Qed.

Lemma content_put_file (w : world) (p : fs.Path) (b : list string)
  (perm : FileMode) (data : string) (n0 : node) :
  namei w p = inr b -> lookup (tree w) b = Some n0 ->
  (forall m es, n0 <> Dir m es) ->
  content (put_file w b perm data) p = Some (perm, data)
  /\ namei (put_file w b perm data) p = inr b
  /\ lookup (tree (put_file w b perm data)) b = Some (Reg perm data).
Proof.
  intros Hb Hl Hn.
  assert (K : dirs_kept (tree w) (tree (put_file w b perm data))).
  { apply dirs_kept_set_at. intros m es E. rewrite Hl in E.
    inversion E. now apply (Hn m es). }
  assert (Hb' : namei (put_file w b perm data) p = inr b)
    by (now apply namei_kept with (w := w)).
  assert (Hl' : lookup (tree (put_file w b perm data)) b = Some (Reg perm data))
    by (now apply lookup_set_at_same with (n0 := n0)).
  unfold content. now rewrite Hb', Hl'.
Qed.

Lemma content_put_file_other (w : world) (q : fs.Path) (b : list string)
  (perm : FileMode) (data : string) (n0 : node) (x : FileMode * string) :
  lookup (tree w) b = Some n0 -> (forall m es, n0 <> Dir m es) ->
  namei w q <> inr b -> content w q = Some x ->
  content (put_file w b perm data) q = Some x
  /\ namei (put_file w b perm data) q = namei w q.
Proof.
  intros Hl Hn Hq Hx. destruct x as [pq dq].
  destruct (content_resolved w q Hx) as (c & Hc & Hlc).
  assert (Hd : forall m es, lookup (tree w) b <> Some (Dir m es)).
  { intros m es E. rewrite Hl in E. inversion E. now apply (Hn m es). }
  assert (K : dirs_kept (tree w) (tree (put_file w b perm data)))
    by (now apply dirs_kept_set_at).
  assert (Hc' : namei (put_file w b perm data) q = inr c)
    by (now apply namei_kept with (w := w)).
  assert (Hlc' : lookup (tree (put_file w b perm data)) c = Some (Reg pq dq)).
  { unfold put_file. cbn [tree]. apply lookup_set_at_other; trivial.
    intros E. apply Hq. now rewrite Hc, E. }
  unfold content. rewrite Hc', Hlc'. split; [reflexivity | now rewrite Hc].
Qed.

Lemma Reg_not_Dir (fp : FileMode) (d : string) :
  forall m es, Reg fp d <> Dir m es.
Proof. discriminate. Qed.

Lemma results_copy_file (fuel : nat) (w w' : world) (src dest : fs.Path)
  (x y : FileMode * string) (e : option error) :
  content w src = Some x -> content w dest = Some y ->
  results (fs.copyFiles src dest) w e w' ->
  results (fs.CopyTo fuel src dest) w e w'.
Proof.
  intros Hs Hd [Hv Hf].
  pose proof (content_is_file w src Hs) as Fs.
  pose proof (content_is_file w dest Hd) as Fd.
  destruct (run_copy_cases fuel w src dest) as (_ & H & _).
  unfold results. rewrite (H Fs (proj1 (is_file_not_dir w dest Fd))).
  cbn [value final]. now split.
Qed.

(** X16.  Copying a regular file onto another regular file: [CopyTo]
    succeeds, the destination then holds exactly what the source held
    (nothing of its old data is left) under its own permission bits, and
    every other regular file, the source among them, is as it was. *)
Theorem CopyTo_file_onto_file (fuel : nat) (w : world) (src dest : fs.Path)
  (ps pd : FileMode) (ds dd : string) :
  fs.Empty src = false -> fs.Empty dest = false ->
  content w src = Some (ps, ds) ->
  content w dest = Some (pd, dd) ->
  namei w src <> namei w dest ->
  value (run model_os (fs.CopyTo fuel src dest) w) = inl None
  /\ content (final (run model_os (fs.CopyTo fuel src dest) w)) dest
     = Some (pd, ds)
  /\ forall q x,
       namei w q <> namei w dest -> content w q = Some x ->
       content (final (run model_os (fs.CopyTo fuel src dest) w)) q = Some x.
Proof.
  intros Es Ed Hs Hd Hne.
  destruct (content_resolved w src Hs) as (a & Ha & Hla).
  destruct (content_resolved w dest Hd) as (b & Hb & Hlb).
  destruct (results_copyFiles w src dest Es Ed Ha Hla Hb Hlb)
    as (data & Hr & Hdata & _).
  rewrite Hdata in Hr by (intros E; apply Hne; now rewrite Ha, Hb, E).
  destruct (results_copy_file fuel Hs Hd Hr) as [Hv Hf].
  rewrite Hf. split; [exact Hv |].
  destruct (content_put_file w dest pd "" Hb Hlb (@Reg_not_Dir pd dd))
    as (_ & Hb1 & Hlb1).
  split.
  - apply (content_put_file (put_file w b pd "") dest pd ds Hb1 Hlb1
             (@Reg_not_Dir pd "")).
  - intros q x Hq Hx. rewrite Hb in Hq.
    destruct (content_put_file_other w q pd "" Hlb (@Reg_not_Dir pd dd) Hq Hx)
      as [Hx1 Hq1].
    apply (content_put_file_other (put_file w b pd "") q pd ds Hlb1
             (@Reg_not_Dir pd "")); trivial.
    now rewrite Hq1.
Qed.

(** X17.  Copying a regular file onto itself, under the same or another
    name of the same file, both names not blank, in the model (no symbolic
    links, no permission checks): [CopyTo] reports success and the file is
    left empty, with its permission bits, because the destination is cut
    to nothing when it is opened, before anything is read. *)
Theorem CopyTo_file_onto_itself (fuel : nat) (w : world) (src dest : fs.Path)
  (ps : FileMode) (ds : string) :
  fs.Empty src = false -> fs.Empty dest = false ->
  content w src = Some (ps, ds) ->
  namei w dest = namei w src ->
  value (run model_os (fs.CopyTo fuel src dest) w) = inl None
  /\ content (final (run model_os (fs.CopyTo fuel src dest) w)) src
     = Some (ps, "").
Proof.
  intros Es Ed Hs Hsame.
  destruct (content_resolved w src Hs) as (a & Ha & Hla).
  assert (Hb : namei w dest = inr a) by (now rewrite Hsame).
  assert (Hd : content w dest = Some (ps, ds))
    by (unfold content; now rewrite Hb, Hla).
  destruct (results_copyFiles w src dest Es Ed Ha Hla Hb Hla)
    as (data & Hr & _ & Hdata).
  rewrite Hdata in Hr by reflexivity.
  destruct (results_copy_file fuel Hs Hd Hr) as [Hv Hf].
  rewrite Hf. split; [exact Hv |].
  destruct (content_put_file w src ps "" Ha Hla (@Reg_not_Dir ps ds))
    as (_ & Ha1 & Hla1).
  apply (content_put_file (put_file w a ps "") src ps "" Ha1 Hla1
           (@Reg_not_Dir ps "")).
Qed.

Lemma CopyTo_file_onto_file_witness :
  value (run model_os (fs.CopyTo 5 "r/a/f" "r/a/z/g") deep_world) = inl None
  /\ content (final (run model_os (fs.CopyTo 5 "r/a/f" "r/a/z/g") deep_world))
       "r/a/z/g" = Some (420%Z, "x")
  /\ forall q x,
       namei deep_world q <> namei deep_world "r/a/z/g" ->
       content deep_world q = Some x ->
       content (final (run model_os (fs.CopyTo 5 "r/a/f" "r/a/z/g") deep_world)) q
       = Some x.
Proof.
  apply (@CopyTo_file_onto_file 5 deep_world "r/a/f" "r/a/z/g"
           420%Z 420%Z "x" "y"); try reflexivity.
  vm_compute. discriminate.
Defined.

Lemma CopyTo_file_onto_itself_witness :
  value (run model_os (fs.CopyTo 5 "r/a/f" "r/a/./f") deep_world) = inl None
  /\ content (final (run model_os (fs.CopyTo 5 "r/a/f" "r/a/./f") deep_world))
       "r/a/f" = Some (420%Z, "").
Proof.
  apply (@CopyTo_file_onto_itself 5 deep_world "r/a/f" "r/a/./f" 420%Z "x");
    reflexivity.
Defined.

(** ** A new file in a directory *)

Lemma split_render_snoc (rt : bool) (l : list string) (n : string) :
  Forall (fun x => plain x /\ (x =? "") = false) (l ++ [n])%list ->
  split (render rt (l ++ [n])%list)
  = ((if rt then [""] else []) ++ l ++ [n])%list.
Proof.
  intros Hl. rewrite (@split_render rt _ Hl).
  destruct (l ++ [n])%list as [| h r] eqn:E; [now destruct l |].
  now destruct rt.
Qed.

Lemma strip_empty_name (n : string) (r : list string) :
  (n =? "") = false -> strip_empty (n :: r) = n :: r.
Proof. destruct n; [discriminate | reflexivity]. Qed.

Lemma Join_elems (w : world) (d n : string) (a : list string) :
  namei w d = inr a -> valid_name n = true ->
  exists pre,
    split (Join d n) = (pre ++ [n])%list
    /\ (Join d n =? "") = false
    /\ start_of w (Join d n) = start_of w d
    /\ fold_left (namei_step (tree w)) pre (inr (start_of w d)) = inr a.
Proof.
  intros Ha Hn.
  destruct (namei_start_dir w d Ha) as (m0 & es0 & Hs).
  assert (Hl : Forall (fun x => plain x /\ (x =? "") = false)
                 (clean_elems d ++ [n])%list).
  { apply Forall_app. split; [apply clean_elems_plain |].
    constructor; [| constructor].
    split; [now apply valid_name_plain | apply (valid_name_neq n Hn)]. }
  destruct (@render_spec (isRooted d) _ Hl) as (E1 & E2 & _).
  exists ((if isRooted d then [""] else []) ++ clean_elems d)%list.
  rewrite (@Join_name d n Hn), (@split_render_snoc _ _ _ Hl), app_assoc.
  split; [reflexivity |]. split; [exact E1 |].
  split; [unfold start_of; now rewrite E2 |].
  rewrite fold_left_app.
  replace (fold_left (namei_step (tree w)) (if isRooted d then [""] else [])
             (inr (start_of w d))) with (@inr Errno _ (start_of w d)).
  - now apply namei_clean_elems.
  - destruct (isRooted d); [| reflexivity]. cbn [fold_left].
    now rewrite (@namei_step_self (tree w) (start_of w d) "" m0 es0
                   (or_introl eq_refl) Hs).
Qed.

Lemma namei_Join_missing (w : world) (d n : string) (a : list string)
  (m : FileMode) (es : list (string * node)) :
  namei w d = inr a -> lookup (tree w) a = Some (Dir m es) ->
  find_entry n es = None -> valid_name n = true ->
  namei w (Join d n) = inl ENOENT.
Proof.
  intros Ha Hl Hf Hn.
  destruct (@Join_elems w d n a Ha Hn) as (pre & E1 & E2 & E3 & E4).
  destruct (valid_name_neq n Hn) as (N1 & N2 & N3).
  unfold namei, namei_elems. rewrite E2, E1, E3, fold_left_app, E4.
  cbn [fold_left]. unfold namei_step. now rewrite Hl, N1, N2, N3, Hf.
Qed.

Lemma m_create_Join (w : world) (d n : string) (a : list string)
  (m : FileMode) (es : list (string * node)) (flag : Z) (perm : FileMode) :
  namei w d = inr a -> lookup (tree w) a = Some (Dir m es) ->
  find_entry n es = None -> valid_name n = true ->
  m_create w (Join d n) flag perm
  = (Ok {| f_name := Join d n; f_node := (a ++ [n])%list; f_flag := flag |},
     put_file w (a ++ [n])%list (Z.land perm ModePerm) "").
Proof.
  intros Ha Hl Hf Hn.
  destruct (@Join_elems w d n a Ha Hn) as (pre & E1 & E2 & E3 & E4).
  destruct (valid_name_neq n Hn) as (N1 & _).
  unfold m_create. cbv zeta. rewrite E1.
  rewrite rev_app_distr. cbn [List.rev app].
  rewrite (@strip_empty_name n _ N1).
  change (List.rev (n :: List.rev pre)) with (List.rev (List.rev pre) ++ [n])%list.
  rewrite rev_involutive, removelast_last, last_last.
  unfold namei_elems. rewrite E3, E4, Hl, Hn, Nat.eqb_refl, Hf.
  reflexivity.
Qed.
Lemma land_perm_perm (perm : Z) :
  Z.land (Z.land perm ModePerm) ModePerm = Z.land perm ModePerm.
Proof. now rewrite <- Z.land_assoc. Qed.

Lemma is_dir_unresolved (w : world) (p : fs.Path) (e : Errno) :
  namei w p = inl e -> is_dir w p = false.
Proof. intros H. unfold is_dir, m_stat. now rewrite H. Qed.

Lemma is_file_resolved_Reg (w : world) (p : fs.Path) (a : list string)
  (fp : FileMode) (d : string) :
  namei w p = inr a -> lookup (tree w) a = Some (Reg fp d) ->
  is_file w p = true.
Proof.
  intros Ha Hl. unfold is_file. rewrite (m_stat_resolved "stat" w p Ha Hl).
  apply (proj2 (info_of_Reg fp d)).
Qed.

Lemma results_copy_to_file (fuel : nat) (w w' : world) (src dest : fs.Path)
  (e : option error) :
  is_file w src = true -> is_dir w dest = false ->
  results (fs.copyFiles src dest) w e w' ->
  results (fs.CopyTo fuel src dest) w e w'.
Proof.
  intros Fs Fd [Hv Hf].
  destruct (run_copy_cases fuel w src dest) as (_ & H & _).
  unfold results. rewrite (H Fs Fd). cbn [value final]. now split.
Qed.

Lemma results_copy_into_dir (fuel : nat) (w w' : world) (src dest : fs.Path)
  (e : option error) :
  is_file w src = true -> is_dir w dest = true ->
  results (fs.copyFiles src (fs.Join dest (fs.Basename src))) w e w' ->
  results (fs.CopyTo fuel src dest) w e w'.
Proof.
  intros Fs Fd [Hv Hf].
  destruct (run_copy_cases fuel w src dest) as (H & _).
  unfold results. rewrite (H Fs Fd). cbn [value final]. now split.
Qed.

(** [copyFiles] to a new name in a directory: the file is made with the
    permission bits of the source, then receives what the source holds. *)
Lemma results_copyFiles_new (w : world) (src d : fs.Path) (n : string)
  (a c : list string) (ps m : FileMode) (ds : string)
  (es : list (string * node)) :
  fs.Empty src = false -> fs.Empty (fs.Join d n) = false ->
  namei w src = inr a -> lookup (tree w) a = Some (Reg ps ds) ->
  namei w d = inr c -> lookup (tree w) c = Some (Dir m es) ->
  find_entry n es = None -> valid_name n = true ->
  results (fs.copyFiles src (fs.Join d n)) w None
    (put_file (put_file w (c ++ [n])%list (Z.land ps ModePerm) "")
              (c ++ [n])%list (Z.land ps ModePerm) ds).
Proof.
  intros Es Ed Ha Hla Hc Hlc Hf Hn.
  set (b := (c ++ [n])%list).
  set (pd := Z.land ps ModePerm).
  set (w1 := put_file w b pd "").
  assert (Hnone : lookup (tree w) b = None).
  { unfold b. now rewrite (lookup_snoc _ _ n Hlc). }
  assert (Hb1 : lookup (tree w1) b = Some (Reg pd "")).
  { unfold w1, put_file, b. cbn [tree].
    now apply lookup_set_at_new with (m := m) (es := es). }
  assert (Ha1 : lookup (tree w1) a = Some (Reg ps ds)).
  { unfold w1, put_file. cbn [tree]. apply lookup_set_at_other; trivial.
    - intros m' es'. rewrite Hnone. discriminate.
    - intros E. rewrite E, Hnone in Hla. discriminate. }
  pose proof (namei_Join_missing w d n Hc Hlc Hf Hn) as Hmiss.
  unfold fs.copyFiles.
  eapply results_bind; [apply (results_Info w src Ha Hla) |]. cbv iota.
  eapply results_bind.
  { apply results_open with (f := {| f_name := src; f_node := a; f_flag := fs.openFileFlag |});
      [exact Es | now apply is_dir_Reg with (a := a) (fp := ps) (data := ds)
      | now apply m_open_read with (fp := ps) (data := ds)]. }
  cbv iota.
  eapply results_bind.
  { apply results_open with (f := {| f_name := fs.Join d n; f_node := b; f_flag := fs.createFileFlag |});
      [exact Ed | now apply is_dir_unresolved with (e := ENOENT) |].
    unfold m_open. unfold fs.Join in *. rewrite Hmiss.
    destruct (@Join_elems w d n c Hc Hn) as (_ & _ & E2 & _).
    rewrite E2. cbn [negb andb]. 
    change (has_flag fs.createFileFlag O_CREATE) with true. cbn [andb].
    rewrite (@m_create_Join w d n c m es); trivial. }
  cbv iota. cbn [info_of Mode]. rewrite land_perm_perm. fold pd b w1.
  eapply results_call with (r := None) (w1 := put_file w1 b pd ds).
  { cbn [model_os]. unfold m_copy. cbn [f_node f_flag f_name].
    rewrite Ha1, Hb1. cbn. now rewrite drop_nil, append_nil_r. }
  eapply results_call; [reflexivity |].
  eapply results_call; [reflexivity |].
  apply results_Ret.
Qed.
Lemma content_put_kept (w : world) (q : fs.Path) (b : list string)
  (perm : FileMode) (data : string) (x : FileMode * string) :
  (forall m es, lookup (tree w) b <> Some (Dir m es)) ->
  namei w q <> inr b -> content w q = Some x ->
  content (put_file w b perm data) q = Some x
  /\ namei (put_file w b perm data) q = namei w q.
Proof.
  intros Hd Hq Hx. destruct x as [pq dq].
  destruct (content_resolved w q Hx) as (c & Hc & Hlc).
  assert (K : dirs_kept (tree w) (tree (put_file w b perm data)))
    by (now apply dirs_kept_set_at).
  assert (Hc' : namei (put_file w b perm data) q = inr c)
    by (now apply namei_kept with (w := w)).
  assert (Hlc' : lookup (tree (put_file w b perm data)) c = Some (Reg pq dq)).
  { unfold put_file. cbn [tree]. apply lookup_set_at_other; trivial.
    intros E. apply Hq. now rewrite Hc, E. }
  unfold content. rewrite Hc', Hlc'. split; [reflexivity | now rewrite Hc].
Qed.

(** A regular file put under a new name of a directory is what the
    joined path names. *)
Lemma content_put_new (w : world) (d : fs.Path) (n : string)
  (c : list string) (m : FileMode) (es : list (string * node))
  (perm : FileMode) (data : string) :
  namei w d = inr c -> lookup (tree w) c = Some (Dir m es) ->
  find_entry n es = None -> valid_name n = true ->
  namei (put_file w (c ++ [n])%list perm data) (fs.Join d n)
  = inr (c ++ [n])%list
  /\ lookup (tree (put_file w (c ++ [n])%list perm data)) (c ++ [n])%list
     = Some (Reg perm data)
  /\ forall q x,
       content w q = Some x ->
       content (put_file w (c ++ [n])%list perm data) q = Some x
       /\ namei (put_file w (c ++ [n])%list perm data) q = namei w q
       /\ namei w q <> inr (c ++ [n])%list.
Proof.
  intros Hc Hlc Hf Hn.
  set (w1 := put_file w (c ++ [n])%list perm data).
  assert (Hnone : lookup (tree w) (c ++ [n])%list = None)
    by (now rewrite (lookup_snoc _ _ n Hlc)).
  assert (Hd : forall m' es', lookup (tree w) (c ++ [n])%list <> Some (Dir m' es'))
    by (intros m' es'; rewrite Hnone; discriminate).
  assert (K : dirs_kept (tree w) (tree w1)) by (now apply dirs_kept_set_at).
  assert (Hc1 : namei w1 d = inr c) by (now apply namei_kept with (w := w)).
  assert (Hb1 : lookup (tree w1) (c ++ [n])%list = Some (Reg perm data)).
  { unfold w1, put_file. cbn [tree].
    now apply lookup_set_at_new with (m := m) (es := es). }
  destruct (K c m es Hlc) as (es' & Hlc1 & _).
  split; [| split; [exact Hb1 |]].
  - apply namei_Join with (m := m) (es := es') (c := Reg perm data); trivial.
    now rewrite <- (lookup_snoc _ _ n Hlc1).
  - intros q x Hx.
    assert (Hq : namei w q <> inr (c ++ [n])%list).
    { intros E. destruct x as [pq dq].
      destruct (content_resolved w q Hx) as (cq & Hq & Hlq).
      rewrite Hq in E. inversion E; subst cq. rewrite Hnone in Hlq.
      discriminate. }
    destruct (@content_put_kept w q (c ++ [n])%list perm data x Hd Hq Hx)
      as [H1 H2].
    now repeat split.
Qed.

(** X18.  Copying a regular file to a name that is not taken in an
    existing directory: [CopyTo] succeeds, the new path is a regular file
    with the permission bits and the data of the source, and every
    regular file that was there is as it was. *)
Theorem CopyTo_file_to_new_name (fuel : nat) (w : world) (src d : fs.Path)
  (n : string) (ps : FileMode) (ds : string) (c : list string)
  (m : FileMode) (es : list (string * node)) :
  fs.Empty src = false -> fs.Empty (fs.Join d n) = false ->
  content w src = Some (ps, ds) ->
  namei w d = inr c -> lookup (tree w) c = Some (Dir m es) ->
  find_entry n es = None -> valid_name n = true ->
  value (run model_os (fs.CopyTo fuel src (fs.Join d n)) w) = inl None
  /\ content (final (run model_os (fs.CopyTo fuel src (fs.Join d n)) w))
       (fs.Join d n) = Some (Z.land ps ModePerm, ds)
  /\ forall q x,
       content w q = Some x ->
       content (final (run model_os (fs.CopyTo fuel src (fs.Join d n)) w)) q
       = Some x.
Proof.
  intros Es Ed Hs Hc Hlc Hf Hn.
  destruct (content_resolved w src Hs) as (a & Ha & Hla).
  pose proof (results_copyFiles_new w src d n Es Ed Ha Hla Hc Hlc Hf Hn) as Hr.
  assert (Hnd : is_dir w (fs.Join d n) = false).
  { apply is_dir_unresolved with (e := ENOENT).
    now apply namei_Join_missing with (a := c) (m := m) (es := es). }
  destruct (results_copy_to_file fuel (content_is_file w src Hs) Hnd Hr)
    as [Hv Hfin].
  rewrite Hfin. split; [exact Hv |].
  destruct (@content_put_new w d n c m es (Z.land ps ModePerm) "" Hc Hlc Hf Hn)
    as (Hb1 & Hlb1 & Hk1).
  split.
  - apply (content_put_file _ (fs.Join d n) (Z.land ps ModePerm) ds Hb1 Hlb1
             (@Reg_not_Dir (Z.land ps ModePerm) "")).
  - intros q x Hx. destruct (Hk1 q x Hx) as (Hx1 & Hq1 & Hq).
    apply content_put_kept; trivial.
    + intros m' es'. rewrite Hlb1. discriminate.
    + now rewrite Hq1.
Qed.

Lemma CopyTo_file_to_new_name_witness :
  value (run model_os (fs.CopyTo 5 "r/a" (fs.Join "r/b" "c")) small_world)
  = inl None
  /\ content (final (run model_os (fs.CopyTo 5 "r/a" (fs.Join "r/b" "c"))
                       small_world)) (fs.Join "r/b" "c")
     = Some (Z.land 420 ModePerm, "x")
  /\ forall q x,
       content small_world q = Some x ->
       content (final (run model_os (fs.CopyTo 5 "r/a" (fs.Join "r/b" "c"))
                         small_world)) q = Some x.
Proof.
  apply (@CopyTo_file_to_new_name 5 small_world "r/a" "r/b" "c" 420%Z "x"
           ["r"; "b"] 493%Z []); reflexivity.
Defined.

(** ** The base name of a regular file *)

Lemma is_sep_eq (c : ascii) : is_sep c = true -> c = "/"%char.
Proof. unfold is_sep. apply Ascii.eqb_eq. Qed.

Lemma concat_split (s : string) : String.concat "/" (split s) = s.
Proof.
  induction s as [| c s IH]; [reflexivity |]. cbn [split].
  destruct (is_sep c) eqn:Hc.
  - apply is_sep_eq in Hc. subst c.
    rewrite concat_cons by apply split_not_nil. now rewrite IH.
  - destruct (split s) as [| x r] eqn:E; [now apply split_not_nil in E |].
    destruct r as [| y r'].
    + cbn in *. now rewrite IH.
    + rewrite (@concat_cons (String c x) (y :: r'))
        by (intros Hnil; discriminate Hnil).
      rewrite (@concat_cons x (y :: r')) in IH
        by (intros Hnil; discriminate Hnil).
      rewrite <- IH. reflexivity.
Qed.

Lemma split_last_elem (s : string) (pre : list string) (x : string) :
  split s = (pre ++ [x])%list ->
  plain x /\ (s = x \/ exists a, s = a ++ "/" ++ x).
Proof.
  intros E. split.
  - pose proof (split_plain s) as Hp. rewrite E in Hp.
    apply Forall_app in Hp. destruct Hp as [_ Hx]. now inversion Hx.
  - rewrite <- (concat_split s), E. destruct pre as [| h t].
    + now left.
    + right. exists (String.concat "/" (h :: t)).
      apply concat_snoc. discriminate.
Qed.

Lemma Base_name (n : string) : valid_name n = true -> Base n = n.
Proof.
  intros Hn. pose proof (valid_name_plain _ Hn) as Hpl.
  destruct (valid_name_neq n Hn) as (En & _ & _).
  unfold Base. rewrite En, trim_trailing_seps_plain, Hpl by assumption.
  cbn. now rewrite En.
Qed.

Lemma Base_app_name (a n : string) :
  valid_name n = true -> Base (a ++ "/" ++ n) = n.
Proof.
  intros Hn. pose proof (valid_name_plain _ Hn) as Hpl.
  destruct (valid_name_neq n Hn) as (En & _ & _).
  unfold Base. rewrite append_eqb_nil_sep.
  rewrite <- append_assoc, trim_trailing_seps_app, append_assoc by assumption.
  rewrite split_app_sep, Hpl, last_last. now rewrite En.
Qed.

Lemma lookup_snoc_inv (t : node) (b : list string) (y : string) (n : node) :
  lookup t (b ++ [y])%list = Some n ->
  exists m es, lookup t b = Some (Dir m es) /\ find_entry y es = Some n.
Proof.
  revert t. induction b as [| z b IH]; intros t H.
  - cbn in H. destruct t as [| m es]; [discriminate |].
    exists m, es. split; [reflexivity |].
    destruct (find_entry y es) as [c |]; [| discriminate].
    now destruct c.
  - cbn in H. destruct t as [| m es]; [discriminate |]. cbn [lookup].
    destruct (find_entry z es) as [c |]; [now apply IH | discriminate].
Qed.

Lemma lookup_removelast (t : node) (a : list string) (m : FileMode)
  (es : list (string * node)) :
  lookup t a = Some (Dir m es) ->
  exists m' es', lookup t (removelast a) = Some (Dir m' es').
Proof.
  induction a as [| y b _] using rev_ind; intros H.
  - now exists m, es.
  - rewrite removelast_last.
    destruct (lookup_snoc_inv t b y H) as (m' & es' & Hb & _).
    now exists m', es'.
Qed.

(** A path that resolves to a regular file ends with the name the file
    has in its directory, and [Base] gives that name. *)
Lemma file_entry_name (w : world) (p : string) (a : list string)
  (fp : FileMode) (d : string) :
  namei w p = inr a -> lookup (tree w) a = Some (Reg fp d) ->
  valid_name (Base p) = true
  /\ exists a0 m es,
       a = (a0 ++ [Base p])%list
       /\ lookup (tree w) a0 = Some (Dir m es)
       /\ find_entry (Base p) es = Some (Reg fp d).
Proof.
  intros Ha Hl. destruct (namei_elems_of w p Ha) as [_ Hf].
  destruct (exists_last (split_not_nil p)) as (pre & x & E).
  destruct (split_last_elem p pre x E) as [Hx Hp].
  rewrite E, fold_left_app in Hf. cbn [fold_left] in Hf.
  destruct (fold_left (namei_step (tree w)) pre (inr (start_of w p)))
    as [e | a0] eqn:Ef; [discriminate |].
  destruct (namei_step_dir _ _ _ Hf) as (m & es & Hd).
  destruct (plain_cases Hx) as [-> | [-> | [-> | Hv]]].
  - apply namei_step_same in Hf; [| now left]. subst a.
    rewrite Hl in Hd. discriminate.
  - apply namei_step_same in Hf; [| now right]. subst a.
    rewrite Hl in Hd. discriminate.
  - apply namei_step_up in Hf. subst a.
    destruct (lookup_removelast _ _ Hd) as (m' & es' & Hd').
    rewrite Hl in Hd'. discriminate.
  - assert (Hb : Base p = x).
    { destruct Hp as [-> | [a1 ->]];
        [now apply Base_name | now apply Base_app_name]. }
    rewrite Hb. split; [exact Hv |].
    apply (@namei_step_name (tree w) a0 x a Hv) in Hf. subst a.
    exists a0, m, es. split; [reflexivity | split; [exact Hd |]].
    now rewrite <- (lookup_snoc _ _ x Hd).
Qed.

(** X19.  The base name of a path to a regular file is the name of the
    file in its directory: the path resolves to the entry [Basename p] of a
    directory, and joining any path of that directory with the base name
    gives the same file. *)
Theorem Basename_of_file (w : world) (p dir : fs.Path)
  (x : FileMode * string) (a : list string) :
  content w p = Some x ->
  namei w p = inr a ->
  valid_name (fs.Basename p) = true
  /\ last a "" = fs.Basename p
  /\ (namei w dir = inr (removelast a) ->
      content w (fs.Join dir (fs.Basename p)) = Some x).
Proof.
  intros Hx Ha. destruct x as [fp d].
  destruct (content_resolved w p Hx) as (a' & Ha' & Hl).
  rewrite Ha in Ha'. inversion Ha'; subst a'.
  destruct (file_entry_name w p Ha Hl) as (Hv & a0 & m & es & -> & Hd & Hf).
  split; [exact Hv |]. rewrite last_last, removelast_last.
  split; [reflexivity |]. intros Hdir.
  unfold content, fs.Join, fs.Basename.
  rewrite (namei_Join w dir (Base p) Hdir Hd Hf Hv).
  now rewrite (lookup_snoc _ _ (Base p) Hd), Hf.
Qed.

Lemma Basename_of_file_witness :
  valid_name (fs.Basename "r/a/../a/f") = true
  /\ last ["r"; "a"; "f"] "" = fs.Basename "r/a/../a/f"
  /\ (namei deep_world "r/./a" = inr (removelast ["r"; "a"; "f"]) ->
      content deep_world (fs.Join "r/./a" (fs.Basename "r/a/../a/f"))
      = Some (420%Z, "x")).
Proof.
  apply (@Basename_of_file deep_world "r/a/../a/f" "r/./a" (420%Z, "x")
           ["r"; "a"; "f"]); reflexivity.
Defined.

(** ** A regular file copied into a directory *)

Lemma new_file_world (w : world) (d : fs.Path) (n : string)
  (c : list string) (m : FileMode) (es : list (string * node))
  (perm : FileMode) (data : string) :
  namei w d = inr c -> lookup (tree w) c = Some (Dir m es) ->
  find_entry n es = None -> valid_name n = true ->
  content (put_file (put_file w (c ++ [n])%list perm "") (c ++ [n])%list
                    perm data) (fs.Join d n) = Some (perm, data)
  /\ forall q x,
       content w q = Some x ->
       content (put_file (put_file w (c ++ [n])%list perm "") (c ++ [n])%list
                         perm data) q = Some x.
Proof.
  intros Hc Hlc Hf Hn.
  destruct (@content_put_new w d n c m es perm "" Hc Hlc Hf Hn)
    as (Hb1 & Hlb1 & Hk1).
  split.
  - apply (content_put_file _ (fs.Join d n) perm data Hb1 Hlb1
             (@Reg_not_Dir perm "")).
  - intros q x Hx. destruct (Hk1 q x Hx) as (Hx1 & Hq1 & Hq).
    apply content_put_kept; trivial.
    + intros m' es'. rewrite Hlb1. discriminate.
    + now rewrite Hq1.
Qed.

Lemma overwritten_world (w : world) (p : fs.Path) (b : list string)
  (pd : FileMode) (dd data : string) :
  namei w p = inr b -> lookup (tree w) b = Some (Reg pd dd) ->
  content (put_file (put_file w b pd "") b pd data) p = Some (pd, data)
  /\ forall q x,
       namei w q <> inr b -> content w q = Some x ->
       content (put_file (put_file w b pd "") b pd data) q = Some x.
Proof.
  intros Hb Hlb.
  destruct (content_put_file w p pd "" Hb Hlb (@Reg_not_Dir pd dd))
    as (_ & Hb1 & Hlb1).
  split.
  - apply (content_put_file (put_file w b pd "") p pd data Hb1 Hlb1
             (@Reg_not_Dir pd "")).
  - intros q x Hq Hx.
    destruct (content_put_file_other w q pd "" Hlb (@Reg_not_Dir pd dd) Hq Hx)
      as [Hx1 Hq1].
    apply (content_put_file_other (put_file w b pd "") q pd data Hlb1
             (@Reg_not_Dir pd "")); trivial.
    now rewrite Hq1.
Qed.

(** X20.  Copying a regular file into an existing directory: the copy is
    the entry of the directory named by the base name of the source.  If
    there was no such entry the copy has the permission bits of the
    source; if it was another regular file, that file now holds the data
    of the source and keeps its permission bits.  Every other regular
    file is as it was. *)
Theorem CopyTo_file_into_directory (fuel : nat) (w : world)
  (src dest : fs.Path) (ps : FileMode) (ds : string) (c : list string)
  (m : FileMode) (es : list (string * node)) :
  fs.Empty src = false ->
  fs.Empty (fs.Join dest (fs.Basename src)) = false ->
  content w src = Some (ps, ds) ->
  namei w dest = inr c -> lookup (tree w) c = Some (Dir m es) ->
  namei w src <> inr (c ++ [fs.Basename src])%list ->
  (forall m' es', find_entry (fs.Basename src) es <> Some (Dir m' es')) ->
  value (run model_os (fs.CopyTo fuel src dest) w) = inl None
  /\ content (final (run model_os (fs.CopyTo fuel src dest) w))
       (fs.Join dest (fs.Basename src))
     = Some (match find_entry (fs.Basename src) es with
             | Some (Reg pd _) => pd
             | _ => Z.land ps ModePerm
             end, ds)
  /\ forall q x,
       namei w q <> inr (c ++ [fs.Basename src])%list ->
       content w q = Some x ->
       content (final (run model_os (fs.CopyTo fuel src dest) w)) q = Some x.
Proof.
  intros Es Ed Hs Hc Hlc Hne Hnd.
  destruct (content_resolved w src Hs) as (a & Ha & Hla).
  destruct (file_entry_name w src Ha Hla) as (Hv & _).
  pose proof (content_is_file w src Hs) as Fs.
  assert (Fd : is_dir w dest = true)
    by (now rewrite (is_dir_resolved w dest Hc Hlc)).
  unfold fs.Basename in *. set (n := Base src) in *.
  destruct (find_entry n es) as [[pd dd | m' es'] |] eqn:Hf.
  - assert (Hb : namei w (fs.Join dest n) = inr (c ++ [n])%list)
      by (now apply namei_Join with (m := m) (es := es) (c := Reg pd dd)).
    assert (Hlb : lookup (tree w) (c ++ [n])%list = Some (Reg pd dd))
      by (now rewrite (lookup_snoc _ _ n Hlc)).
    destruct (results_copyFiles w src (fs.Join dest n) Es Ed Ha Hla Hb Hlb)
      as (data & Hr & Hdata & _).
    rewrite Hdata in Hr by (intros E; apply Hne; now rewrite Ha, E).
    destruct (@results_copy_into_dir fuel w _ src dest None Fs Fd Hr) as [Hv' Hfin].
    rewrite Hfin. split; [exact Hv' |].
    apply (overwritten_world w (fs.Join dest n) ds Hb Hlb).
  - now contradiction (Hnd m' es').
  - pose proof (results_copyFiles_new w src dest n Es Ed Ha Hla Hc Hlc Hf Hv)
      as Hr.
    destruct (@results_copy_into_dir fuel w _ src dest None Fs Fd Hr) as [Hv' Hfin].
    rewrite Hfin. split; [exact Hv' |].
    destruct (@new_file_world w dest n c m es (Z.land ps ModePerm) ds
                Hc Hlc Hf Hv) as [H1 H2].
    split; [exact H1 |]. intros q x _ Hx. now apply H2.
Qed.

Lemma CopyTo_file_into_directory_witness :
  value (run model_os (fs.CopyTo 5 "r/a/z/g" "r/a") deep_world) = inl None
  /\ content (final (run model_os (fs.CopyTo 5 "r/a/z/g" "r/a") deep_world))
       (fs.Join "r/a" (fs.Basename "r/a/z/g")) = Some (420%Z, "y")
  /\ forall q x,
       namei deep_world q <> inr (["r"; "a"] ++ [fs.Basename "r/a/z/g"])%list ->
       content deep_world q = Some x ->
       content (final (run model_os (fs.CopyTo 5 "r/a/z/g" "r/a") deep_world)) q
       = Some x.
Proof.
  apply (@CopyTo_file_into_directory 5 deep_world "r/a/z/g" "r/a" 420%Z "y"
           ["r"; "a"] 493%Z
           [("f", Reg 420%Z "x"); ("z", Dir 493%Z [("g", Reg 420%Z "y")])]);
    try reflexivity.
  - vm_compute. discriminate.
  - intros m' es'. vm_compute. discriminate.
Defined.

(** ** Opening an existing file for writing *)

Lemma m_open_append (w : world) (p : fs.Path) (perm : FileMode)
  (a : list string) (fp : FileMode) (data : string) :
  namei w p = inr a -> lookup (tree w) a = Some (Reg fp data) ->
  m_open w p fs.appendFileFlag perm
  = (Ok {| f_name := p; f_node := a; f_flag := fs.appendFileFlag |}, w).
Proof. intros Ha Hl. unfold m_open. now rewrite Ha, Hl. Qed.

(** X21.  In the model (no symbolic links, no permission checks: every
    regular file can be opened for writing), on a path that is not blank
    and names a regular file, [Create] and [Append] both give a handle on
    that file and keep its permission bits; [Create] leaves the file
    empty, [Append] leaves its data as it was. *)
Theorem open_for_write_existing (wm : write_mode) (w : world) (p : fs.Path)
  (perm : FileMode) (data : string) (a : list string) :
  fs.Empty p = false ->
  namei w p = inr a ->
  lookup (tree w) a = Some (Reg perm data) ->
  value (run model_os (open_for wm p) w)
  = inl (Ok {| f_name := p; f_node := a; f_flag := write_flag wm |})
  /\ content (final (run model_os (open_for wm p) w)) p
     = Some (perm, match wm with ForCreate => "" | ForAppend => data end).
Proof.
  intros He Ha Hl.
  pose proof (is_dir_Reg w p Ha Hl) as Hd.
  destruct wm; cbn [open_for write_flag].
  - destruct (@results_open w _ p _ _ _ He Hd (@m_open_trunc w p fs.defaultFileMode a perm data Ha Hl))
      as [Hv Hf].
    unfold fs.Create. rewrite Hv, Hf. split; [reflexivity |].
    apply (content_put_file w p perm "" Ha Hl (@Reg_not_Dir perm data)).
  - pose proof (@results_open w _ p _ _ _ He Hd (@m_open_append w p fs.defaultFileMode a perm data Ha Hl))
      as Hr.
    assert (Hr' : results (fs.Append p) w
                    (Ok {| f_name := p; f_node := a; f_flag := fs.appendFileFlag |}) w).
    { unfold fs.Append. eapply results_bind; [exact Hr |]. apply results_Ret. }
    destruct Hr' as [Hv Hf]. rewrite Hv, Hf. split; [reflexivity |].
    unfold content. now rewrite Ha, Hl.
Qed.

Lemma open_for_write_existing_witness :
  value (run model_os (open_for ForCreate "r/a") small_world)
  = inl (Ok {| f_name := "r/a"; f_node := ["r"; "a"];
               f_flag := write_flag ForCreate |})
  /\ content (final (run model_os (open_for ForCreate "r/a") small_world)) "r/a"
     = Some (420%Z, "").
Proof.
  apply (@open_for_write_existing ForCreate small_world "r/a" 420%Z "x"
           ["r"; "a"]); reflexivity.
Defined.

(** ** Runs under any operating system *)

Lemma trace_Ret {St B : Type} (h : handler St) (v : B) (s : St) :
  run h (Ret v) s = {| value := inl v; final := s; calls := [] |}.
Proof. reflexivity. Qed.

Lemma trace_bind {St B B' : Type} (h : handler St) (m : prog B)
  (f : B -> prog B') (s s1 : St) (v : B) (cs : list event)
  (o : outcome St B') :
  run h m s = {| value := inl v; final := s1; calls := cs |} ->
  run h (f v) s1 = o ->
  run h (bind m f) s
  = {| value := value o; final := final o; calls := (cs ++ calls o)%list |}.
Proof. intros Hm Hf. rewrite run_bind, Hm. cbn [value final calls]. now rewrite Hf. Qed.

Lemma trace_call {St T B : Type} (h : handler St) (c : syscall T)
  (k : T -> prog B) (s s1 : St) (r : T) (o : outcome St B) :
  h _ c s = (r, s1) ->
  run h (k r) s1 = o ->
  run h (bind (call c) k) s
  = {| value := value o; final := final o; calls := Ev c :: calls o |}.
Proof. intros Hc Hk. rewrite run_call_bind, Hc. now rewrite Hk. Qed.

Lemma trace_Info {St : Type} (h : handler St) (p : fs.Path) (s s1 : St)
  (info : FileInfo) :
  h _ (os_Stat p) s = (Ok info, s1) ->
  run h (fs.Info p) s
  = {| value := inl (Some info); final := s1; calls := [Ev (os_Stat p)] |}.
Proof.
  intros H. unfold fs.Info.
  now rewrite (trace_call h (os_Stat p) _ s H (trace_Ret h (Some info) s1)).
Qed.

Lemma trace_Exists {St : Type} (h : handler St) (p : fs.Path) (s s1 : St)
  (info : FileInfo) :
  h _ (os_Stat p) s = (Ok info, s1) ->
  run h (fs.Exists p) s
  = {| value := inl true; final := s1; calls := [Ev (os_Stat p)] |}.
Proof.
  intros H. unfold fs.Exists.
  now rewrite (trace_bind h _ _ s (trace_Info h p s H) eq_refl).
Qed.

Lemma trace_FileExists {St : Type} (h : handler St) (p : fs.Path) (s s1 : St)
  (info : FileInfo) :
  h _ (os_Stat p) s = (Ok info, s1) ->
  run h (fs.FileExists p) s
  = {| value := inl (Mode_IsRegular (Mode info)); final := s1;
       calls := [Ev (os_Stat p)] |}.
Proof.
  intros H. unfold fs.FileExists.
  now rewrite (trace_bind h _ _ s (trace_Info h p s H) eq_refl).
Qed.

Lemma trace_DirExists {St : Type} (h : handler St) (p : fs.Path) (s s1 : St)
  (info : FileInfo) :
  h _ (os_Stat p) s = (Ok info, s1) ->
  run h (fs.DirExists p) s
  = {| value := inl (IsDir info); final := s1; calls := [Ev (os_Stat p)] |}.
Proof.
  intros H. unfold fs.DirExists.
  now rewrite (trace_bind h _ _ s (trace_Info h p s H) eq_refl).
Qed.

Lemma regular_not_dir (m : FileMode) :
  Mode_IsRegular m = true -> Mode_IsDir m = false.
Proof.
  unfold Mode_IsRegular, Mode_IsDir. intros H. apply Z.eqb_eq in H.
  replace ModeDir with (Z.land ModeType ModeDir) by reflexivity.
  now rewrite Z.land_assoc, H.
Qed.

(** C10 as amended.  Under any operating system: the source is reported
    as a regular file, the destination as a directory and the destination
    joined with the base name of the source as a directory, neither path
    name is blank, and the source can be opened for reading.  Then
    [CopyTo] answers [ErrPathIsDirectory], and its system calls are the
    stats of the three paths, the read-only open of the source and its
    close: nothing is created, written or removed. *)
Theorem CopyTo_file_onto_subdirectory {St : Type} (h : handler St)
  (fuel : nat) (s : St) (src dest : fs.Path)
  (isrc idest isub : FileInfo) (f : File) (e : option error) :
  h _ (os_Stat src) s = (Ok isrc, s) ->
  Mode_IsRegular (Mode isrc) = true ->
  h _ (os_Stat dest) s = (Ok idest, s) ->
  IsDir idest = true ->
  h _ (os_Stat (fs.Join dest (fs.Basename src))) s = (Ok isub, s) ->
  IsDir isub = true ->
  fs.Empty src = false ->
  fs.Empty (fs.Join dest (fs.Basename src)) = false ->
  h _ (os_OpenFile src fs.openFileFlag 256%Z) s = (Ok f, s) ->
  h _ (File_Close f) s = (e, s) ->
  run h (fs.CopyTo fuel src dest) s
  = {| value := inl (Some ErrPathIsDirectory); final := s;
       calls := [Ev (os_Stat src); Ev (os_Stat src); Ev (os_Stat dest);
                 Ev (os_Stat src); Ev (os_Stat src);
                 Ev (os_OpenFile src fs.openFileFlag 256%Z);
                 Ev (os_Stat (fs.Join dest (fs.Basename src)));
                 Ev (File_Close f)] |}.
Proof.
  intros Hs Hreg Hd Hdir Hsub Hsubdir Es Ed Hopen Hclose.
  pose proof (regular_not_dir _ Hreg) as Hnd.
  pose proof (trace_Info h src s Hs) as Is.
  assert (Hopen_src :
            run h (fs.open src fs.openFileFlag 256%Z) s
            = {| value := inl (Ok f); final := s;
                 calls := [Ev (os_Stat src);
                           Ev (os_OpenFile src fs.openFileFlag 256%Z)] |}).
  { unfold fs.open. rewrite Es.
    rewrite (trace_bind h _ _ s (trace_DirExists h src s Hs) eq_refl).
    unfold IsDir. rewrite Hnd.
    rewrite (trace_call h _ _ s Hopen eq_refl). reflexivity. }
  assert (Hopen_sub :
            run h (fs.open (fs.Join dest (fs.Basename src)) fs.createFileFlag
                     (Mode isrc)) s
            = {| value := inl (Err ErrPathIsDirectory); final := s;
                 calls := [Ev (os_Stat (fs.Join dest (fs.Basename src)))] |}).
  { unfold fs.open. rewrite Ed.
    rewrite (trace_bind h _ _ s (trace_DirExists h _ s Hsub) eq_refl).
    rewrite Hsubdir. reflexivity. }
  assert (Hcopy :
            run h (fs.copyFiles src (fs.Join dest (fs.Basename src))) s
            = {| value := inl (Some ErrPathIsDirectory); final := s;
                 calls := [Ev (os_Stat src); Ev (os_Stat src);
                           Ev (os_OpenFile src fs.openFileFlag 256%Z);
                           Ev (os_Stat (fs.Join dest (fs.Basename src)));
                           Ev (File_Close f)] |}).
  { unfold fs.copyFiles.
    rewrite (trace_bind h _ _ s Is eq_refl). cbv iota.
    rewrite (trace_bind h _ _ s Hopen_src eq_refl). cbv iota.
    rewrite (trace_bind h _ _ s Hopen_sub eq_refl). cbv iota.
    rewrite (trace_call h _ _ s Hclose eq_refl). reflexivity. }
  unfold fs.CopyTo, fs.copy.
  rewrite (trace_bind h _ _ s (trace_Exists h src s Hs) eq_refl). cbn [negb].
  rewrite (trace_bind h _ _ s (trace_FileExists h src s Hs) eq_refl).
  rewrite Hreg.
  rewrite (trace_bind h _ _ s (trace_DirExists h dest s Hd) eq_refl).
  rewrite Hdir, Hcopy. reflexivity.
Qed.

Lemma CopyTo_file_onto_subdirectory_witness :
  run model_os (fs.CopyTo 5 "a" "d") clash_world
  = {| value := inl (Some ErrPathIsDirectory); final := clash_world;
       calls := [Ev (os_Stat "a"); Ev (os_Stat "a"); Ev (os_Stat "d");
                 Ev (os_Stat "a"); Ev (os_Stat "a");
                 Ev (os_OpenFile "a" fs.openFileFlag 256%Z);
                 Ev (os_Stat (fs.Join "d" (fs.Basename "a")));
                 Ev (File_Close {| f_name := "a"; f_node := ["a"];
                                   f_flag := fs.openFileFlag |})] |}.
Proof.
  apply (@CopyTo_file_onto_subdirectory world model_os 5 clash_world "a" "d"
           (info_of (Reg 420%Z "x")) (info_of (Dir 493%Z [("a", Dir 493%Z [("keep", Reg 420%Z "y")])]))
           (info_of (Dir 493%Z [("keep", Reg 420%Z "y")]))
           {| f_name := "a"; f_node := ["a"]; f_flag := fs.openFileFlag |} None);
    reflexivity.
Defined.

(** ** Paths with a separator are not blank *)

Lemma space_width_sep (c : ascii) (r : string) :
  is_sep c = true -> space_width (String c r) = 0.
Proof.
  intros H. apply is_sep_eq in H. subst c.
  destruct r as [| c1 [| c2 r2]]; reflexivity.
Qed.

Lemma has_sep_drop_space (s : string) :
  has_sep s = true -> has_sep (drop (space_width s) s) = true.
Proof.
  destruct s as [| c r]; [discriminate |]. intros H.
  destruct (is_sep c) eqn:Sc; [now rewrite space_width_sep |].
  cbn [has_sep] in H. rewrite Sc in H. cbn [orb] in H.
  unfold space_width. generalize (nat_of_ascii c) as n. intros n.
  destruct ((n =? 9) || (n =? 10) || (n =? 11) || (n =? 12) || (n =? 13)
            || (n =? 32))%nat; [exact H |].
  destruct r as [| c1 r1]; [discriminate |].
  cbn [has_sep] in H.
  destruct (is_sep c1) eqn:S1.
  - apply is_sep_eq in S1. subst c1. cbn [has_sep is_sep].
    destruct r1 as [| c2 r2].
    + cbn. rewrite andb_false_r. cbn. now rewrite Sc.
    + cbn. rewrite !andb_false_r. cbn. now rewrite Sc.
  - cbn [orb] in H. generalize (nat_of_ascii c1) as n1. intros n1.
    destruct ((n =? 194) && ((n1 =? 133) || (n1 =? 160)))%nat; [exact H |].
    destruct r1 as [| c2 r2]; [discriminate |].
    cbn [has_sep] in H.
    destruct (is_sep c2) eqn:S2.
    + apply is_sep_eq in S2. subst c2.
      cbn. rewrite !andb_false_r. cbn. now rewrite Sc, S1.
    + cbn [orb] in H. generalize (nat_of_ascii c2) as n2. intros n2.
      repeat match goal with
             | |- context [if ?b then _ else _] => destruct b
             end; cbn [drop has_sep]; rewrite ?Sc, ?S1, ?S2; cbn [orb]; trivial.
Qed.
Lemma has_sep_trim_left (fuel : nat) :
  forall s, has_sep s = true -> has_sep (trim_left fuel s) = true.
Proof.
  induction fuel as [| fuel IH]; intros s H; [exact H |].
  cbn [trim_left]. pose proof (has_sep_drop_space s H) as Hd.
  destruct (space_width s) as [| w]; [exact H |]. now apply IH.
Qed.

Lemma has_sep_app (a b : string) :
  has_sep (a ++ b) = has_sep a || has_sep b.
Proof.
  induction a as [| c a IH]; [reflexivity |].
  cbn. now rewrite IH, orb_assoc.
Qed.

Lemma has_sep_rev (s : string) : has_sep (GoString.rev s) = has_sep s.
Proof.
  induction s as [| c s IH]; [reflexivity |].
  cbn [GoString.rev]. rewrite has_sep_app, IH. cbn.
  rewrite orb_false_r. apply orb_comm.
Qed.

Lemma space_width_le1_not2 (c1 : ascii) :
  (space_width (String c1 (String "/" "")) =? 2)%nat = false.
Proof.
  unfold space_width. generalize (nat_of_ascii c1) as n1. intros n1.
  destruct ((n1 =? 9) || (n1 =? 10) || (n1 =? 11) || (n1 =? 12) || (n1 =? 13)
            || (n1 =? 32))%nat; [reflexivity |].
  cbn. now rewrite andb_false_r.
Qed.

Lemma space_width_last_sep (c : ascii) (r : string) :
  is_sep c = true -> space_width_last (String c r) = 0.
Proof.
  intros H. apply is_sep_eq in H. subst c.
  unfold space_width_last.
  change (nat_of_ascii "/") with 47. cbn [Nat.eqb orb].
  destruct r as [| c1 r1]; [reflexivity |].
  rewrite space_width_le1_not2.
  destruct r1 as [| c2 r2]; [reflexivity |].
  unfold space_width.
  generalize (nat_of_ascii c2) as n2. intros n2.
  generalize (nat_of_ascii c1) as n1. intros n1.
  change (nat_of_ascii "/") with 47.
  destruct ((n2 =? 9) || (n2 =? 10) || (n2 =? 11) || (n2 =? 12) || (n2 =? 13)
            || (n2 =? 32))%nat; [reflexivity |].
  destruct ((n2 =? 194) && ((n1 =? 133) || (n1 =? 160)))%nat; [reflexivity |].
  cbn. now rewrite !andb_false_r.
Qed.
Lemma space_width_mid_sep (c2 c : ascii) :
  (space_width (String c2 (String "/" (String c ""))) =? 3)%nat = false.
Proof.
  unfold space_width.
  generalize (nat_of_ascii c2) as n2. intros n2.
  generalize (nat_of_ascii c) as n. intros n.
  change (nat_of_ascii "/") with 47.
  destruct ((n2 =? 9) || (n2 =? 10) || (n2 =? 11) || (n2 =? 12) || (n2 =? 13)
            || (n2 =? 32))%nat; [reflexivity |].
  cbn. now rewrite !andb_false_r.
Qed.

Lemma has_sep_drop_space_last (r : string) :
  has_sep r = true -> has_sep (drop (space_width_last r) r) = true.
Proof.
  destruct r as [| c r0]; [discriminate |]. intros H.
  destruct (is_sep c) eqn:Sc; [now rewrite space_width_last_sep |].
  cbn [has_sep] in H. rewrite Sc in H. cbn [orb] in H.
  unfold space_width_last. generalize (nat_of_ascii c) as n. intros n.
  destruct ((n =? 9) || (n =? 10) || (n =? 11) || (n =? 12) || (n =? 13)
            || (n =? 32))%nat; [exact H |].
  destruct r0 as [| c1 r1]; [discriminate |].
  cbn [has_sep] in H.
  destruct (is_sep c1) eqn:S1.
  - pose proof S1 as S1'. apply is_sep_eq in S1'. subst c1.
    rewrite space_width_sep by reflexivity. cbn [Nat.eqb].
    destruct r1 as [| c2 r2].
    + cbn. now rewrite Sc.
    + rewrite space_width_mid_sep. cbn. now rewrite Sc.
  - cbn [orb] in H.
    destruct (space_width (String c1 (String c "")) =? 2)%nat; [exact H |].
    destruct r1 as [| c2 r2]; [discriminate |].
    cbn [has_sep] in H.
    destruct (is_sep c2) eqn:S2.
    + rewrite space_width_sep by assumption. cbn. now rewrite Sc, S1, S2.
    + cbn [orb] in H.
      destruct (space_width (String c2 (String c1 (String c ""))) =? 3)%nat;
        [exact H |].
      cbn. now rewrite Sc, S1, S2.
Qed.

Lemma has_sep_trim_left_rev (fuel : nat) :
  forall r, has_sep r = true -> has_sep (trim_left_rev fuel r) = true.
Proof.
  induction fuel as [| fuel IH]; intros r H; [exact H |].
  cbn [trim_left_rev]. pose proof (has_sep_drop_space_last r H) as Hd.
  destruct (space_width_last r) as [| w]; [exact H |]. now apply IH.
Qed.

(** A path name with a separator in it is not blank. *)
Lemma Empty_sep (a b : string) : fs.Empty (a ++ "/" ++ b) = false.
Proof.
  unfold fs.Empty, TrimSpace.
  assert (H : has_sep (a ++ "/" ++ b) = true).
  { rewrite has_sep_app. cbn. now rewrite orb_true_r. }
  apply (has_sep_trim_left (String.length (a ++ "/" ++ b))) in H.
  set (l := trim_left _ _) in *.
  rewrite <- has_sep_rev in H.
  apply (has_sep_trim_left_rev (String.length l)) in H.
  rewrite <- has_sep_rev in H.
  destruct (GoString.rev (trim_left_rev (String.length l) (GoString.rev l)));
    [discriminate | reflexivity].
Qed.

(** ** More on changes of the tree *)

Lemma above_refl (a : list string) : above a a.
Proof. exists []. now rewrite app_nil_r. Qed.

Lemma above_nil (b : list string) : above [] b.
Proof. now exists b. Qed.

Lemma above_cons (x : string) (a b : list string) :
  above (x :: a) (x :: b) <-> above a b.
Proof.
  split; intros [r E]; exists r.
  - now inversion E.
  - cbn. now rewrite E.
Qed.

Lemma apart_cons (x : string) (a b : list string) :
  apart (x :: a) (x :: b) -> apart a b.
Proof. intros [H1 H2]. split; intros H; [apply H1 | apply H2]; now apply above_cons. Qed.

Lemma apart_sym (a b : list string) : apart a b -> apart b a.
Proof. intros [H1 H2]. now split. Qed.

Lemma apart_app (a b r r' : list string) :
  apart a b -> apart (a ++ r) (b ++ r').
Proof.
  revert b. induction a as [| x a IH]; intros b [H1 H2].
  - contradiction H1. apply above_nil.
  - destruct b as [| y b]; [contradiction H2; apply above_nil |].
    destruct (string_dec x y) as [-> | N].
    + cbn. assert (Hab : apart a b) by (now apply apart_cons with (x := y)).
      destruct (IH b Hab) as [K1 K2].
      split; intros H; [apply K1 | apply K2]; now apply above_cons in H.
    + split; intros [s E]; cbn in E; inversion E; congruence.
Qed.

Lemma apart_snoc (a : list string) (x y : string) :
  x <> y -> apart (a ++ [x]) (a ++ [y]).
Proof.
  intros N. induction a as [| z a IH].
  - split; intros [s E]; cbn in E; inversion E; congruence.
  - destruct IH as [K1 K2].
    split; intros H; [apply K1 | apply K2]; now apply above_cons in H.
Qed.

Lemma put_entry_none (x : string) (f : option node -> option node)
  (es : list (string * node)) :
  f (find_entry x es) = None -> put_entry x f es = es.
Proof.
  induction es as [| [z c] r IH]; cbn [put_entry find_entry]; intros H.
  - now rewrite H.
  - destruct (z =? x); [now rewrite H | now rewrite IH].
Qed.

(** A change at an address leaves what is apart from it. *)
Lemma lookup_set_at_apart (b : list string) :
  forall t a n, apart a b -> lookup (set_at b n t) a = lookup t a.
Proof.
  induction b as [| y b' IH]; intros t a n Hab.
  - destruct Hab as [_ H]. contradiction H. apply above_nil.
  - destruct a as [| x a']; [destruct Hab as [H _]; contradiction H; apply above_nil |].
    destruct t as [p d | m es]; [reflexivity |].
    cbn [set_at lookup].
    destruct (y =? x) eqn:Eyx.
    + apply String.eqb_eq in Eyx. subst y.
      apply apart_cons in Hab.
      destruct b' as [| z b''];
        [destruct Hab as [_ H]; contradiction H; apply above_nil |].
      destruct (find_entry x es) as [c |] eqn:Ec.
      * rewrite (@find_entry_put_same x _ es (set_at (z :: b'') n c))
          by (now rewrite Ec).
        now apply IH.
      * rewrite put_entry_none by (now rewrite Ec). now rewrite Ec.
    + now rewrite find_entry_put_other.
Qed.

(** Putting any node where there is no directory keeps the directories
    and their names. *)
Lemma dirs_kept_set_at_any (a : list string) :
  forall t n,
    (forall m es, lookup t a <> Some (Dir m es)) ->
    dirs_kept t (set_at a n t).
Proof.
  induction a as [| x a' IH]; intros t n Ha b m es Hb.
  - destruct t as [p0 d0 | m0 es0]; [| now contradiction (Ha m0 es0)].
    apply lookup_Reg in Hb. now destruct Hb.
  - destruct t as [p0 d0 | m0 es0].
    + exists es. now split.
    + destruct b as [| y b'].
      * cbn [lookup] in Hb. inversion Hb; subst. cbn [set_at lookup].
        eexists. split; [reflexivity |].
        intros c. apply find_entry_put_keeps.
      * cbn [lookup] in Hb. cbn [set_at lookup].
        destruct (x =? y) eqn:Exy.
        -- apply String.eqb_eq in Exy. subst y.
           destruct (find_entry x es0) as [c |] eqn:Ec; [| discriminate].
           assert (Hc : forall m' es', lookup c a' <> Some (Dir m' es')).
           { intros m' es'. specialize (Ha m' es'). cbn [lookup] in Ha.
             now rewrite Ec in Ha. }
           destruct a' as [| z a''].
           ++ destruct c as [p1 d1 | m1 es1]; [| now contradiction (Hc m1 es1)].
              apply lookup_Reg in Hb. now destruct Hb.
           ++ rewrite (@find_entry_put_same x _ es0
                         (set_at (z :: a'') n c)); [| now rewrite Ec].
              now apply IH.
        -- rewrite find_entry_put_other by assumption.
           exists es. split; [exact Hb | trivial].
Qed.

Lemma dirs_kept_refl (t : node) : dirs_kept t t.
Proof. intros b m es H. exists es. now split. Qed.

Lemma extends_refl (w : world) : extends w w.
Proof. split; [reflexivity | split; [apply dirs_kept_refl | trivial]]. Qed.

Lemma extends_trans (w w' w'' : world) :
  extends w w' -> extends w' w'' -> extends w w''.
Proof.
  intros (C1 & K1 & R1) (C2 & K2 & R2).
  split; [congruence |]. split; [now apply dirs_kept_trans with (t' := tree w') |].
  intros a p d H. now apply R2, R1.
Qed.

Lemma extends_namei (w w' : world) (p : string) (a : list string) :
  extends w w' -> namei w p = inr a -> namei w' p = inr a.
Proof. intros (C & K & _). now apply namei_kept. Qed.

Lemma extends_content (w w' : world) (q : fs.Path) (x : FileMode * string) :
  extends w w' -> content w q = Some x -> content w' q = Some x.
Proof.
  intros E Hx. destruct x as [p d].
  destruct (content_resolved w q Hx) as (a & Ha & Hl).
  unfold content. rewrite (extends_namei q E Ha).
  destruct E as (_ & _ & R). now rewrite (R a p d Hl).
Qed.

Lemma extends_dir (w w' : world) (a : list string) (m : FileMode)
  (es : list (string * node)) :
  extends w w' -> lookup (tree w) a = Some (Dir m es) ->
  exists es', lookup (tree w') a = Some (Dir m es').
Proof.
  intros (_ & K & _) H. destruct (K a m es H) as (es' & H' & _). now exists es'.
Qed.

(** A node put under a free name of a directory: the new world has
    everything the old one has, the node is there, and nothing apart from
    the new address has changed. *)
Lemma extends_new_leaf (w : world) (b0 : list string) (x : string) (n : node)
  (m : FileMode) (es : list (string * node)) :
  lookup (tree w) b0 = Some (Dir m es) -> find_entry x es = None ->
  let w' := {| tree := set_at (b0 ++ [x])%list n (tree w); cwd := cwd w |} in
  extends w w'
  /\ lookup (tree w') (b0 ++ [x])%list = Some n
  /\ forall a, apart a (b0 ++ [x])%list ->
               lookup (tree w') a = lookup (tree w) a.
Proof.
  intros Hb Hx w'.
  assert (Hnone : lookup (tree w) (b0 ++ [x])%list = None)
    by (now rewrite (lookup_snoc _ _ x Hb)).
  assert (Hnd : forall m' es', lookup (tree w) (b0 ++ [x])%list <> Some (Dir m' es'))
    by (intros m' es'; rewrite Hnone; discriminate).
  split; [| split].
  - split; [reflexivity |]. split; [now apply dirs_kept_set_at_any |].
    intros a p d Ha. unfold w'. cbn [tree].
    apply lookup_set_at_other; trivial.
    intros E. rewrite E, Hnone in Ha. discriminate.
  - unfold w'. cbn [tree]. now apply lookup_set_at_new with (m := m) (es := es).
  - intros a Ha. unfold w'. cbn [tree]. now apply lookup_set_at_apart.
Qed.

(** ** [MkdirAll] and [copyFiles] under a free name of a directory *)

Lemma mkdir_fold_existing (perm : FileMode) (t : node) (pre : list string) :
  forall s b0,
    fold_left (namei_step t) pre (inr s) = inr b0 ->
    (exists m es, lookup t b0 = Some (Dir m es)) ->
    fold_left (mkdir_step perm) pre (t, inr s) = (t, inr b0).
Proof.
  induction pre as [| c pre IH] using rev_ind; intros s b0 H Hd.
  - cbn in *. now inversion H.
  - rewrite fold_left_app in *. cbn [fold_left] in *.
    destruct (fold_left (namei_step t) pre (inr s)) as [e | a1] eqn:E;
      [discriminate |].
    destruct (namei_step_dir _ _ _ H) as (m1 & es1 & Ha1).
    rewrite (IH s a1 E) by (now exists m1, es1).
    unfold namei_step in H. unfold mkdir_step. rewrite Ha1 in *.
    destruct ((c =? "") || (c =? ".")); [exact (f_equal _ H) |].
    destruct (c =? ".."); [exact (f_equal _ H) |].
    destruct (find_entry c es1) as [n' |] eqn:En; [| discriminate].
    inversion H; subst b0. destruct Hd as (m & es & Hd).
    rewrite (lookup_snoc _ _ c Ha1), En in Hd. inversion Hd; subst n'.
    reflexivity.
Qed.

Lemma m_mkdirall_Join (w : world) (d n : string) (b0 : list string)
  (m : FileMode) (es : list (string * node)) (perm : FileMode) :
  namei w d = inr b0 -> lookup (tree w) b0 = Some (Dir m es) ->
  find_entry n es = None -> valid_name n = true ->
  m_mkdirall w (Join d n) perm
  = (None, {| tree := set_at (b0 ++ [n])%list (Dir (Z.land perm ModePerm) [])
                             (tree w);
              cwd := cwd w |}).
Proof.
  intros Ha Hl Hf Hn.
  destruct (@Join_elems w d n b0 Ha Hn) as (pre & E1 & E2 & E3 & E4).
  destruct (valid_name_neq n Hn) as (N1 & N2 & N3).
  unfold m_mkdirall. rewrite E2, E1, E3, fold_left_app.
  rewrite (mkdir_fold_existing perm (tree w) pre _ E4)
    by (now exists m, es).
  cbn [fold_left]. unfold mkdir_step. now rewrite Hl, N1, N2, N3, Hf.
Qed.

Lemma MkdirAll_new_leaf (w : world) (d n : string) (b0 : list string)
  (m : FileMode) (es : list (string * node)) :
  namei w d = inr b0 -> lookup (tree w) b0 = Some (Dir m es) ->
  find_entry n es = None -> valid_name n = true ->
  exists w',
    results (fs.MkdirAll (fs.Join d n)) w None w'
    /\ adds w w' (b0 ++ [n])%list (Dir 493%Z []).
Proof.
  intros Ha Hl Hf Hn. eexists. split.
  - unfold fs.MkdirAll.
    eapply results_call;
      [cbn [model_os]; apply (m_mkdirall_Join w d n fs.defaultDirMode Ha Hl Hf Hn) |].
    apply results_Ret.
  - exact (extends_new_leaf w b0 n (Dir 493%Z []) Hl Hf).
Qed.

Lemma copyFiles_new_leaf (w : world) (src d : fs.Path) (n : string)
  (a b0 : list string) (ps m : FileMode) (ds : string)
  (es : list (string * node)) :
  fs.Empty src = false -> fs.Empty (fs.Join d n) = false ->
  namei w src = inr a -> lookup (tree w) a = Some (Reg ps ds) ->
  namei w d = inr b0 -> lookup (tree w) b0 = Some (Dir m es) ->
  find_entry n es = None -> valid_name n = true ->
  exists w',
    results (fs.copyFiles src (fs.Join d n)) w None w'
    /\ adds w w' (b0 ++ [n])%list (Reg (Z.land ps ModePerm) ds).
Proof.
  intros Es Ed Ha Hla Hc Hlc Hf Hn. eexists. split.
  - exact (results_copyFiles_new w src d n Es Ed Ha Hla Hc Hlc Hf Hn).
  - set (b := (b0 ++ [n])%list). set (P := Z.land ps ModePerm).
    destruct (extends_new_leaf w b0 n (Reg P "") Hlc Hf) as (E1 & L1 & A1).
    fold b in E1, L1, A1. fold (put_file w b P "") in E1, L1, A1.
    set (w1 := put_file w b P "") in *.
    assert (Hnone : lookup (tree w) b = None)
      by (unfold b; now rewrite (lookup_snoc _ _ n Hlc)).
    assert (Hnd : forall m' es', lookup (tree w1) b <> Some (Dir m' es'))
      by (intros m' es'; rewrite L1; discriminate).
    split; [| split].
    + split; [reflexivity |]. split.
      * apply dirs_kept_trans with (t' := tree w1); [apply E1 |].
        now apply dirs_kept_set_at_any.
      * intros a' p d' Ha'. unfold put_file. cbn [tree].
        apply lookup_set_at_other; trivial.
        -- intros E. rewrite E, Hnone in Ha'. discriminate.
        -- destruct E1 as (_ & _ & R). now apply R.
    + unfold put_file. cbn [tree]. now apply lookup_set_at_same with (n0 := Reg P "").
    + intros a' Ha'. unfold put_file at 1. cbn [tree].
      rewrite lookup_set_at_apart by assumption. now apply A1.
Qed.

(** ** Paths in clean form *)

Lemma Join_proper (p n : string) :
  proper p -> valid_name n = true ->
  Join p n = p ++ "/" ++ n /\ proper (Join p n).
Proof.
  intros [Hc Hl] Hn. destruct (valid_name_neq n Hn) as (En & _ & _).
  split.
  - rewrite (Join_name p n Hn).
    destruct (@render_snoc (isRooted p) (clean_elems p) n (clean_elems_plain p) En)
      as [(_ & H & _) | [(_ & H & _) | (_ & E & _)]]; try contradiction.
    now rewrite E, <- Clean_eq_render, Hc.
  - split; [now apply Clean_Join |].
    rewrite clean_elems_Join by assumption. now destruct (clean_elems p).
Qed.

Lemma proper_Join (d n : string) : valid_name n = true -> proper (Join d n).
Proof.
  intros Hn. split; [now apply Clean_Join |].
  rewrite clean_elems_Join by assumption. now destruct (clean_elems d).
Qed.

Lemma proper_of_clean (p : string) :
  Clean p = p -> p <> "." -> p <> "/" -> proper p.
Proof.
  intros Hc H1 H2. split; [exact Hc |]. intros E.
  rewrite Clean_eq_render, E in Hc. unfold render in Hc. cbn in Hc.
  destruct (isRooted p); [now apply H2 | now apply H1].
Qed.

Lemma proper_not_empty (p : string) : proper p -> (p =? "") = false.
Proof.
  intros [Hc Hl]. destruct p; [contradiction Hl; reflexivity | reflexivity].
Qed.

Lemma Replace1_prefix (src dest suf : string) :
  Replace1 (src ++ suf) src dest = dest ++ suf.
Proof. now rewrite Replace1_eq, prefix_app, drop_app. Qed.

Lemma clean_elems_suffix (p suf n : string) :
  proper (p ++ suf) -> valid_name n = true ->
  List.length (clean_elems p) <= List.length (clean_elems (p ++ suf)) ->
  below p (Join (p ++ suf) n)
  /\ List.length (clean_elems p)
     <= List.length (clean_elems (p ++ suf ++ "/" ++ n)).
Proof.
  intros Hp Hn Hl. split; [now apply below_Join |].
  destruct (@Join_proper (p ++ suf) n Hp Hn) as [E _].
  rewrite <- append_assoc, <- E, clean_elems_Join by assumption.
  rewrite length_app. lia.
Qed.

Lemma mirrors_extends (w w' : world) (c : node) (a : list string) :
  extends w w' -> mirrors c (lookup (tree w) a) ->
  mirrors c (lookup (tree w') a).
Proof.
  intros E H. destruct c as [p d | m es]; cbn [mirrors] in *.
  - destruct E as (_ & _ & R). now apply R.
  - destruct H as [es' H]. now apply (@extends_dir w w' a 493%Z es' E H).
Qed.

(** ** The recursive copy in the model *)

Lemma above_snoc (A a : list string) (x : string) :
  above A a -> above A (a ++ [x])%list.
Proof. intros [r ->]. exists (r ++ [x])%list. now rewrite app_assoc. Qed.

Lemma above_app (A a r : list string) : above A a -> above A (a ++ r)%list.
Proof. intros [s ->]. exists (s ++ r)%list. now rewrite app_assoc. Qed.

Lemma apart_above (A B a b : list string) :
  apart A B -> above A a -> above B b -> apart a b.
Proof. intros H [r ->] [s ->]. now apply apart_app. Qed.

Lemma frozen_at (w w1 : world) (A a : list string) :
  frozen w w1 A -> above A a -> lookup (tree w1) a = lookup (tree w) a.
Proof. intros H [r ->]. apply H. Qed.

Lemma frozen_refl (w : world) (A : list string) : frozen w w A.
Proof. intros r. reflexivity. Qed.

Lemma frozen_step (w w1 w2 : world) (A B b : list string) :
  apart A B -> above B b ->
  frozen w w1 A ->
  (forall a, apart a b -> lookup (tree w2) a = lookup (tree w1) a) ->
  frozen w w2 A.
Proof.
  intros HAB Hb F H r. rewrite H; [apply F |].
  apply (apart_above HAB); [now exists r | exact Hb].
Qed.

Lemma copy_ctx_step (w : world) (src dest : string) (A B a b : list string)
  (suf : string) (m : FileMode) (es : list (string * node)) (w1 w2 : world) :
  copy_ctx w src dest A B a b suf m es w1 ->
  extends w1 w2 -> frozen w w2 A ->
  copy_ctx w src dest A B a b suf m es w2.
Proof.
  intros (P1 & P2 & L & HA & HB & Hl & Hwf & F & Ns & Nd) E F2.
  repeat split; trivial; try apply P1; try apply P2.
  - now apply (extends_namei _ E).
  - now apply (extends_namei _ E).
Qed.

Section CopyTree.
Variable w : world.
Variables src dest : fs.Path.
Variables A B : list string.
Hypothesis A_B : apart A B.

Let Wf := fs.Walk_func src fs.WalkBoth (fs.copyDirs_walker src dest).

(** What the visitor of [copyDirs] does with an entry below the source. *)
Lemma Wf_copy (suf n : string) (info : FileInfo) :
  proper (src ++ suf) -> proper (dest ++ suf) -> valid_name n = true ->
  List.length (clean_elems src) <= List.length (clean_elems (src ++ suf)) ->
  Wf (Join (src ++ suf) n) (Some info) None tt
  = if IsDir info
    then e <- fs.MkdirAll (fs.Join (dest ++ suf) n) ;;
         match e with
         | Some err => Ret (Some err, tt)
         | None => Ret (None, tt)
         end
    else e <- fs.copyFiles (Join (src ++ suf) n) (fs.Join (dest ++ suf) n) ;;
         match e with
         | Some err => Ret (Some err, tt)
         | None => Ret (None, tt)
         end.
Proof.
  intros Ps Pd Hn Hl.
  destruct (clean_elems_suffix src suf n Ps Hn Hl) as [Hb _].
  unfold Wf, fs.Walk_func. rewrite (below_neq Hb).
  cbn [fs.WalkType_eqb]. rewrite !andb_false_r.
  unfold fs.copyDirs_walker.
  assert (E : Replace1 (Join (src ++ suf) n) src dest = fs.Join (dest ++ suf) n).
  { destruct (@Join_proper (src ++ suf) n Ps Hn) as [-> _].
    unfold fs.Join. destruct (@Join_proper (dest ++ suf) n Pd Hn) as [-> _].
    now rewrite !append_assoc, Replace1_prefix. }
  now rewrite E.
Qed.


Section Names.
Variable fuel' : nat.
Variable rec : string -> FileInfo -> unit -> prog (option error * unit).
Hypothesis rec_ok :
  forall a b suf m es w1 x c md esd,
    copy_ctx w src dest A B a b suf m es w1 ->
    find_entry x es = Some c ->
    height c <= fuel' ->
    lookup (tree w1) b = Some (Dir md esd) -> find_entry x esd = None ->
    exists w2,
      results (rec (Join (src ++ suf) x) (info_of c) tt) w1 (None, tt) w2
      /\ copied c (b ++ [x])%list w1 w2.

Lemma walk_names_copy (a b : list string) (suf : string) (m : FileMode)
  (es : list (string * node)) (names : list string) :
  (forall name, In name names -> exists c, find_entry name es = Some c) ->
  NoDup names ->
  height (Dir m es) <= S fuel' ->
  forall w1 md esd,
    copy_ctx w src dest A B a b suf m es w1 ->
    lookup (tree w1) b = Some (Dir md esd) ->
    (forall name, In name names -> find_entry name esd = None) ->
    exists w2,
      results (walk_names Wf rec (src ++ suf) names tt) w1 (None, tt) w2
      /\ extends w1 w2
      /\ (forall a', (forall name, In name names -> apart a' (b ++ [name])%list) ->
                     lookup (tree w2) a' = lookup (tree w1) a')
      /\ (forall name c r c',
            In name names -> find_entry name es = Some c ->
            lookup c r = Some c' ->
            mirrors c' (lookup (tree w2) ((b ++ [name]) ++ r)%list)).
Proof.
  intros Hnames Hnd Hh.
  induction names as [| name rest IH]; intros w1 md esd Hctx Hb Hfree.
  - exists w1. split; [apply results_Ret |]. split; [apply extends_refl |].
    split; [reflexivity |]. intros name c r c' [].
  - destruct (Hnames name (or_introl eq_refl)) as [c Hc].
    pose proof Hctx as (P1 & P2 & L & HA & HB & Hl & Hwf & F & Ns & Nd).
    destruct (@wf_entries m es name c Hwf (find_entry_In _ _ Hc))
      as (Hv & Hwfc & Hhc).
    assert (Hla : lookup (tree w1) a = Some (Dir m es))
      by (now rewrite (frozen_at F HA)).
    assert (Hna : namei w1 (Join (src ++ suf) name) = inr (a ++ [name])%list)
      by (now apply namei_Join with (m := m) (es := es) (c := c)).
    assert (Hlc : lookup (tree w1) (a ++ [name])%list = Some c)
      by (now rewrite (lookup_snoc (tree w1) a name Hla)).
    destruct (@rec_ok a b suf m es w1 name c md esd Hctx Hc) as (w1' & Hr & Hcp);
      [lia | exact Hb | apply Hfree; now left |].
    destruct Hcp as (E1 & C1 & M1).
    assert (F1 : frozen w w1' A).
    { apply (@frozen_step w w1 w1' A B (b ++ [name])%list A_B); trivial.
      now apply above_snoc. }
    pose proof (copy_ctx_step Hctx E1 F1) as Hctx'.
    destruct (@extends_dir w1 w1' b md esd E1 Hb) as [esd' Hb'].
    destruct (proj1 (NoDup_cons_iff name rest) Hnd) as [Hnin Hnd'].
    assert (Hfree' : forall name', In name' rest -> find_entry name' esd' = None).
    { intros name' Hin.
      rewrite <- (lookup_snoc (tree w1') b name' Hb').
      rewrite C1 by (apply apart_snoc; intros ->; now apply Hnin).
      rewrite (lookup_snoc (tree w1) b name' Hb). apply Hfree. now right. }
    destruct (IH (fun x Hx => Hnames x (or_intror Hx)) Hnd' w1' md esd' Hctx' Hb' Hfree')
      as (w2 & Hr2 & E2 & C2 & M2).
    exists w2. split; [| split; [| split]].
    + cbn [walk_names].
      eapply results_call; [exact (model_Lstat w1 _ Hna Hlc) |].
      eapply results_bind; [exact Hr |]. cbv beta iota. exact Hr2.
    + now apply extends_trans with (w' := w1').
    + intros a' Ha'. rewrite C2 by (intros x Hx; apply Ha'; now right).
      apply C1, Ha'. now left.
    + intros x cx r c' [-> | Hin] Hcx Hr'.
      * rewrite Hc in Hcx. inversion Hcx; subst cx.
        apply (@mirrors_extends w1' w2 c' _ E2). now apply M1.
      * now apply (M2 x cx r c').
Qed.

End Names.

Lemma apart_below (a b r : list string) : apart a b -> apart a (b ++ r)%list.
Proof.
  intros H. rewrite <- (app_nil_r a). now apply apart_app.
Qed.

Lemma walk_copy (fuel : nat) :
  forall a b suf m es w1 x c md esd,
    copy_ctx w src dest A B a b suf m es w1 ->
    find_entry x es = Some c ->
    height c <= fuel ->
    lookup (tree w1) b = Some (Dir md esd) -> find_entry x esd = None ->
    exists w2,
      results (walk Wf (S fuel) (Join (src ++ suf) x) (info_of c) tt) w1
              (None, tt) w2
      /\ copied c (b ++ [x])%list w1 w2.
Proof.
  induction fuel as [| fuel' IH];
    intros a b suf m es w1 x c md esd Hctx Hc Hh Hb Hfree;
    pose proof Hctx as (P1 & P2 & L & HA & HB & Hl & Hwf & F & Ns & Nd);
    destruct (@wf_entries m es x c Hwf (find_entry_In _ _ Hc))
      as (Hv & Hwfc & _);
    assert (Hla : lookup (tree w1) a = Some (Dir m es))
      by (now rewrite (frozen_at F HA));
    assert (Hna : namei w1 (Join (src ++ suf) x) = inr (a ++ [x])%list)
      by (now apply namei_Join with (m := m) (es := es) (c := c));
    assert (Hlc : lookup (tree w1) (a ++ [x])%list = Some c)
      by (now rewrite (lookup_snoc (tree w1) a x Hla));
    destruct (@Join_proper (src ++ suf) x P1 Hv) as [Js Ps'];
    destruct (@Join_proper (dest ++ suf) x P2 Hv) as [Jd Pd'].
  - destruct c as [p d | m' es']; [| pose proof (height_Dir_pos m' es'); lia].
    rewrite walk_S, IsDir_info_of. cbn [is_dir_node negb].
    rewrite Wf_copy, IsDir_info_of by assumption. cbn [is_dir_node].
    destruct (@copyFiles_new_leaf w1 (Join (src ++ suf) x) (dest ++ suf) x
                (a ++ [x])%list b p md d esd) as (w2 & Hr & E & Hn & C);
      trivial.
    { rewrite Js. apply Empty_sep. }
    { unfold fs.Join. rewrite Jd. apply Empty_sep. }
    exists w2. split.
    + eapply results_bind; [exact Hr |]. apply results_Ret.
    + split; [exact E |]. split; [exact C |].
      intros r c' Hr'. apply lookup_Reg in Hr'. destruct Hr' as [-> ->].
      cbn [mirrors]. now rewrite app_nil_r.
  - destruct c as [p d | m' es'].
    + rewrite walk_S, IsDir_info_of. cbn [is_dir_node negb].
      rewrite Wf_copy, IsDir_info_of by assumption. cbn [is_dir_node].
      destruct (@copyFiles_new_leaf w1 (Join (src ++ suf) x) (dest ++ suf) x
                  (a ++ [x])%list b p md d esd) as (w2 & Hr & E & Hn & C);
        trivial.
      { rewrite Js. apply Empty_sep. }
      { unfold fs.Join. rewrite Jd. apply Empty_sep. }
      exists w2. split.
      * eapply results_bind; [exact Hr |]. apply results_Ret.
      * split; [exact E |]. split; [exact C |].
        intros r c' Hr'. apply lookup_Reg in Hr'. destruct Hr' as [-> ->].
        cbn [mirrors]. now rewrite app_nil_r.
    + destruct (@MkdirAll_new_leaf w1 (dest ++ suf) x b md esd Nd Hb Hfree Hv)
        as (w1a & Hmk & E1 & Hn1 & C1).
      assert (F1 : frozen w w1a A).
      { apply (@frozen_step w w1 w1a A B (b ++ [x])%list A_B); trivial.
        now apply above_snoc. }
      destruct (@extends_dir w1 w1a b md esd E1 Hb) as [esd1 Hb1].
      assert (Hctx' : copy_ctx w src dest A B (a ++ [x])%list (b ++ [x])%list
                        (suf ++ "/" ++ x) m' es' w1a).
      { unfold copy_ctx.
        rewrite <- (append_assoc src suf ("/" ++ x)),
                  <- (append_assoc dest suf ("/" ++ x)), <- Js, <- Jd.
        repeat split; try apply Ps'; try apply Pd'.
        - rewrite clean_elems_Join, length_app by assumption. lia.
        - now apply above_snoc.
        - now apply above_snoc.
        - now rewrite (lookup_snoc (tree w) a x Hl).
        - exact Hwfc.
        - exact F1.
        - now apply (extends_namei _ E1).
        - apply namei_Join with (m := md) (es := esd1) (c := Dir 493%Z []);
            trivial.
          + now apply (extends_namei _ E1).
          + now rewrite <- (lookup_snoc (tree w1a) b x Hb1). }
      destruct (@walk_names_copy fuel' (walk Wf (S fuel')) IH
                  (a ++ [x])%list (b ++ [x])%list (suf ++ "/" ++ x) m' es'
                  (sort_strings (map fst es'))
                  (sorted_name_entry es') (wf_names_NoDup m' es' Hwfc) Hh
                  w1a 493%Z [] Hctx' Hn1 (fun _ _ => eq_refl))
        as (w2 & Hr2 & E2 & C2 & M2).
      exists w2. split.
      * rewrite walk_S, IsDir_info_of. cbn [is_dir_node negb].
        eapply results_call;
          [exact (model_readDirNames w1 _ Hna Hlc) |].
        cbv zeta. eapply results_bind.
        -- rewrite Wf_copy, IsDir_info_of by assumption. cbn [is_dir_node].
           eapply results_bind; [exact Hmk |]. apply results_Ret.
        -- cbv beta iota. rewrite Js, (append_assoc src suf ("/" ++ x)).
           exact Hr2.
      * split; [now apply extends_trans with (w' := w1a) |]. split.
        -- intros a' Ha'. rewrite C2 by (intros; now apply apart_below).
           now apply C1.
        -- intros r c' Hr'. destruct r as [| name r''].
           ++ cbn in Hr'. inversion Hr'; subst c'. cbn [mirrors].
              rewrite app_nil_r. apply (@extends_dir w1a w2 _ 493%Z [] E2 Hn1).
           ++ cbn [lookup] in Hr'.
              destruct (find_entry name es') as [cn |] eqn:En; [| discriminate].
              replace ((b ++ [x]) ++ name :: r'')%list
                with (((b ++ [x]) ++ [name]) ++ r'')%list
                by (now rewrite <- app_assoc).
              apply (M2 name cn r'' c'); trivial.
              now apply entry_sorted_name with (c := cn).
Qed.

End CopyTree.

(** [copyDirs] of a directory to a free name of a directory that is not
    below the source: the destination holds a copy of the source. *)
Lemma copyDirs_new (fuel : nat) (w : world) (src d : fs.Path) (n : string)
  (A D : list string) (mS mD : FileMode) (esS esD : list (string * node)) :
  proper src ->
  namei w src = inr A -> lookup (tree w) A = Some (Dir mS esS) ->
  wf_node (Dir mS esS) = true -> height (Dir mS esS) <= S fuel ->
  namei w d = inr D -> lookup (tree w) D = Some (Dir mD esD) ->
  find_entry n esD = None -> valid_name n = true ->
  apart A (D ++ [n])%list ->
  exists w2,
    results (fs.copyDirs (S (S fuel)) src (fs.Join d n)) w None w2
    /\ copied (Dir mS esS) (D ++ [n])%list w w2
    /\ namei w2 (fs.Join d n) = inr (D ++ [n])%list.
Proof.
  intros Ps Ha Hla Hwf Hh Hd Hld Hfree Hn AB.
  set (dest := fs.Join d n). set (B := (D ++ [n])%list) in *.
  assert (Hmiss : namei w dest = inl ENOENT)
    by (now apply namei_Join_missing with (a := D) (m := mD) (es := esD)).
  destruct (@MkdirAll_new_leaf w d n D mD esD Hd Hld Hfree Hn)
    as (w0 & Hmk & E0 & Hn0 & C0).
  fold dest B in Hmk, Hn0, C0.
  assert (F0 : frozen w w0 A).
  { apply (@frozen_step w w w0 A B B AB (above_refl B) (frozen_refl w A) C0). }
  destruct (@extends_dir w w0 D mD esD E0 Hld) as [esD0 HlD0].
  assert (HB0 : namei w0 dest = inr B).
  { apply namei_Join with (m := mD) (es := esD0) (c := Dir 493%Z []); trivial.
    - now apply (extends_namei _ E0).
    - unfold B in Hn0. now rewrite <- (lookup_snoc (tree w0) D n HlD0). }
  assert (HA0 : namei w0 src = inr A) by (now apply (extends_namei _ E0)).
  assert (HlA0 : lookup (tree w0) A = Some (Dir mS esS))
    by (now rewrite (frozen_at F0 (above_refl A))).
  assert (Hctx : copy_ctx w src dest A B A B "" mS esS w0).
  { unfold copy_ctx. rewrite !append_nil_r.
    split; [exact Ps |]. split; [exact (@proper_Join d n Hn) |].
    split; [lia |]. split; [apply above_refl |]. split; [apply above_refl |].
    now repeat split. }
  destruct (@walk_names_copy w src dest A B AB fuel
              (walk (fs.Walk_func src fs.WalkBoth (fs.copyDirs_walker src dest))
                    (S fuel))
              (@walk_copy w src dest A B AB fuel)
              A B "" mS esS (sort_strings (map fst esS))
              (sorted_name_entry esS) (wf_names_NoDup mS esS Hwf) Hh
              w0 493%Z [] Hctx Hn0 (fun _ _ => eq_refl))
    as (w2 & Hr2 & E2 & C2 & M2).
  rewrite append_nil_r in Hr2.
  exists w2. split; [| split].
  - unfold fs.copyDirs.
    eapply results_bind; [apply results_yields, yields_DirExists |].
    rewrite (is_dir_unresolved w dest Hmiss). cbn [negb].
    eapply results_bind; [exact Hmk |]. cbv iota.
    eapply results_bind with (v := (None, tt)); [| apply results_Ret].
    unfold fs.Walk.
    eapply results_bind; [apply results_yields, yields_DirExists |].
    rewrite (is_dir_resolved w0 src HA0 HlA0). cbn [is_dir_node negb].
    unfold filepath_Walk.
    eapply results_call; [exact (model_Lstat w0 src HA0 HlA0) |].
    eapply results_bind with (v := (None, tt)); [| apply results_Ret].
    rewrite walk_S, IsDir_info_of. cbn [is_dir_node negb].
    eapply results_call; [exact (model_readDirNames w0 src HA0 HlA0) |].
    cbv zeta. eapply results_bind with (v := (None, tt)).
    + unfold fs.Walk_func. rewrite String.eqb_refl. apply results_Ret.
    + cbv beta iota. exact Hr2.
  - split; [now apply extends_trans with (w' := w0) |]. split.
    + intros a' Ha'. rewrite C2 by (intros; now apply apart_below).
      now apply C0.
    + intros r c' Hr'. destruct r as [| name r''].
      * cbn in Hr'. inversion Hr'; subst c'. cbn [mirrors].
        rewrite app_nil_r. apply (@extends_dir w0 w2 _ 493%Z [] E2 Hn0).
      * cbn [lookup] in Hr'.
        destruct (find_entry name esS) as [cn |] eqn:En; [| discriminate].
        replace (B ++ name :: r'')%list with ((B ++ [name]) ++ r'')%list
          by (now rewrite <- app_assoc).
        apply (M2 name cn r'' c'); trivial.
        now apply entry_sorted_name with (c := cn).
  - now apply (extends_namei _ E2).
Qed.

Lemma lookup_wf (t : node) (r : list string) :
  forall c, wf_node t = true -> lookup t r = Some c -> wf_node c = true.
Proof.
  revert t. induction r as [| x r IH]; intros t c Hwf H.
  - cbn in H. now inversion H; subst.
  - destruct t as [p d | m es]; [discriminate |]. cbn [lookup] in H.
    destruct (find_entry x es) as [cx |] eqn:Ex; [| discriminate].
    destruct (@wf_entries m es x cx Hwf (find_entry_In _ _ Ex)) as (_ & Hc & _).
    now apply (IH cx).
Qed.

(** The paths of the copies: the destination joined with the names that
    lead to the node in the source. *)
Lemma namei_mirror (w2 : world) (dest : string) (B : list string)
  (root : node) :
  namei w2 dest = inr B -> wf_node root = true ->
  (forall r c', lookup root r = Some c' ->
                mirrors c' (lookup (tree w2) (B ++ r)%list)) ->
  forall rr c', lookup root rr = Some c' ->
                namei w2 (fold_left Join rr dest) = inr (B ++ rr)%list.
Proof.
  intros HB Hwf M rr.
  induction rr as [| y rr IH] using rev_ind; intros c' H.
  - cbn. now rewrite app_nil_r.
  - destruct (lookup_snoc_inv root rr y H) as (m & es & Hd & Hy).
    pose proof (lookup_wf root rr Hwf Hd) as Hwfd.
    destruct (@wf_entries m es y c' Hwfd (find_entry_In _ _ Hy)) as (Hv & _).
    rewrite fold_left_app. cbn [fold_left].
    destruct (M rr (Dir m es) Hd) as [es2 Hl2].
    assert (Hsome : exists n2, lookup (tree w2) ((B ++ rr) ++ [y])%list = Some n2).
    { rewrite <- app_assoc. pose proof (M (rr ++ [y])%list c' H) as Hm.
      destruct c' as [p d | m' es']; cbn [mirrors] in Hm.
      - eexists. exact Hm.
      - destruct Hm as [es'' Hm]. eexists. exact Hm. }
    destruct Hsome as [n2 Hn2].
    rewrite app_assoc.
    apply namei_Join with (m := 493%Z) (es := es2) (c := n2); trivial.
    + now apply (IH (Dir m es)).
    + now rewrite <- (lookup_snoc (tree w2) (B ++ rr) y Hl2).
Qed.

(** ** [CopyTo], case by case *)

Lemma is_file_unresolved (w : world) (p : fs.Path) (e : Errno) :
  namei w p = inl e -> is_file w p = false.
Proof. intros H. unfold is_file, m_stat. now rewrite H. Qed.

Lemma results_copy_tree (fuel : nat) (w w' : world) (src dest : fs.Path)
  (e : option error) :
  is_dir w src = true -> is_file w dest = false ->
  results (fs.copyDirs fuel src dest) w e w' ->
  results (fs.CopyTo fuel src dest) w e w'.
Proof.
  intros Fs Fd [Hv Hf].
  destruct (run_copy_cases fuel w src dest) as (_ & _ & _ & H).
  unfold results. rewrite (H Fs Fd). cbn [value final]. now split.
Qed.




(** ** The destination paths of the recursive copy *)

Lemma lookup_names_valid (t : node) (r : list string) :
  forall c, wf_node t = true -> lookup t r = Some c ->
            Forall (fun x => valid_name x = true) r.
Proof.
  revert t. induction r as [| x r IH]; intros t c Hwf H; [constructor |].
  destruct t as [p d | m es]; [discriminate |]. cbn [lookup] in H.
  destruct (find_entry x es) as [cx |] eqn:Ex; [| discriminate].
  destruct (@wf_entries m es x cx Hwf (find_entry_In _ _ Ex)) as (Hv & Hc & _).
  constructor; [exact Hv | now apply (IH cx c)].
Qed.

Lemma fold_Join_proper (src : string) (r : list string) :
  proper src -> Forall (fun x => valid_name x = true) r ->
  proper (fold_left Join r src)
  /\ (r <> [] -> fold_left Join r src = src ++ "/" ++ String.concat "/" r).
Proof.
  intros Ps. induction r as [| y r IH] using rev_ind; intros Hr.
  - split; [exact Ps | intros H; now contradiction H].
  - apply Forall_app in Hr. destruct Hr as [Hr Hy].
    inversion Hy as [| ? ? Hv _]; subst.
    destruct (IH Hr) as [Pr Er].
    rewrite fold_left_app. cbn [fold_left].
    destruct (@Join_proper (fold_left Join r src) y Pr Hv) as [E P].
    split; [exact P |]. intros _. rewrite E.
    destruct r as [| z r'].
    + reflexivity.
    + rewrite Er by discriminate.
      rewrite concat_snoc by discriminate.
      now rewrite !append_assoc.
Qed.




(** ** What the three filters of [Walk] deliver *)




(** ** Directories that [WalkDirs] does not get to *)

Lemma take_dirs_stops (es : list (string * node)) (l1 l2 : list string)
  (f x : string) :
  names_dir es f = false ->
  In x (take_dirs es (l1 ++ f :: l2)) -> In x l1.
Proof.
  intros Hf. induction l1 as [| y l1 IH]; cbn [app take_dirs].
  - now rewrite Hf.
  - destruct (names_dir es y); [| contradiction].
    intros [-> | H]; [now left | right; now apply IH].
Qed.

Lemma reach_last (r : list string) :
  forall skip n g,
    r <> [] -> reach skip n (r ++ [g]) = true ->
    exists m' es', lookup n r = Some (Dir m' es')
                   /\ In g (open_names false es').
Proof.
  induction r as [| x r IH]; intros skip n g Hr H; [contradiction |].
  destruct n as [p d | m es]; [discriminate |].
  cbn [app reach] in H. apply andb_true_iff in H. destruct H as [Hx H].
  cbn [lookup].
  destruct (find_entry x es) as [c |]; [| discriminate].
  destruct r as [| y r'].
  - destruct c as [p d | m' es']; [discriminate |].
    cbn [app reach] in H. apply andb_true_iff in H. destruct H as [Hg _].
    apply in_open_names_existsb in Hg. now exists m', es'.
  - apply (IH false c g); [discriminate | exact H].
Qed.

Lemma clean_elems_fold_Join (p : string) (r : list string) :
  Forall (fun x => valid_name x = true) r ->
  clean_elems (fold_left Join r p) = (clean_elems p ++ r)%list.
Proof.
  induction r as [| y r IH] using rev_ind; intros Hr.
  - cbn. now rewrite app_nil_r.
  - apply Forall_app in Hr. destruct Hr as [Hr Hy].
    inversion Hy as [| ? ? Hv _]; subst.
    rewrite fold_left_app. cbn [fold_left].
    rewrite clean_elems_Join, IH by assumption. now rewrite app_assoc.
Qed.

Lemma fold_Join_inj (p : string) (r r' : list string) :
  Forall (fun x => valid_name x = true) r ->
  Forall (fun x => valid_name x = true) r' ->
  fold_left Join r p = fold_left Join r' p -> r = r'.
Proof.
  intros Hr Hr' E. apply (f_equal clean_elems) in E.
  rewrite !clean_elems_fold_Join in E by assumption.
  now apply app_inv_head in E.
Qed.

Lemma NoDup_app_disjoint {T : Type} (l1 l2 : list T) (x : T) :
  NoDup (l1 ++ l2) -> In x l1 -> In x l2 -> False.
Proof.
  induction l1 as [| y l1 IH]; cbn; intros Hnd H1 H2; [contradiction |].
  inversion Hnd as [| ? ? Hy Hnd']; subst.
  destruct H1 as [-> | H1].
  - apply Hy. apply in_or_app. now right.
  - now apply IH.
Qed.



